(** * config_compliance: extraction and comparison engine

    A shallow embedding of [roles/iospush/library/config_compliance.py]
    (an Ansible module, Python 2: [map] and [filter] return lists, [str] is
    a byte string) and the properties of its comparison and extraction
    functions.

    Conventions of the embedding.
    - A Python [str] is a [string]; a list of lines is a [list string].
    - A Python exception is a value of [exn]; a function that can raise
      returns in [res].
    - List objects that are shared between a caller and a callee and
      written in place (the content of a [Template], the content of a
      [Block], the residue lists tagged by [block_check_equal]) live in a
      [store] and are known by their location.
    - The [re] module and the builtin [hash] are not part of the module:
      they are parameters of the sections that need them. *)

From Stdlib Require Import Ascii String.
From stdpp Require Import base numbers list sets strings sorting.

Open Scope string_scope.
Open Scope list_scope.
Open Scope nat_scope.

(** ** Exceptions *)

Inductive exn : Type :=
| ValueError   (* list.remove(x), list.index(x): x not in list *)
| IndexError   (* subscript out of range *)
| ReError.     (* re.compile on a malformed pattern *)

Inductive res (A : Type) : Type :=
| Ok (a : A)
| Raise (e : exn).
Arguments Ok {A} a.
Arguments Raise {A} e.

#[global] Instance res_ret : MRet res := λ A a, Ok a.
#[global] Instance res_bind : MBind res := λ A B f m,
  match m with Ok a => f a | Raise e => Raise e end.
#[global] Instance res_fmap : FMap res := λ A B f m,
  match m with Ok a => Ok (f a) | Raise e => Raise e end.

(** [for x in xs: s = body(x, s)] with exceptions propagating. *)
Fixpoint for_each {A S : Type} (xs : list A) (body : A → S → res S) (s : S)
  : res S :=
  match xs with
  | [] => Ok s
  | x :: xs' => s' ← body x s; for_each xs' body s'
  end.

(** [range(lo, hi)] *)
Definition range (lo hi : nat) : list nat := seq lo (hi - lo).

(** ** Builtins on lists and strings *)

(** [l[i]] *)
Definition getitem {A : Type} (l : list A) (i : nat) : res A :=
  match l !! i with Some x => Ok x | None => Raise IndexError end.

(** [l.remove(x)]: drops the first element equal to [x]. *)
Fixpoint list_remove (x : string) (l : list string) : res (list string) :=
  match l with
  | [] => Raise ValueError
  | y :: l' => if String.eqb y x then Ok l' else cons y <$> list_remove x l'
  end.

(** [l.index(x)] *)
Fixpoint list_index (x : string) (l : list string) : res nat :=
  match l with
  | [] => Raise ValueError
  | y :: l' => if String.eqb y x then Ok 0 else S <$> list_index x l'
  end.

(** [del l[i]] *)
Definition delitem {A : Type} (l : list A) (i : nat) : res (list A) :=
  if decide (i < length l) then Ok (delete i l) else Raise IndexError.

(** [s[i]] on a string *)
Definition str_get (s : string) (i : nat) : res ascii :=
  match String.get i s with Some c => Ok c | None => Raise IndexError end.

(** ** Constants *)

Definition COMPARE_ARG_KEEP_START : string := "keep_block_start".
Definition COMPARE_ARG_KEEP_END : string := "keep_block_end".
Definition COMPARE_ARG_STRICT : string := "strict_order".
Definition COMPARE_METHOD_EQUALS : string := "equals".
Definition LINE_DELIMITER : string := "@!!@".
Definition EDIT_DISTANCE_THRESHOLD : nat := 6.

(** ** levenshtein *)

Abbreviation matrix := (list (list nat)).

(** [d[i][j]] *)
Definition m_get (d : matrix) (i j : nat) : res nat :=
  row ← getitem d i; getitem row j.

(** [d[i][j] = v] *)
Definition m_set (d : matrix) (i j v : nat) : res matrix :=
  row ← getitem d i;
  if decide (j < length row) then Ok (<[i := <[j := v]> row]> d)
  else Raise IndexError.

Definition levenshtein_cell (s t : string) (j i : nat) (d : matrix)
  : res matrix :=
  si ← str_get s i;
  tj ← str_get t j;
  let cost := if Ascii.eqb si tj then 0 else 1 in
  a ← m_get d (i - 1) j;
  b ← m_get d i (j - 1);
  c ← m_get d (i - 1) (j - 1);
  m_set d i j (Nat.min (a + 1) (Nat.min (b + 1) (c + cost))).

Definition levenshtein (s t : string) : res nat :=
  if String.eqb s t then Ok 0
  else if (String.length s =? 0)%nat then Ok (String.length t)
  else if (String.length t =? 0)%nat then Ok (String.length s)
  else
    let d := replicate (String.length s) (replicate (String.length t) 0) in
    d ← for_each (range 1 (String.length s)) (λ i d, m_set d i 0 i) d;
    d ← for_each (range 1 (String.length t)) (λ j d, m_set d 0 j j) d;
    d ← for_each (range 1 (String.length t))
          (λ j d, for_each (range 1 (String.length s))
                    (levenshtein_cell s t j) d) d;
    m_get d (String.length s - 1) (String.length t - 1).

(** The edit distance the name refers to, by the recurrence of Wagner
    and Fischer: [lev_prefix s t i j] is the least number of
    single-character insertions, deletions and substitutions that turn
    the first [i] characters of [s] into the first [j] characters of
    [t]. *)
Fixpoint lev_prefix (s t : string) (i j : nat) {struct i} : nat :=
  match i with
  | 0 => j
  | S i' =>
      (fix column (j : nat) : nat :=
         match j with
         | 0 => i
         | S j' =>
             Nat.min (lev_prefix s t i' j + 1)
               (Nat.min (column j' + 1)
                  (lev_prefix s t i' j'
                   + (if decide (String.get i' s = String.get j' t)
                      then 0 else 1)))
         end) j
  end.

Definition edit_distance (s t : string) : nat :=
  lev_prefix s t (String.length s) (String.length t).

(** ** Order-insensitive comparison *)

Fixpoint normal_loop (template_lines : list string) (todo : list string)
    (remaining_lines remaining_template_lines : list string)
  : res (list string * list string) :=
  match todo with
  | [] => Ok (remaining_lines, remaining_template_lines)
  | line :: todo' =>
      if decide (line ∈ template_lines) then
        remaining_lines ← list_remove line remaining_lines;
        remaining_template_lines ← list_remove line remaining_template_lines;
        normal_loop template_lines todo' remaining_lines remaining_template_lines
      else
        normal_loop template_lines todo' remaining_lines remaining_template_lines
  end.

Definition line_normal_check (lines template_lines : list string)
  : res (list string * list string) :=
  normal_loop template_lines lines lines template_lines.

Definition block_normal_check (block_lines template_lines : list string)
  : res (list string * list string) :=
  normal_loop template_lines block_lines block_lines template_lines.

(** ** Strict-order comparison *)

(** The body of [for i in range(0, len(lines))]; the [break] branch
    returns the two original lists. *)
Fixpoint strict_loop (lines template_lines : list string) (todo : list nat)
    (remaining_lines remaining_template_lines : list string)
  : res (list string * list string) :=
  match todo with
  | [] => Ok (remaining_lines, remaining_template_lines)
  | i :: todo' =>
      line ← getitem lines i;
      template_line ← getitem template_lines i;
      if String.eqb line template_line then
        remaining_lines ← list_remove line remaining_lines;
        remaining_template_lines ← list_remove line remaining_template_lines;
        strict_loop lines template_lines todo'
          remaining_lines remaining_template_lines
      else
        diff ← levenshtein line template_line;
        if decide (EDIT_DISTANCE_THRESHOLD < diff) then
          Ok (lines, template_lines)
        else
          strict_loop lines template_lines todo'
            remaining_lines remaining_template_lines
  end.

Definition line_strict_check (lines template_lines : list string)
  : res (list string * list string) :=
  if decide (length lines = length template_lines) then
    strict_loop lines template_lines (range 0 (length lines))
      lines template_lines
  else Ok (lines, template_lines).

Definition block_strict_check (block_lines template_lines : list string)
  : res (list string * list string) :=
  if decide (length block_lines = length template_lines) then
    strict_loop block_lines template_lines (range 0 (length block_lines))
      block_lines template_lines
  else Ok (block_lines, template_lines).

(** ** Strings: [strip], [startswith], [endswith], [join], [sorted] *)

(** The characters of [str.strip()] and of the pattern class [\s]:
    space, tab, line feed, carriage return, vertical tab, form feed. *)
Definition is_space (c : ascii) : bool :=
  let n := nat_of_ascii c in
  (n =? 32)%nat || (n =? 9)%nat || (n =? 10)%nat || (n =? 13)%nat
  || (n =? 11)%nat || (n =? 12)%nat.

Fixpoint lstrip (s : string) : string :=
  match s with
  | EmptyString => EmptyString
  | String c s' => if is_space c then lstrip s' else s
  end.

Fixpoint rstrip (s : string) : string :=
  match s with
  | EmptyString => EmptyString
  | String c s' =>
      match rstrip s' with
      | EmptyString => if is_space c then EmptyString else String c EmptyString
      | r => String c r
      end
  end.

(** [s.strip()] *)
Definition strip (s : string) : string := rstrip (lstrip s).

(** [s.startswith(p)] *)
Definition startswith (s p : string) : bool := String.prefix p s.

(** [s.endswith(p)] *)
Definition endswith (s p : string) : bool :=
  (String.length p <=? String.length s)%nat
  && String.eqb
       (substring (String.length s - String.length p) (String.length p) s) p.

(** [re.compile("^\s").match(line)] is truthy *)
Definition whitespace_start (line : string) : bool :=
  match line with String c _ => is_space c | EmptyString => false end.

(** [re.compile("^[^\s]").match(line)] is truthy *)
Definition not_whitespace_start (line : string) : bool :=
  match line with String c _ => negb (is_space c) | EmptyString => false end.

(** ["".join(lines)] *)
Definition join (lines : list string) : string :=
  foldr String.append EmptyString lines.

Definition str_le (s t : string) : Prop := String.leb s t = true.
#[global] Instance str_le_dec s t : Decision (str_le s t).
Proof. unfold str_le. apply _. Defined.

(** [sorted(lines)] on strings, [sorted(indices)] on integers *)
Definition sorted_str (lines : list string) : list string :=
  merge_sort str_le lines.
Definition sorted_nat (indices : list nat) : list nat :=
  merge_sort Nat.le indices.

(** ["{}{}{}".format(start, __LINE_DELIMITER, line)] *)
Definition tag (start line : string) : string :=
  start +:+ LINE_DELIMITER +:+ line.

(** ** The store of shared list objects *)

Abbreviation loc := nat (only parsing).
Abbreviation store := (list (list string)).

(** A computation over the store that may raise. *)
Definition M (A : Type) : Type := store → res (A * store).

#[global] Instance M_ret : MRet M := λ A a σ, Ok (a, σ).
#[global] Instance M_bind : MBind M := λ A B f m σ,
  match m σ with Ok (a, σ') => f a σ' | Raise e => Raise e end.

Definition lift {A : Type} (r : res A) : M A := λ σ,
  match r with Ok a => Ok (a, σ) | Raise e => Raise e end.

(** A fresh list object holding [l] *)
Definition new_list (l : list string) : M loc := λ σ,
  Ok (length σ, σ ++ [l]).

(** The current value of the list object at [r]. Every location the
    module holds comes from [new_list] or from a field of an object in
    the store; a location never allocated would read as the empty list. *)
Definition load (r : loc) : M (list string) := λ σ,
  Ok (σ !!! r, σ).

(** [r[i] = v] *)
Definition setitem (r : loc) (i : nat) (v : string) : M unit := λ σ,
  if decide (i < length (σ !!! r)) then Ok ((), <[r := <[i := v]> (σ !!! r)]> σ)
  else Raise IndexError.

(** [r.append(v)] *)
Definition append (r : loc) (v : string) : M unit := λ σ,
  Ok ((), <[r := σ !!! r ++ [v]]> σ).

Fixpoint for_each_M {A : Type} (xs : list A) (body : A → M unit) : M unit :=
  match xs with
  | [] => mret ()
  | x :: xs' => _ ← body x; for_each_M xs' body
  end.

(** [for i, _ in enumerate(r): r[i] = "{}{}{}".format(start, DELIM, r[i])] *)
Definition tag_in_place (start : string) (r : loc) : M unit :=
  l ← load r;
  for_each_M (range 0 (length l))
    (λ i, l ← load r; v ← lift (getitem l i); setitem r i (tag start v)).

(** ** Template and Block *)

Record Template : Type := mkTemplate {
  t_name : string;
  t_content : loc;
}.

Record Block : Type := mkBlock {
  b_start : string;
  b_end : option string;      (* [None] is Python's None *)
  b_content : loc;
}.

Definition Template_get_content (self : Template) : M loc :=
  mret (t_content self).

(** [Block(start)]: [end] and [content] default to None, so the content
    is a fresh empty list. *)
Definition Block_init (start : string) : M Block :=
  c ← new_list []; mret (mkBlock start None c).

Definition Block_get_start (self : Block) : string := b_start self.

(** [set_end] assigns only a truthy [end]. *)
Definition Block_set_end (self : Block) (end_ : string) : Block :=
  if String.eqb end_ "" then self
  else mkBlock (b_start self) (Some end_) (b_content self).

(** [add_content_line(line)] with the default [strip=True] *)
Definition Block_add_content_line (self : Block) (line : string) : M unit :=
  if String.eqb line "" then mret ()
  else append (b_content self) (strip line).

Definition Block_get_content (self : Block) (add_start add_end : bool)
  : M loc :=
  let block_content := b_content self in
  block_content ←
    (if add_start then
       l ← load block_content; new_list (b_start self :: l)
     else mret block_content);
  match add_end, b_end self with
  | true, Some e =>
      if String.eqb e "" then mret block_content
      else l ← load block_content; new_list (l ++ [e])
  | _, _ => mret block_content
  end.

(** ** The comparison and extraction engine

    The regular-expression engine and the builtin [hash] are the
    module's collaborators. *)

Section Engine.

(** Compiled patterns, [re.compile] (raising on a malformed pattern),
    and whether [r.match(line)] / [r.search(line)] is truthy. *)
Context {regex : Type}.
Context (re_compile : string → res regex).
Context (re_match re_search : regex → string → bool).
(** The builtin [hash] on strings. *)
Context (py_hash : string → Z).

Definition is_hash_equal (block_lines template_lines : list string)
    (strict_order : bool) : bool :=
  let block_lines :=
    if strict_order then block_lines else sorted_str block_lines in
  let template_lines :=
    if strict_order then template_lines else sorted_str template_lines in
  let block_data := join block_lines in
  let template_data := join template_lines in
  let block_hash := py_hash block_data in
  let template_hash := py_hash template_data in
  bool_decide (block_hash = template_hash).

Definition filter_ignore_lines
    (block_lines template_lines ignore_lines : list string)
  : res (list string * list string) :=
  '(filtered_block_lines, filtered_template_lines) ←
    for_each ignore_lines
      (λ ignore_line '(fb, ft),
         r ← re_compile ignore_line;
         Ok (fb ++ filter (λ x, re_search r x) block_lines,
             ft ++ filter (λ x, re_search r x) template_lines))
      ([], []);
  Ok (filter (λ x, x ∉ filtered_block_lines) block_lines,
      filter (λ x, x ∉ filtered_template_lines) template_lines).

Definition block_check_equal (block : Block) (template : Template)
    (compare_args ignore_lines : list string) : M (loc * loc) :=
  content ← Block_get_content block false false;
  content ← load content;
  if bool_decide (content = []) then
    template_lines ← Template_get_content template;
    _ ← tag_in_place (Block_get_start block) template_lines;
    extra ← new_list [];
    mret (extra, template_lines)
  else
    let add_block_start :=
      bool_decide (COMPARE_ARG_KEEP_START ∈ compare_args) in
    let add_block_end :=
      bool_decide (COMPARE_ARG_KEEP_END ∈ compare_args) in
    block_lines ← Block_get_content block add_block_start add_block_end;
    template_lines ← Template_get_content template;
    let strict_mode := bool_decide (COMPARE_ARG_STRICT ∈ compare_args) in
    bl ← load block_lines;
    tl ← load template_lines;
    if is_hash_equal bl tl strict_mode then
      extra ← new_list [];
      missing ← new_list [];
      mret (extra, missing)
    else
      '(bl, tl) ← lift (filter_ignore_lines bl tl ignore_lines);
      '(rb, rt) ← lift (if strict_mode then block_strict_check bl tl
                        else block_normal_check bl tl);
      remaining_block_lines ← new_list rb;
      remaining_template_lines ← new_list rt;
      let block_start := Block_get_start block in
      _ ← tag_in_place block_start remaining_block_lines;
      _ ← tag_in_place block_start remaining_template_lines;
      mret (remaining_block_lines, remaining_template_lines).

Definition compare_block (template : Template) (block : Block)
    (compare_method : string) (compare_args ignore_lines : list string)
  : M (loc * loc) :=
  if String.eqb COMPARE_METHOD_EQUALS compare_method then
    block_check_equal block template compare_args ignore_lines
  else
    extra ← new_list []; missing ← new_list []; mret (extra, missing).

Definition line_check_equal (lines : list string) (template : Template)
    (compare_args : list string) : M (list string * list string) :=
  template_lines ← Template_get_content template;
  tl ← load template_lines;
  let strict_mode := bool_decide (COMPARE_ARG_STRICT ∈ compare_args) in
  lift (if strict_mode then line_strict_check lines tl
        else line_normal_check lines tl).

Definition compare_lines (template : Template) (lines : list string)
    (compare_method : string) (compare_args : list string)
  : M (list string * list string) :=
  if String.eqb COMPARE_METHOD_EQUALS compare_method then
    line_check_equal lines template compare_args
  else mret ([], []).

(** *** Block extraction *)

Definition is_end_of_block (line search_end : string) : res bool :=
  if String.eqb search_end "" then Ok (negb (whitespace_start line))
  else
    end_regex ← re_compile search_end;
    Ok (negb (whitespace_start line) || re_match end_regex line).

(** The [while] loop of [extract_block]; [rest] is
    [config_lines[index:]], so [rest = []] is [index = len(config_lines)].
    Returns the final [index] and [delete_indices]. *)
Fixpoint block_scan (block : Block) (search_end : string)
    (rest : list string) (index : nat) (delete_indices : list nat)
  : M (nat * list nat) :=
  match rest with
  | [] => mret (index, delete_indices)
  | line :: rest' =>
      stop ← lift (is_end_of_block line search_end);
      if (stop : bool) then mret (index, delete_indices)
      else
        _ ← Block_add_content_line block line;
        block_scan block search_end rest' (index + 1)
          (delete_indices ++ [index])
  end.

(** [for index in reversed(sorted(delete_indices)): del config_lines[index]] *)
Definition delete_all (delete_indices : list nat) (config_lines : list string)
  : res (list string) :=
  for_each (reverse (sorted_nat delete_indices))
    (λ index config_lines, delitem config_lines index) config_lines.

Definition extract_block (config_lines : list string)
    (search_start search_end : string) : M (Block * list string) :=
  block ← Block_init search_start;
  match list_index search_start config_lines with
  | Raise _ => mret (block, config_lines)
  | Ok start_index =>
      '(index, delete_indices) ←
        block_scan block search_end (drop (start_index + 1) config_lines)
          (start_index + 1) [start_index];
      line ← lift (getitem config_lines index);
      let '(block, delete_indices) :=
        if String.eqb line search_end then
          (Block_set_end block search_end, delete_indices ++ [index])
        else (block, delete_indices) in
      config_lines ← lift (delete_all delete_indices config_lines);
      mret (block, config_lines)
  end.

(** *** Line extraction *)

(** [next_line] is [None] for Python's None. *)
Definition is_block_start (current_line : string)
    (next_line : option string) : bool :=
  match next_line with
  | None => false
  | Some next_line =>
      if String.eqb current_line "" || String.eqb next_line "" then false
      else not_whitespace_start current_line && whitespace_start next_line
  end.

(** [enumerate(l)] *)
Definition enumerate {A : Type} (l : list A) : list (nat * A) :=
  zip (seq 0 (length l)) l.

Fixpoint additional_loop (start_index : nat) (search_until : string)
    (todo : list (nat * string))
    (extra_indices : list nat) (extra_lines : list string)
  : list nat * list string :=
  match todo with
  | [] => (extra_indices, extra_lines)
  | (i, line) :: todo' =>
      let line := strip line in
      if endswith line search_until then
        (extra_indices ++ [i + start_index], extra_lines ++ [line])
      else
        additional_loop start_index search_until todo'
          (extra_indices ++ [i + start_index]) (extra_lines ++ [line])
  end.

Definition extract_additional_lines (config_lines : list string)
    (start_index : nat) (search_until : string) : list nat * list string :=
  additional_loop start_index search_until
    (enumerate (drop start_index config_lines)) [] [].

Definition extract_lines_body (config_lines : list string)
    (start_regex : regex) (it : nat * string)
    (acc : list string * list nat) : res (list string * list nat) :=
  let '(i, line) := it in
  let '(found_lines, delete_indices) := acc in
  current ← getitem config_lines i;
  let block_start := is_block_start current (config_lines !! (i + 1)) in
  if re_match start_regex line && negb block_start then
    let line := strip line in
    let found_lines := found_lines ++ [line] in
    let delete_indices := delete_indices ++ [i] in
    if endswith line "@" then
      let '(extra_indexes, extra_lines) :=
        extract_additional_lines config_lines (i + 1) "@" in
      Ok (found_lines ++ extra_lines, delete_indices ++ extra_indexes)
    else Ok (found_lines, delete_indices)
  else Ok (found_lines, delete_indices).

(** [search_end] is accepted and not used. *)
Definition extract_lines (config_lines : list string)
    (search_start search_end : string) : res (list string * list string) :=
  start_regex ← re_compile search_start;
  '(found_lines, delete_indices) ←
    for_each (enumerate config_lines)
      (extract_lines_body config_lines start_regex) ([], []);
  config_lines ← delete_all delete_indices config_lines;
  Ok (found_lines, config_lines).

End Engine.

(** *** Global comparison *)

Definition check_global_body (template_lines : list string)
    (it : nat * string) (acc : list nat * list string)
  : res (list nat * list string) :=
  let '(i, line) := it in
  let '(delete_indices, remaining_template_lines) := acc in
  let line := strip line in
  if decide (line ∈ template_lines) then
    let delete_indices := delete_indices ++ [i] in
    if decide (line ∈ remaining_template_lines) then
      remaining_template_lines ← list_remove line remaining_template_lines;
      Ok (delete_indices, remaining_template_lines)
    else Ok (delete_indices, remaining_template_lines)
  else Ok (delete_indices, remaining_template_lines).

(** [compare_method] and [compare_args] are accepted and not used. *)
Definition check_global (config_lines : list string) (template : Template)
    (compare_method : string) (compare_args : list string)
  : M (list string * list string * list string) :=
  template_lines ← Template_get_content template;
  template_lines ← load template_lines;
  '(delete_indices, remaining_template_lines) ←
    lift (for_each (enumerate config_lines)
            (check_global_body template_lines) ([], template_lines));
  config_lines ← lift (delete_all delete_indices config_lines);
  mret ([], remaining_template_lines, config_lines).

(** *** Block-line extraction *)

(** The line feed, ["\n"]. *)
Definition LF : string := String (ascii_of_nat 10) EmptyString.

Fixpoint additional_loop2 (start_index : nat) (search_until : string)
    (todo : list (nat * string))
    (extra_indices : list nat) (extra_lines : list string)
  : list nat * list string :=
  match todo with
  | [] => (extra_indices, extra_lines)
  | (i, line) :: todo' =>
      if negb (startswith line search_until) then
        let line := strip line in
        if startswith line "!" || startswith line LF then
          (extra_indices ++ [i + start_index], extra_lines ++ [line])
        else (extra_indices, extra_lines)
      else
        let line := strip line in
        additional_loop2 start_index search_until todo'
          (extra_indices ++ [i + start_index]) (extra_lines ++ [line])
  end.

Definition extract_additional_lines2 (config_lines : list string)
    (start_index : nat) (search_until : string) : list nat * list string :=
  additional_loop2 start_index search_until
    (enumerate (drop start_index config_lines)) [] [].

Section BlockLines.

Context {regex : Type}.
Context (re_compile : string → res regex).
Context (re_match : regex → string → bool).

Definition extract_block_lines_body (config_lines : list string)
    (start_regex : regex) (it : nat * string)
    (acc : list string * list nat) : res (list string * list nat) :=
  let '(i, line) := it in
  let '(found_lines, delete_indices) := acc in
  if re_match start_regex line then
    let line := strip line in
    let found_lines := found_lines ++ [line] in
    let delete_indices := delete_indices ++ [i] in
    if endswith line "@" then
      let '(extra_indexes, extra_lines) :=
        extract_additional_lines config_lines (i + 1) "@" in
      Ok (found_lines ++ extra_lines, delete_indices ++ extra_indexes)
    else
      let last_line := length config_lines <=? i + 1 in
      if negb last_line then
        next_line ← getitem config_lines (i + 1);
        if startswith next_line " " then
          let '(extra_indexes, extra_lines) :=
            extract_additional_lines2 config_lines (i + 1) " " in
          Ok (found_lines ++ extra_lines, delete_indices ++ extra_indexes)
        else Ok (found_lines, delete_indices)
      else Ok (found_lines, delete_indices)
  else Ok (found_lines, delete_indices).

(** [search_end] is accepted and not used. *)
Definition extract_block_lines (config_lines : list string)
    (search_start search_end : string) : res (list string * list string) :=
  start_regex ← re_compile search_start;
  '(found_lines, delete_indices) ←
    for_each (enumerate config_lines)
      (extract_block_lines_body config_lines start_regex) ([], []);
  config_lines ← delete_all delete_indices config_lines;
  Ok (found_lines, config_lines).

End BlockLines.

(** *** Command synthesis in [run_module] *)

(** The text after the last occurrence of [d] in [s], when [d] occurs
    in [s]. *)
Fixpoint after_last (d s : string) : option string :=
  match s with
  | EmptyString => None
  | String c s' =>
      match after_last d s' with
      | Some r => Some r
      | None =>
          if String.prefix d s
          then Some (substring (String.length d)
                       (String.length s - String.length d) s)
          else None
      end
  end.

(** The segments of [s] between its line feeds. *)
Fixpoint segments (s : string) : list string :=
  match s with
  | EmptyString => [EmptyString]
  | String c s' =>
      if Ascii.eqb c (ascii_of_nat 10) then EmptyString :: segments s'
      else match segments s' with
           | seg :: segs => String c seg :: segs
           | [] => [String c EmptyString]
           end
  end.

(** ["\n".join(segs)] *)
Fixpoint join_lf (segs : list string) : string :=
  match segs with
  | [] => EmptyString
  | seg :: segs' =>
      match segs' with
      | [] => seg
      | _ :: _ => seg +:+ LF +:+ join_lf segs'
      end
  end.

(** A segment without its text up to the last delimiter. *)
Definition untagged (seg : string) : string :=
  default seg (after_last LINE_DELIMITER seg).

(** [__REMOVE_DELIMITER.sub("", x)] for the pattern [".*@!!@"]: the dot
    matches every character but the line feed and the star is greedy,
    so a match starts where a segment starts and ends with the last
    delimiter of that segment; what follows in the segment holds no
    further match. *)
Definition remove_delimiter (x : string) : string :=
  join_lf (untagged <$> segments x).

(** The value of [module_result["not_expected_commands"]]. *)
Definition not_expected_commands (too_much : list string) : list string :=
  let parsed_too_much := remove_delimiter <$> too_much in
  foldl (λ not_expected_commands line,
           if negb (String.eqb line "") then
             if negb (startswith line "no ") then
               not_expected_commands ++ ["no " +:+ line]
             else not_expected_commands ++ [line]
           else not_expected_commands)
    [] parsed_too_much.

(** The value of [module_result["expected_commands"]]. *)
Definition expected_commands (missing : list string) : list string :=
  remove_delimiter <$> missing.

(** *** Validation of the module parameters *)

Definition SEARCH_MODE_LINE : string := "line".
Definition SEARCH_MODE_BLOCK : string := "block".
Definition SEARCH_MODE_BLOCK_LINES : string := "block_lines".
Definition SEARCH_MODE_GLOBAL : string := "global".

Definition VALID_COMPARE_METHODS : list string := [COMPARE_METHOD_EQUALS].
Definition VALID_COMPARE_ARGS : list string :=
  [COMPARE_ARG_KEEP_START; COMPARE_ARG_KEEP_END; COMPARE_ARG_STRICT].
Definition VALID_SEARCH_MODES : list string :=
  [SEARCH_MODE_LINE; SEARCH_MODE_BLOCK; SEARCH_MODE_BLOCK_LINES;
   SEARCH_MODE_GLOBAL].

(** The entries of [module.params] that validation reads or writes;
    [None] is Python's None. *)
Record Params : Type := mkParams {
  p_source : option string;
  p_destination_expected : option string;
  p_destination_not_expected : option string;
  p_template : option string;
  p_template_args : option (list (string * string));
  p_search_mode : option string;
  p_search_start : option string;
  p_search_end : option string;
  p_compare_method : option string;
  p_compare_args : option (list string);
  p_ignore_lines : option (list string)
}.

Definition set_compare_method (v : option string) (p : Params) : Params :=
  mkParams (p_source p) (p_destination_expected p)
    (p_destination_not_expected p) (p_template p) (p_template_args p)
    (p_search_mode p) (p_search_start p) (p_search_end p) v
    (p_compare_args p) (p_ignore_lines p).

Definition set_search_mode (v : option string) (p : Params) : Params :=
  mkParams (p_source p) (p_destination_expected p)
    (p_destination_not_expected p) (p_template p) (p_template_args p)
    v (p_search_start p) (p_search_end p) (p_compare_method p)
    (p_compare_args p) (p_ignore_lines p).

Definition set_compare_args (v : option (list string)) (p : Params)
  : Params :=
  mkParams (p_source p) (p_destination_expected p)
    (p_destination_not_expected p) (p_template p) (p_template_args p)
    (p_search_mode p) (p_search_start p) (p_search_end p)
    (p_compare_method p) v (p_ignore_lines p).

Definition set_search_end (v : option string) (p : Params) : Params :=
  mkParams (p_source p) (p_destination_expected p)
    (p_destination_not_expected p) (p_template p) (p_template_args p)
    (p_search_mode p) (p_search_start p) v (p_compare_method p)
    (p_compare_args p) (p_ignore_lines p).

Definition set_template_args (v : option (list (string * string)))
    (p : Params) : Params :=
  mkParams (p_source p) (p_destination_expected p)
    (p_destination_not_expected p) (p_template p) v
    (p_search_mode p) (p_search_start p) (p_search_end p)
    (p_compare_method p) (p_compare_args p) (p_ignore_lines p).

Definition set_ignore_lines (v : option (list string)) (p : Params)
  : Params :=
  mkParams (p_source p) (p_destination_expected p)
    (p_destination_not_expected p) (p_template p) (p_template_args p)
    (p_search_mode p) (p_search_start p) (p_search_end p)
    (p_compare_method p) (p_compare_args p) v.

(** [not v] for a parameter that is None or a string. *)
Definition is_empty (v : option string) : bool :=
  match v with
  | None => true
  | Some s => String.eqb s ""
  end.

(** [str.lower(s)] on a byte string. *)
Definition lower_char (c : ascii) : ascii :=
  let n := nat_of_ascii c in
  if (65 <=? n) && (n <=? 90) then ascii_of_nat (n + 32) else c.

Fixpoint lower (s : string) : string :=
  match s with
  | EmptyString => EmptyString
  | String c s' => String (lower_char c) (lower s')
  end.

(** [",".join(parts)] *)
Fixpoint join_comma (parts : list string) : string :=
  match parts with
  | [] => EmptyString
  | part :: parts' =>
      match parts' with
      | [] => part
      | _ :: _ => part +:+ "," +:+ join_comma parts'
      end
  end.

(** The characters of a string, as iterating over it gives them. *)
Fixpoint chars (s : string) : list string :=
  match s with
  | EmptyString => []
  | String c s' => String c EmptyString :: chars s'
  end.

(** The validators return the error message and the parameters as they
    leave them. *)
Definition validate_compare_method (p : Params) : string * Params :=
  if is_empty (p_compare_method p) then
    ("compare_method is empty, provide a valid compare_method", p)
  else
    let compare_method := lower (default "" (p_compare_method p)) in
    let p := set_compare_method (Some compare_method) p in
    if bool_decide (compare_method ∉ VALID_COMPARE_METHODS) then
      (join_comma (chars compare_method)
       +:+ " is not supported as compare method, valid methods are "
       +:+ join_comma VALID_COMPARE_METHODS, p)
    else ("", p).

Definition validate_search_mode (p : Params) : string * Params :=
  if is_empty (p_search_mode p) then
    ("search_mode is empty, provide a valid search_mode", p)
  else
    let search_mode := lower (default "" (p_search_mode p)) in
    let p := set_search_mode (Some search_mode) p in
    let search_start :=
      if negb (is_empty (p_search_start p))
      then default "" (p_search_start p) else "" in
    if bool_decide (search_mode ∉ VALID_SEARCH_MODES) then
      (join_comma (chars search_mode)
       +:+ " is not supported as search mode, valid modes are "
       +:+ join_comma VALID_SEARCH_MODES, p)
    else if negb (String.eqb search_mode SEARCH_MODE_GLOBAL)
            && String.eqb search_start "" then
      ("search_start is empty, you must provide a search_start for the modes: line, block and block_lines",
       p)
    else ("", p).

Definition validate_compare_args (p : Params) : string * Params :=
  match p_compare_args p with
  | None => ("", set_compare_args (Some []) p)
  | Some compare_args =>
      let compare_args := lower <$> compare_args in
      let p := set_compare_args (Some compare_args) p in
      let invalid_args :=
        filter (λ arg, arg ∉ VALID_COMPARE_ARGS) compare_args in
      if negb (bool_decide (invalid_args = [])) then
        (join_comma invalid_args
         +:+ " are not supported as compare arguments, valid arguments are "
         +:+ join_comma VALID_COMPARE_ARGS, p)
      else ("", p)
  end.

Definition validate_input (p : Params) : string * Params :=
  if is_empty (p_source p) then
    ("source is empty, provide a valid source", p)
  else if is_empty (p_destination_expected p) then
    ("destination_expected is empty, provide a valid destination_expected",
     p)
  else if is_empty (p_destination_not_expected p) then
    ("destination_not_expected is empty, provide a valid destination_not_expected",
     p)
  else if is_empty (p_template p) then
    ("template is empty, provide a valid template", p)
  else
    let '(error, p) := validate_compare_method p in
    if negb (String.eqb error "") then (error, p)
    else
      let '(error, p) := validate_search_mode p in
      if negb (String.eqb error "") then (error, p)
      else
        let '(error, p) := validate_compare_args p in
        if negb (String.eqb error "") then (error, p)
        else
          let p := match p_search_end p with
                   | None => set_search_end (Some "") p
                   | Some _ => p
                   end in
          let p := match p_template_args p with
                   | None => set_template_args (Some []) p
                   | Some _ => p
                   end in
          let p := match p_ignore_lines p with
                   | None => set_ignore_lines (Some []) p
                   | Some _ => p
                   end in
          ("", p).

(** *** Configuration files *)

(** The carriage return, ["\r"]. *)
Definition CR : string := String (ascii_of_nat 13) EmptyString.

(** [s.splitlines()] on a byte string: a line ends at a line feed, at a
    carriage return or at the two in this order, and the text after the
    last line end is a line when it is not empty. *)
Fixpoint splitlines (s : string) : list string :=
  match s with
  | EmptyString => []
  | String c s' =>
      if Ascii.eqb c (ascii_of_nat 10) then EmptyString :: splitlines s'
      else if Ascii.eqb c (ascii_of_nat 13) then
        match s' with
        | String c' s'' =>
            if Ascii.eqb c' (ascii_of_nat 10)
            then EmptyString :: splitlines s''
            else EmptyString :: splitlines s'
        | EmptyString => [EmptyString]
        end
      else match splitlines s' with
           | line :: lines => String c line :: lines
           | [] => [String c EmptyString]
           end
  end.

(** The files by path, with their text; [None] where there is no
    file. *)
Definition files : Type := string → option string.

(** [load_config]; [None] is the IOError for a file that is not
    there. *)
Definition load_config (config_path : string) (fs : files)
  : option (list string) :=
  splitlines <$> fs config_path.

(** [write_remaining_config], for a file that can be written: the file
    is opened anew and gets ["\n{}".format(line)] for every line. *)
Definition write_remaining_config (config_path : string)
    (remaining_config : list string) (fs : files) : files :=
  match remaining_config with
  | [] => fs
  | _ :: _ =>
      let text :=
        foldl (λ text line, text +:+ (LF +:+ line)) "" remaining_config in
      λ path, if String.eqb path config_path then Some text else fs path
  end.

(** *** The banner of a result file *)

(** ["!" * width] *)
Fixpoint bangs (width : nat) : string :=
  match width with
  | 0 => EmptyString
  | S width' => String "!" (bangs width')
  end.

Definition bordered (text : string) : string :=
  let width := String.length text + 4 in
  let result := [bangs width] in
  let result := result ++ ["!" +:+ (" " +:+ text +:+ " ") +:+ "!"] in
  let result := result ++ [bangs width] in
  join_lf result.

(** A literal engine for examples: a pattern is its own text, [match] is
    "the line starts with the text" and [search] is "the text occurs in
    the line", as [re] does for a pattern without special characters. *)
Fixpoint occurs_in (p s : string) : bool :=
  String.prefix p s
  || match s with EmptyString => false | String _ s' => occurs_in p s' end.

Definition lit_compile (p : string) : res string := Ok p.
Definition lit_match (p line : string) : bool := String.prefix p line.
Definition lit_search (p line : string) : bool := occurs_in p line.
(** A hash without collisions: the string read as a number in base 257. *)
Fixpoint digits_hash (s : string) : Z :=
  match s with
  | EmptyString => 0
  | String c s' => Z.of_nat (nat_of_ascii c) + 1 + 257 * digits_hash s'
  end%Z.

(** ** Notions used by the properties *)

(** [l.count(x)] *)
Definition occurrences (x : string) (l : list string) : nat :=
  length (filter (x =.) l).

(** [s[1:]] *)
Definition str_tail (s : string) : string :=
  match s with EmptyString => EmptyString | String _ s' => s' end.

(** The cell [d[i][j]] when it exists. *)
Definition cell (d : matrix) (i j : nat) : option nat :=
  row ← d !! i; row !! j.

(** The table while column [j] is being filled and its rows below [i]
    are done: row 0, the columns before [j] and the filled part of
    column [j] hold the distances between the prefixes of the two
    strings without their first characters. *)
Definition table_upto (s t : string) (j i : nat) (d : matrix) : Prop :=
  (length d = String.length s
   ∧ Forall (λ row, length row = String.length t) d)
  ∧ ∀ i' j', i' < String.length s → j' < String.length t →
      (i' = 0 ∨ j' < j ∨ (j' = j ∧ i' < i)) →
      cell d i' j' = Some (lev_prefix (str_tail s) (str_tail t) i' j').

(** The matrix keeps [n] rows of [m] cells. *)
Definition dims (n m : nat) (d : matrix) : Prop :=
  length d = n ∧ Forall (λ row, length row = m) d.

(** The loop of the strict check, read over the pairs
    [(lines[i], template_lines[i])] still to visit. *)
Fixpoint strict_pairs (lines template_lines : list string)
    (todo : list (string * string))
    (remaining_lines remaining_template_lines : list string)
  : res (list string * list string) :=
  match todo with
  | [] => Ok (remaining_lines, remaining_template_lines)
  | (line, template_line) :: todo' =>
      if String.eqb line template_line then
        remaining_lines ← list_remove line remaining_lines;
        remaining_template_lines ← list_remove line remaining_template_lines;
        strict_pairs lines template_lines todo'
          remaining_lines remaining_template_lines
      else
        diff ← levenshtein line template_line;
        if decide (EDIT_DISTANCE_THRESHOLD < diff) then
          Ok (lines, template_lines)
        else
          strict_pairs lines template_lines todo'
            remaining_lines remaining_template_lines
  end.

(** The lines [Block.get_content(add_start, add_end)] returns for a
    block whose content list holds [content]. *)
Definition fragment_lines (block : Block) (content : list string)
    (add_start add_end : bool) : list string :=
  let block_content :=
    if add_start then b_start block :: content else content in
  match add_end, b_end block with
  | true, Some e =>
      if String.eqb e "" then block_content else block_content ++ [e]
  | _, _ => block_content
  end.

(** What [block_check_equal] computes on a block that has content,
    as a function of the values of the lists it reads: [F] are the
    fragment lines and [T] the template lines. *)
Definition present_block_residues {regex : Type}
    (re_compile : string → res regex) (re_search : regex → string → bool)
    (py_hash : string → Z) (start : string) (F T : list string)
    (strict_mode : bool) (ignore_lines : list string)
  : res (list string * list string) :=
  if is_hash_equal py_hash F T strict_mode then Ok ([], [])
  else
    match filter_ignore_lines re_compile re_search F T ignore_lines with
    | Ok (bl, tl) =>
        match (if strict_mode then block_strict_check bl tl
               else block_normal_check bl tl) with
        | Ok (rb, rt) => Ok (tag start <$> rb, tag start <$> rt)
        | Raise e => Raise e
        end
    | Raise e => Raise e
    end.

(** The lines that follow a sentinel line, as [extract_additional_lines]
    collects them: each one stripped, up to and including the first whose
    stripped form ends with [search_until], or all of them when there is
    none. *)
Fixpoint continuation (search_until : string) (rest : list string)
  : list string :=
  match rest with
  | [] => []
  | line :: rest' =>
      if endswith (strip line) search_until then [strip line]
      else strip line :: continuation search_until rest'
  end.

(** [l] without the entries whose position, counted from [k], is in
    [positions]. *)
Fixpoint keep_from {A : Type} (k : nat) (positions : list nat) (l : list A)
  : list A :=
  match l with
  | [] => []
  | x :: l' =>
      if decide (k ∈ positions) then keep_from (S k) positions l'
      else x :: keep_from (S k) positions l'
  end.

Definition remove_positions {A : Type} (positions : list nat) (l : list A)
  : list A :=
  keep_from 0 positions l.

(** Whether the scan of [extract_lines] takes the line at a position:
    the start pattern matches it and it does not open an indented
    block. *)
Definition qualifies {regex : Type} (re_match : regex → string → bool)
    (config_lines : list string) (r : regex) (it : nat * string) : bool :=
  re_match r it.2
  && negb (is_block_start it.2 (config_lines !! (it.1 + 1))).

(** The longest run of lines at the head of [rest] that start with
    [p]. *)
Fixpoint leading_run (p : string) (rest : list string) : list string :=
  match rest with
  | [] => []
  | line :: rest' =>
      if startswith line p then line :: leading_run p rest' else []
  end.

(** The lines of an indented body at the head of [rest]: the run of
    lines that start with [p], and the line after the run when its
    stripped form starts with an exclamation mark. *)
Definition indented_body (p : string) (rest : list string) : list string :=
  leading_run p rest
  ++ match rest !! length (leading_run p rest) with
     | Some line => if startswith (strip line) "!" then [line] else []
     | None => []
     end.

(** The body block-line extraction takes after a header line: the
    indented body when the next line starts with a blank. *)
Definition block_body (rest : list string) : list string :=
  match rest with
  | next_line :: _ =>
      if startswith next_line " " then indented_body " " rest else []
  | [] => []
  end.

(** A command with ["no "] in front unless it is there already. *)
Definition negated (line : string) : string :=
  if startswith line "no " then line else "no " +:+ line.

(** A text with no line end in it. *)
Definition one_line (line : string) : Prop :=
  occurs_in LF line = false ∧ occurs_in CR line = false.

(** * Properties *)

(** ** The error monad and the builtins *)

Lemma res_bind_ok {A B : Type} (m : res A) (f : A → res B) (b : B) :
  m ≫= f = Ok b ↔ ∃ a, m = Ok a ∧ f a = Ok b.
Proof.
  destruct m as [a|e]; simpl; split.
  - intros H. by exists a.
  - by intros (a' & [= ->] & H).
  - done.
  - by intros (a' & [=] & _).
Qed.

Lemma res_fmap_ok {A B : Type} (m : res A) (f : A → B) (b : B) :
  f <$> m = Ok b ↔ ∃ a, m = Ok a ∧ b = f a.
Proof.
  destruct m as [a|e]; simpl; split.
  - intros [= <-]. by exists a.
  - by intros (a' & [= ->] & ->).
  - done.
  - by intros (a' & [=] & _).
Qed.

(** A loop whose body keeps an invariant and never raises under it
    runs to its end and keeps the invariant. *)
Lemma for_each_inv {A S : Type} (P : S → Prop) (xs : list A)
    (body : A → S → res S) (s : S) :
  (∀ x s, x ∈ xs → P s → ∃ s', body x s = Ok s' ∧ P s') →
  P s →
  ∃ s', for_each xs body s = Ok s' ∧ P s'.
Proof.
  revert s. induction xs as [|x xs IH]; intros s Hbody Hs; simpl.
  - by exists s.
  - destruct (Hbody x s) as (s1 & -> & Hs1); [by left | done |]. simpl.
    apply IH; [|done]. intros y s2 Hy. apply Hbody. by right.
Qed.

Lemma getitem_ok {A : Type} (l : list A) (i : nat) (x : A) :
  getitem l i = Ok x ↔ l !! i = Some x.
Proof. unfold getitem. destruct (l !! i); naive_solver. Qed.

Lemma getitem_lt {A : Type} (l : list A) (i : nat) :
  i < length l → ∃ x, getitem l i = Ok x ∧ l !! i = Some x.
Proof.
  intros [x Hx]%lookup_lt_is_Some_2. exists x. by rewrite getitem_ok.
Qed.

Lemma getitem_ge {A : Type} (l : list A) (i : nat) :
  length l ≤ i → getitem l i = Raise IndexError.
Proof. intros H. unfold getitem. by rewrite lookup_ge_None_2. Qed.

Lemma string_eqb_true (x y : string) : String.eqb x y = true ↔ x = y.
Proof. apply String.eqb_eq. Qed.

Lemma string_eqb_false (x y : string) : String.eqb x y = false ↔ x ≠ y.
Proof. apply String.eqb_neq. Qed.

(** [l.remove(x)] succeeds exactly when [x] is in [l], and takes one
    occurrence of [x] out. *)
Lemma list_remove_ok (x : string) (l l' : list string) :
  list_remove x l = Ok l' → l ≡ₚ x :: l'.
Proof.
  revert l'. induction l as [|y l IH]; intros l'; simpl; [done|].
  destruct (String.eqb y x) eqn:E.
  - apply string_eqb_true in E as ->. by intros [= ->].
  - intros (l1 & H1 & ->)%res_fmap_ok. rewrite (IH _ H1). apply Permutation_swap.
Qed.

Lemma list_remove_elem_of (x : string) (l : list string) :
  x ∈ l → ∃ l', list_remove x l = Ok l'.
Proof.
  induction l as [|y l IH]; [by intros ?%elem_of_nil|].
  intros Hx. simpl. destruct (String.eqb y x) eqn:E; [by eexists|].
  apply string_eqb_false in E.
  apply elem_of_cons in Hx as [->|Hx]; [done|].
  destruct (IH Hx) as [l' ->]. by eexists.
Qed.

Lemma list_remove_not_elem_of (x : string) (l : list string) :
  x ∉ l → list_remove x l = Raise ValueError.
Proof.
  induction l as [|y l IH]; [done|]. intros Hx. simpl.
  apply not_elem_of_cons in Hx as [Hne Hx].
  destruct (String.eqb y x) eqn:E.
  - by apply string_eqb_true in E.
  - by rewrite IH.
Qed.

Lemma list_remove_head (x : string) (l : list string) :
  list_remove x (x :: l) = Ok l.
Proof. simpl. by rewrite String.eqb_refl. Qed.

Lemma list_remove_sublist (x : string) (l l' : list string) :
  list_remove x l = Ok l' → l' `sublist_of` l.
Proof.
  revert l'. induction l as [|y l IH]; intros l'; simpl; [done|].
  destruct (String.eqb y x).
  - intros [= ->]. by apply sublist_cons.
  - intros (l1 & H1 & ->)%res_fmap_ok. apply sublist_skip. by apply IH.
Qed.

Lemma elem_of_range (lo hi x : nat) : x ∈ range lo hi ↔ lo ≤ x < hi.
Proof. unfold range. rewrite elem_of_seq. lia. Qed.

(** ** levenshtein returns *)

Lemma dims_replicate (n m : nat) : dims n m (replicate n (replicate m 0)).
Proof.
  split; [by rewrite length_replicate|].
  apply Forall_replicate. by rewrite length_replicate.
Qed.

Lemma m_get_ok (n m : nat) (d : matrix) (i j : nat) :
  dims n m d → i < n → j < m → ∃ v, m_get d i j = Ok v.
Proof.
  intros [Hn Hm] Hi Hj. unfold m_get.
  destruct (getitem_lt d i) as (row & -> & Hrow); [lia|]. simpl.
  rewrite Forall_lookup in Hm. specialize (Hm _ _ Hrow). simpl in Hm.
  destruct (getitem_lt row j) as (v & -> & _); [lia|]. by exists v.
Qed.

Lemma m_set_ok (n m : nat) (d : matrix) (i j v : nat) :
  dims n m d → i < n → j < m → ∃ d', m_set d i j v = Ok d' ∧ dims n m d'.
Proof.
  intros [Hn Hm] Hi Hj. unfold m_set.
  destruct (getitem_lt d i) as (row & -> & Hrow); [lia|]. simpl.
  assert (length row = m) as Hlen.
  { rewrite Forall_lookup in Hm. apply (Hm _ _ Hrow). }
  rewrite decide_True by lia. eexists; split; [done|]. split.
  - by rewrite length_insert.
  - apply Forall_insert; [done|]. simpl. by rewrite length_insert.
Qed.

Lemma str_get_lt (s : string) (i : nat) :
  i < String.length s → ∃ c, str_get s i = Ok c.
Proof.
  revert i. induction s as [|a s IH]; intros i Hi; simpl in Hi; [lia|].
  unfold str_get. destruct i as [|i]; simpl; [by eexists|].
  apply (IH i). lia.
Qed.

Lemma levenshtein_cell_ok (s t : string) (j i : nat) (d : matrix) :
  dims (String.length s) (String.length t) d →
  1 ≤ i < String.length s → 1 ≤ j < String.length t →
  ∃ d', levenshtein_cell s t j i d = Ok d'
        ∧ dims (String.length s) (String.length t) d'.
Proof.
  intros Hd Hi Hj. unfold levenshtein_cell.
  destruct (str_get_lt s i) as [si ->]; [lia|].
  destruct (str_get_lt t j) as [tj ->]; [lia|]. simpl.
  destruct (m_get_ok _ _ d (i - 1) j Hd) as [a ->]; [lia..|].
  destruct (m_get_ok _ _ d i (j - 1) Hd) as [b ->]; [lia..|].
  destruct (m_get_ok _ _ d (i - 1) (j - 1) Hd) as [c ->]; [lia..|]. simpl.
  apply m_set_ok; [done|lia..].
Qed.

Lemma levenshtein_refl (s : string) : levenshtein s s = Ok 0.
Proof. unfold levenshtein. by rewrite String.eqb_refl. Qed.

(** Every subscript of [levenshtein] is in range: it always returns. *)
Lemma levenshtein_total (s t : string) : ∃ n, levenshtein s t = Ok n.
Proof.
  unfold levenshtein.
  destruct (String.eqb s t); [by eexists|].
  destruct (String.length s =? 0) eqn:Hs; [by eexists|].
  destruct (String.length t =? 0) eqn:Ht; [by eexists|].
  apply Nat.eqb_neq in Hs, Ht.
  set (n := String.length s) in *. set (m := String.length t) in *.
  destruct (for_each_inv (dims n m) (range 1 n) (λ i d, m_set d i 0 i)
              (replicate n (replicate m 0))) as (d1 & -> & Hd1).
  { intros i d Hi%elem_of_range Hd. apply m_set_ok; [done|lia..]. }
  { apply dims_replicate. }
  simpl.
  destruct (for_each_inv (dims n m) (range 1 m) (λ j d, m_set d 0 j j) d1)
    as (d2 & -> & Hd2); [|done|].
  { intros j d Hj%elem_of_range Hd. apply m_set_ok; [done|lia..]. }
  simpl.
  destruct (for_each_inv (dims n m) (range 1 m)
              (λ j d, for_each (range 1 n) (levenshtein_cell s t j) d) d2)
    as (d3 & -> & Hd3); [|done|].
  { intros j d Hj%elem_of_range Hd. apply for_each_inv; [|done].
    intros i d' Hi%elem_of_range Hd'. by apply levenshtein_cell_ok. }
  simpl. apply (m_get_ok n m); [done|lia..].
Qed.

(** ** What levenshtein computes *)

Lemma lev_prefix_0_r (s t : string) (i : nat) : lev_prefix s t i 0 = i.
Proof. by destruct i. Qed.

Lemma lev_prefix_S (s t : string) (i j : nat) :
  lev_prefix s t (S i) (S j)
  = Nat.min (lev_prefix s t i (S j) + 1)
      (Nat.min (lev_prefix s t (S i) j + 1)
         (lev_prefix s t i j
          + (if decide (String.get i s = String.get j t) then 0 else 1))).
Proof. reflexivity. Qed.

Lemma m_get_cell (d : matrix) (i j v : nat) :
  cell d i j = Some v → m_get d i j = Ok v.
Proof.
  unfold cell, m_get, getitem. destruct (d !! i) as [row|]; simpl; [|done].
  by intros ->.
Qed.

Lemma m_set_cell (d d' : matrix) (i j v : nat) :
  m_set d i j v = Ok d' →
  cell d' i j = Some v
  ∧ ∀ i' j', (i' ≠ i ∨ j' ≠ j) → cell d' i' j' = cell d i' j'.
Proof.
  unfold m_set, getitem, cell.
  destruct (d !! i) as [row|] eqn:Hrow; simpl; [|done].
  case_decide as Hj; [|done]. intros [= <-].
  pose proof (lookup_lt_Some _ _ _ Hrow) as Hi. split.
  - rewrite list_lookup_insert_eq by done. simpl.
    by rewrite list_lookup_insert_eq.
  - intros i' j' Hne. destruct (decide (i' = i)) as [->|Hi'].
    + rewrite list_lookup_insert_eq by done. rewrite Hrow. simpl.
      rewrite list_lookup_insert_ne; [done|]. destruct Hne; congruence.
    + by rewrite list_lookup_insert_ne.
Qed.

Lemma cell_replicate (n m i j : nat) :
  i < n → j < m → cell (replicate n (replicate m 0)) i j = Some 0.
Proof.
  intros Hi Hj. unfold cell. rewrite lookup_replicate_2 by done. simpl.
  by rewrite lookup_replicate_2.
Qed.

Lemma str_get_ok (s : string) (i : nat) (c : ascii) :
  str_get s i = Ok c ↔ String.get i s = Some c.
Proof. unfold str_get. destruct (String.get i s); naive_solver. Qed.

(** A counting loop that carries an invariant indexed by the counter. *)
Lemma for_range_inv {St : Type} (P : nat → St → Prop) (k lo : nat)
    (body : nat → St → res St) (s : St) :
  P lo s →
  (∀ i s, lo ≤ i < lo + k → P i s → ∃ s', body i s = Ok s' ∧ P (i + 1) s') →
  ∃ s', for_each (seq lo k) body s = Ok s' ∧ P (lo + k) s'.
Proof.
  revert lo s. induction k as [|k IH]; intros lo s Hs Hbody; simpl.
  - rewrite Nat.add_0_r. by exists s.
  - destruct (Hbody lo s) as (s1 & -> & Hs1); [lia|done|]. simpl.
    replace (lo + S k) with (S lo + k) by lia.
    apply IH; [by replace (S lo) with (lo + 1) by lia|].
    intros i s2 Hi. apply Hbody. lia.
Qed.

(** One cell: the three neighbours are in the filled part, and the
    value written follows the recurrence on the strings without their
    first characters, because [s[i]] is character [i - 1] of [s[1:]]. *)
Lemma levenshtein_cell_table (s t : string) (j i : nat) (d : matrix) :
  1 ≤ i < String.length s → 1 ≤ j < String.length t →
  table_upto s t j i d →
  ∃ d', levenshtein_cell s t j i d = Ok d' ∧ table_upto s t j (i + 1) d'.
Proof.
  intros Hi Hj [Hd Hcells]. unfold levenshtein_cell.
  destruct (str_get_lt s i) as [si Hsi]; [lia|].
  destruct (str_get_lt t j) as [tj Htj]; [lia|].
  rewrite Hsi, Htj. cbn [mbind res_bind].
  rewrite (m_get_cell _ _ _ _
             (Hcells (i - 1) j ltac:(lia) ltac:(lia) ltac:(lia))).
  rewrite (m_get_cell _ _ _ _
             (Hcells i (j - 1) ltac:(lia) ltac:(lia) ltac:(lia))).
  rewrite (m_get_cell _ _ _ _
             (Hcells (i - 1) (j - 1) ltac:(lia) ltac:(lia) ltac:(lia))).
  cbn [mbind res_bind].
  set (v := Nat.min _ _).
  destruct (m_set_ok _ _ d i j v Hd) as (d' & Hset & Hd'); [lia..|].
  exists d'. split; [done|]. split; [done|].
  apply m_set_cell in Hset as [Hnew Hold].
  intros i' j' Hi' Hj' Hcov.
  destruct (decide (i' = i ∧ j' = j)) as [[-> ->]|Hne].
  - rewrite Hnew. f_equal. subst v.
    destruct i as [|i0]; [lia|]. destruct j as [|j0]; [lia|].
    rewrite lev_prefix_S.
    replace (S i0 - 1) with i0 by lia. replace (S j0 - 1) with j0 by lia.
    apply str_get_ok in Hsi, Htj.
    destruct s as [|a s']; [simpl in Hi; lia|].
    destruct t as [|b t']; [simpl in Hj; lia|].
    simpl in Hsi, Htj. simpl. rewrite Hsi, Htj.
    destruct (Ascii.eqb si tj) eqn:E.
    + apply Ascii.eqb_eq in E as ->. by rewrite decide_True.
    + apply Ascii.eqb_neq in E. rewrite decide_False; [done|congruence].
  - rewrite Hold by lia.
    apply Hcells; [done..|]. lia.
Qed.

Lemma levenshtein_column_table (s t : string) (j : nat) (d : matrix) :
  1 ≤ j < String.length t → table_upto s t j 1 d →
  ∃ d', for_each (range 1 (String.length s)) (levenshtein_cell s t j) d
        = Ok d'
        ∧ table_upto s t (j + 1) 1 d'.
Proof.
  intros Hj Hd.
  destruct (for_range_inv (table_upto s t j) (String.length s - 1) 1
              (levenshtein_cell s t j) d Hd) as (d' & Hrun & [Hd' Hcells]).
  { intros i d0 Hi. apply levenshtein_cell_table; [lia|done]. }
  exists d'. split; [done|]. split; [done|].
  intros i' j' Hi' Hj' Hcov. apply Hcells; [done..|]. lia.
Qed.

(** [levenshtein] on two different, non-empty strings is the edit
    distance of the two strings without their first characters. *)
Lemma levenshtein_drops_first_chars (s t : string) :
  s ≠ t → s ≠ "" → t ≠ "" →
  levenshtein s t = Ok (edit_distance (str_tail s) (str_tail t)).
Proof.
  intros Hst Hs Ht. unfold levenshtein, edit_distance.
  apply String.eqb_neq in Hst as ->.
  assert (String.length (str_tail s) = String.length s - 1) as ->.
  { destruct s; simpl; lia. }
  assert (String.length (str_tail t) = String.length t - 1) as ->.
  { destruct t; simpl; lia. }
  assert (1 ≤ String.length s) as Hn by (destruct s; [done|simpl; lia]).
  assert (1 ≤ String.length t) as Hm by (destruct t; [done|simpl; lia]).
  clear Hs Ht.
  destruct (String.length s =? 0) eqn:E; [apply Nat.eqb_eq in E; lia|].
  clear E.
  destruct (String.length t =? 0) eqn:E; [apply Nat.eqb_eq in E; lia|].
  clear E.
  set (n := String.length s) in *. set (m := String.length t) in *.
  destruct (for_range_inv
              (λ i d, dims n m d
                      ∧ ∀ i' j', i' < n → j' < m →
                          cell d i' j'
                          = Some (if decide (j' = 0 ∧ i' < i) then i' else 0))
              (n - 1) 1 (λ i d, m_set d i 0 i)
              (replicate n (replicate m 0)))
    as (d1 & Hrun1 & Hd1 & H1).
  { split; [apply dims_replicate|]. intros i' j' Hi' Hj'.
    rewrite cell_replicate by done. case_decide; [f_equal; lia|done]. }
  { intros i d Hi [Hd Hcells].
    destruct (m_set_ok n m d i 0 i Hd) as (d' & Hset & Hd'); [lia..|].
    exists d'. split; [done|]. split; [done|].
    apply m_set_cell in Hset as [Hnew Hold]. intros i' j' Hi' Hj'.
    destruct (decide (i' = i ∧ j' = 0)) as [[-> ->]|Hne].
    - rewrite Hnew. by rewrite decide_True by lia.
    - rewrite Hold by lia.
      rewrite Hcells by done.
      repeat case_decide; try done; lia. }
  unfold range. rewrite Hrun1. cbn [mbind res_bind].
  destruct (for_range_inv
              (λ j d, dims n m d
                      ∧ ∀ i' j', i' < n → j' < m →
                          cell d i' j'
                          = Some (if decide (j' = 0) then i'
                                  else if decide (i' = 0 ∧ j' < j) then j'
                                       else 0))
              (m - 1) 1 (λ j d, m_set d 0 j j) d1)
    as (d2 & Hrun2 & Hd2 & H2).
  { split; [done|]. intros i' j' Hi' Hj'. rewrite H1 by done.
    repeat case_decide; try done; lia. }
  { intros j d Hj [Hd Hcells].
    destruct (m_set_ok n m d 0 j j Hd) as (d' & Hset & Hd'); [lia..|].
    exists d'. split; [done|]. split; [done|].
    apply m_set_cell in Hset as [Hnew Hold]. intros i' j' Hi' Hj'.
    destruct (decide (i' = 0 ∧ j' = j)) as [[-> ->]|Hne].
    - rewrite Hnew. rewrite decide_False by lia. by rewrite decide_True by lia.
    - rewrite Hold by lia.
      rewrite Hcells by done.
      repeat case_decide; try done; lia. }
  rewrite Hrun2. cbn [mbind res_bind].
  destruct (for_range_inv (λ j d, table_upto s t j 1 d) (m - 1) 1
              (λ j d, for_each (seq 1 (n - 1)) (levenshtein_cell s t j) d) d2)
    as (d3 & Hrun3 & Hd3 & H3).
  { split; [done|]. intros i' j' Hi' Hj' Hcov. fold n in Hi'. fold m in Hj'.
    rewrite H2 by done. f_equal.
    destruct (decide (j' = 0)) as [->|].
    - by rewrite lev_prefix_0_r.
    - assert (i' = 0) as -> by lia. rewrite decide_True by lia. done. }
  { intros j d Hj Hd. apply levenshtein_column_table; [fold m; lia|done]. }
  rewrite Hrun3. cbn [mbind res_bind].
  apply m_get_cell, H3; fold n m; lia.
Qed.

Lemma lev_prefix_diag (s : string) (i : nat) : lev_prefix s s i i = 0.
Proof.
  induction i as [|i IH]; [done|].
  rewrite lev_prefix_S, IH, decide_True by done. simpl.
  by rewrite !Nat.min_0_r.
Qed.

(** Two strings that differ in their first character only are at
    computed distance 0. *)
Lemma levenshtein_first_char_only (a b : ascii) (s : string) :
  a ≠ b → levenshtein (String a s) (String b s) = Ok 0.
Proof.
  intros Hab. rewrite levenshtein_drops_first_chars by congruence.
  simpl. unfold edit_distance. by rewrite lev_prefix_diag.
Qed.

(** ** Strict-order comparison *)

Lemma block_strict_check_eq : block_strict_check = line_strict_check.
Proof. reflexivity. Qed.

Lemma block_normal_check_eq : block_normal_check = line_normal_check.
Proof. reflexivity. Qed.

Lemma drop_lookup_cons {A : Type} (l : list A) (i : nat) (x : A) :
  l !! i = Some x → drop i l = x :: drop (S i) l.
Proof.
  revert i. induction l as [|y l IH]; intros [|i] H; simplify_eq/=; [done|].
  by apply IH.
Qed.

Lemma strict_loop_pairs (L T : list string) (k i : nat) (rl rt : list string) :
  length L = length T → i + k = length L →
  strict_loop L T (seq i k) rl rt
  = strict_pairs L T (zip (drop i L) (drop i T)) rl rt.
Proof.
  intros HLT. revert i rl rt. induction k as [|k IH]; intros i rl rt Hik.
  - rewrite drop_ge by lia. done.
  - destruct (getitem_lt L i) as (x & Hx & Hx'); [lia|].
    destruct (getitem_lt T i) as (y & Hy & Hy'); [lia|].
    rewrite (drop_lookup_cons L i x), (drop_lookup_cons T i y) by done.
    simpl. rewrite Hx, Hy. simpl.
    destruct (String.eqb x y).
    + destruct (list_remove x rl) as [rl'|]; [|done]. simpl.
      destruct (list_remove x rt) as [rt'|]; [|done]. simpl.
      apply IH. lia.
    + destruct (levenshtein x y) as [d|]; [|done]. simpl.
      case_decide; [done|]. apply IH. lia.
Qed.

Lemma line_strict_check_pairs (L T : list string) :
  length L = length T →
  line_strict_check L T = strict_pairs L T (zip L T) L T.
Proof.
  intros H. unfold line_strict_check. rewrite decide_True by done.
  unfold range. rewrite Nat.sub_0_r.
  by rewrite strict_loop_pairs by (done || lia).
Qed.

(** Identical leading pairs take their own entries out of the residues. *)
Lemma strict_pairs_identical_prefix (L T l : list string)
    (todo : list (string * string)) (r1 r2 : list string) :
  strict_pairs L T (zip l l ++ todo) (l ++ r1) (l ++ r2)
  = strict_pairs L T todo r1 r2.
Proof.
  induction l as [|x l IH]; [done|]. simpl.
  by rewrite !String.eqb_refl.
Qed.

(** Identical pairs met later take out one occurrence each. *)
Lemma strict_pairs_identical_perm (L T l : list string) :
  ∀ rl rt u v : list string,
  rl ≡ₚ u ++ l → rt ≡ₚ v ++ l →
  ∃ rl' rt', strict_pairs L T (zip l l) rl rt = Ok (rl', rt')
             ∧ rl' ≡ₚ u ∧ rt' ≡ₚ v.
Proof.
  induction l as [|x l IH]; intros rl rt u v Hrl Hrt.
  - rewrite app_nil_r in Hrl, Hrt. by exists rl, rt.
  - simpl. rewrite String.eqb_refl.
    destruct (list_remove_elem_of x rl) as [rl' Hrl'].
    { rewrite Hrl, elem_of_app, elem_of_cons. auto. }
    destruct (list_remove_elem_of x rt) as [rt' Hrt'].
    { rewrite Hrt, elem_of_app, elem_of_cons. auto. }
    rewrite Hrl', Hrt'. simpl. apply IH.
    + apply list_remove_ok in Hrl'. rewrite Hrl' in Hrl.
      rewrite <-Permutation_middle in Hrl. by apply Permutation_cons_inv in Hrl.
    + apply list_remove_ok in Hrt'. rewrite Hrt' in Hrt.
      rewrite <-Permutation_middle in Hrt. by apply Permutation_cons_inv in Hrt.
Qed.

(** A pair beyond the threshold, wherever it stands, is reached and
    abandons the comparison. *)
Lemma strict_pairs_gate (L T : list string) (todo : list (string * string)) :
  ∀ rl rt u v : list string,
  rl ≡ₚ u ++ todo.*1 → rt ≡ₚ v ++ todo.*2 →
  (∃ a b d, (a, b) ∈ todo ∧ levenshtein a b = Ok d
            ∧ EDIT_DISTANCE_THRESHOLD < d) →
  strict_pairs L T todo rl rt = Ok (L, T).
Proof.
  induction todo as [|[x y] todo IH]; intros rl rt u v Hrl Hrt Hbad.
  { destruct Hbad as (a & b & d & []%elem_of_nil & _). }
  simpl in *. destruct (String.eqb x y) eqn:E.
  - apply string_eqb_true in E as <-.
    destruct (list_remove_elem_of x rl) as [rl' Hrl'].
    { rewrite Hrl, elem_of_app, elem_of_cons. auto. }
    destruct (list_remove_elem_of x rt) as [rt' Hrt'].
    { rewrite Hrt, elem_of_app, elem_of_cons. auto. }
    rewrite Hrl', Hrt'. simpl. apply (IH _ _ u v).
    + apply list_remove_ok in Hrl'. rewrite Hrl' in Hrl.
      rewrite <-Permutation_middle in Hrl. by apply Permutation_cons_inv in Hrl.
    + apply list_remove_ok in Hrt'. rewrite Hrt' in Hrt.
      rewrite <-Permutation_middle in Hrt. by apply Permutation_cons_inv in Hrt.
    + destruct Hbad as (a & b & d & [[= -> ->]|Hab]%elem_of_cons & Hd & Hgt).
      * rewrite levenshtein_refl in Hd. injection Hd as <-.
        unfold EDIT_DISTANCE_THRESHOLD in Hgt. lia.
      * by exists a, b, d.
  - destruct (levenshtein_total x y) as [d' Hd']. rewrite Hd'. simpl.
    case_decide as Hgt'; [done|].
    apply (IH _ _ (u ++ [x]) (v ++ [y])).
    + by rewrite <-app_assoc.
    + by rewrite <-app_assoc.
    + destruct Hbad as (a & b & d & [[= -> ->]|Hab]%elem_of_cons & Hd & Hgt).
      * rewrite Hd' in Hd. injection Hd as <-. lia.
      * by exists a, b, d.
Qed.

Lemma strict_check_identical (l : list string) :
  line_strict_check l l = Ok ([], []).
Proof.
  rewrite line_strict_check_pairs by done.
  pose proof (strict_pairs_identical_prefix l l l [] [] []) as H.
  by rewrite !app_nil_r in H.
Qed.

Lemma strict_check_swap (pre post : list string) (x y : string) :
  x ≠ y →
  (∃ d, levenshtein x y = Ok d ∧ d ≤ EDIT_DISTANCE_THRESHOLD) →
  (∃ d, levenshtein y x = Ok d ∧ d ≤ EDIT_DISTANCE_THRESHOLD) →
  ∃ extra missing,
    line_strict_check (pre ++ [x; y] ++ post) (pre ++ [y; x] ++ post)
    = Ok (extra, missing)
    ∧ extra ≡ₚ [x; y] ∧ missing ≡ₚ [y; x].
Proof.
  intros Hxy (d1 & Hd1 & Hle1) (d2 & Hd2 & Hle2).
  rewrite line_strict_check_pairs by (by rewrite !length_app).
  rewrite zip_with_app by done.
  rewrite strict_pairs_identical_prefix. simpl.
  apply string_eqb_false in Hxy as Hxy1. rewrite Hxy1, Hd1. simpl.
  rewrite decide_False by lia.
  assert (y ≠ x) as Hyx%string_eqb_false by done. rewrite Hyx, Hd2. simpl.
  rewrite decide_False by lia.
  apply (strict_pairs_identical_perm _ _ post _ _ [x; y] [y; x]); done.
Qed.

Lemma strict_check_gate (lines template_lines : list string) :
  length lines = length template_lines →
  (∃ i a b d, lines !! i = Some a ∧ template_lines !! i = Some b
              ∧ levenshtein a b = Ok d ∧ EDIT_DISTANCE_THRESHOLD < d) →
  line_strict_check lines template_lines = Ok (lines, template_lines).
Proof.
  intros Hlen (i & a & b & d & Ha & Hb & Hd & Hgt).
  rewrite line_strict_check_pairs by done.
  apply (strict_pairs_gate _ _ _ _ _ [] []); simpl.
  - by rewrite fst_zip by lia.
  - by rewrite snd_zip by lia.
  - exists a, b, d. split; [|done].
    apply list_elem_of_lookup. exists i. apply lookup_zip_with_Some. eauto.
Qed.

(** ** The claims on the comparison functions *)

Lemma occurrences_cons (x y : string) (l : list string) :
  occurrences x (y :: l)
  = (if decide (x = y) then 1 else 0) + occurrences x l.
Proof.
  unfold occurrences. destruct (decide (x = y)) as [->|Hne].
  - by rewrite filter_cons_True.
  - by rewrite filter_cons_False.
Qed.

Lemma occurrences_perm (x : string) (l k : list string) :
  l ≡ₚ k → occurrences x l = occurrences x k.
Proof. intros H. unfold occurrences. by rewrite H. Qed.

(** The loop of the order-insensitive comparison raises as soon as the
    lines still to visit hold a template line more often than the
    template residue does. *)
Lemma normal_loop_raises (T : list string) (x : string) :
  x ∈ T →
  ∀ todo rl rt u : list string,
  rl ≡ₚ u ++ todo →
  occurrences x rt < occurrences x todo →
  normal_loop T todo rl rt = Raise ValueError.
Proof.
  intros Hx. induction todo as [|y todo IH]; intros rl rt u Hrl Hcount.
  { unfold occurrences in Hcount. simpl in Hcount. lia. }
  simpl. rewrite occurrences_cons in Hcount.
  destruct (decide (y ∈ T)) as [Hy|Hy].
  - destruct (list_remove_elem_of y rl) as [rl' Hrl'].
    { rewrite Hrl, elem_of_app, elem_of_cons. auto. }
    rewrite Hrl'. cbn [mbind res_bind].
    apply list_remove_ok in Hrl'. rewrite Hrl' in Hrl.
    rewrite <-Permutation_middle in Hrl. apply Permutation_cons_inv in Hrl.
    destruct (decide (y ∈ rt)) as [Hrt|Hrt].
    + destruct (list_remove_elem_of y rt Hrt) as [rt' Hrt'].
      rewrite Hrt'. cbn [mbind res_bind].
      apply list_remove_ok in Hrt'.
      apply (IH rl' rt' u Hrl).
      rewrite (occurrences_perm x _ _ Hrt'), occurrences_cons in Hcount.
      lia.
    + by rewrite list_remove_not_elem_of.
  - apply (IH rl rt (u ++ [y])); [by rewrite <-app_assoc|].
    rewrite decide_False in Hcount by (by intros ->). lia.
Qed.

(** C1. The order-insensitive comparison does not return residues for
    every pair of lists: when a template line stands more often in the
    fragment than in the template, it is still found in the template
    list once the template residue has run out of it, and
    [list.remove] on the template residue raises ValueError. *)
Theorem normal_check_raises (F T : list string) (x : string) :
  x ∈ T → occurrences x T < occurrences x F →
  line_normal_check F T = Raise ValueError
  ∧ block_normal_check F T = Raise ValueError.
Proof.
  intros Hx Hcount. rewrite block_normal_check_eq.
  split; by apply (normal_loop_raises T x Hx F F T []).
Qed.

Lemma normal_check_raises_witness :
  line_normal_check ["no ip http server"; "no ip http server"]
                    ["no ip http server"]
  = Raise ValueError
  ∧ block_normal_check ["no ip http server"; "no ip http server"]
                       ["no ip http server"]
    = Raise ValueError.
Proof.
  apply (normal_check_raises _ _ "no ip http server").
  - apply elem_of_cons. by left.
  - vm_compute. lia.
Defined.

(** When the order-insensitive comparison does return, its residues
    are what the multiset reading says: together with the matched
    fragment lines they make up the fragment and the template. *)
Lemma normal_loop_ok (T todo rl rt e m : list string) :
  normal_loop T todo rl rt = Ok (e, m) →
  rl ≡ₚ e ++ filter (.∈ T) todo ∧ rt ≡ₚ m ++ filter (.∈ T) todo.
Proof.
  revert rl rt. induction todo as [|x todo IH]; intros rl rt; simpl.
  - intros [= -> ->]. by rewrite !app_nil_r.
  - case_decide as Hx.
    + intros (rl' & Hrl & (rt' & Hrt & H)%res_bind_ok)%res_bind_ok.
      apply IH in H as [H1 H2].
      apply list_remove_ok in Hrl, Hrt.
      rewrite filter_cons_True by done.
      rewrite Hrl, Hrt, H1, H2. by rewrite <-!Permutation_middle.
    + intros H. rewrite filter_cons_False by done. by apply IH.
Qed.

Lemma line_normal_check_ok (F T extra missing : list string) :
  line_normal_check F T = Ok (extra, missing) →
  F ≡ₚ extra ++ filter (.∈ T) F ∧ T ≡ₚ missing ++ filter (.∈ T) F.
Proof. apply normal_loop_ok. Qed.

(** C2. [levenshtein] is not the edit distance: the matrix has
    [len(s)] rows and [len(t)] columns, one short of the table of the
    classic algorithm, so the first characters of the two strings are
    never compared. *)
Theorem levenshtein_first_char_ignored :
  levenshtein "a" "b" = Ok 0 ∧ edit_distance "a" "b" = 1
  ∧ levenshtein "kitten" "sitting" = Ok 2
  ∧ edit_distance "kitten" "sitting" = 3.
Proof. by vm_compute. Qed.

(** C3, as amended. Strict-order comparison of two lists of equal
    length: identical lists leave both residues empty; two lists that
    differ by the swap of two adjacent, different lines within the
    threshold leave exactly those two lines in each residue; a pair
    beyond the threshold at any position makes both residues the
    complete original lists. *)
Theorem strict_check_cases
    (lines template_lines pre post : list string) (x y : string) :
  (line_strict_check lines lines = Ok ([], [])
   ∧ block_strict_check lines lines = Ok ([], []))
  ∧ (x ≠ y →
     (∃ d, levenshtein x y = Ok d ∧ d ≤ EDIT_DISTANCE_THRESHOLD) →
     (∃ d, levenshtein y x = Ok d ∧ d ≤ EDIT_DISTANCE_THRESHOLD) →
     ∃ extra missing,
       line_strict_check (pre ++ [x; y] ++ post) (pre ++ [y; x] ++ post)
       = Ok (extra, missing)
       ∧ block_strict_check (pre ++ [x; y] ++ post) (pre ++ [y; x] ++ post)
         = Ok (extra, missing)
       ∧ extra ≡ₚ [x; y] ∧ missing ≡ₚ [y; x])
  ∧ (length lines = length template_lines →
     (∃ i a b d, lines !! i = Some a ∧ template_lines !! i = Some b
                 ∧ levenshtein a b = Ok d ∧ EDIT_DISTANCE_THRESHOLD < d) →
     line_strict_check lines template_lines = Ok (lines, template_lines)
     ∧ block_strict_check lines template_lines
       = Ok (lines, template_lines)).
Proof.
  rewrite block_strict_check_eq. split; [|split].
  - split; apply strict_check_identical.
  - intros Hxy H1 H2.
    destruct (strict_check_swap pre post x y Hxy H1 H2)
      as (e & m & H & He & Hm).
    by exists e, m.
  - intros Hlen Hbad. split; by apply strict_check_gate.
Qed.

Lemma strict_check_cases_witness :
  (∃ extra missing,
     line_strict_check (["aaa new-model"] ++ ["aaa a"; "aaa b"] ++ ["aaa end"])
                       (["aaa new-model"] ++ ["aaa b"; "aaa a"] ++ ["aaa end"])
     = Ok (extra, missing)
     ∧ block_strict_check
         (["aaa new-model"] ++ ["aaa a"; "aaa b"] ++ ["aaa end"])
         (["aaa new-model"] ++ ["aaa b"; "aaa a"] ++ ["aaa end"])
       = Ok (extra, missing)
     ∧ extra ≡ₚ ["aaa a"; "aaa b"] ∧ missing ≡ₚ ["aaa b"; "aaa a"])
  ∧ line_strict_check ["aaa new-model"; "aaa a"]
                      ["aaa new-model"; "aaa authentication"]
    = Ok (["aaa new-model"; "aaa a"], ["aaa new-model"; "aaa authentication"])
  ∧ block_strict_check ["aaa new-model"; "aaa a"]
                       ["aaa new-model"; "aaa authentication"]
    = Ok (["aaa new-model"; "aaa a"], ["aaa new-model"; "aaa authentication"]).
Proof.
  destruct (strict_check_cases
              ["aaa new-model"; "aaa a"]
              ["aaa new-model"; "aaa authentication"]
              ["aaa new-model"] ["aaa end"] "aaa a" "aaa b")
    as (_ & Hswap & Hgate).
  split.
  - apply Hswap.
    + discriminate.
    + exists 1. split; [reflexivity | unfold EDIT_DISTANCE_THRESHOLD; lia].
    + exists 1. split; [reflexivity | unfold EDIT_DISTANCE_THRESHOLD; lia].
  - apply Hgate.
    + reflexivity.
    + exists 1, "aaa a", "aaa authentication", 13.
      repeat split; unfold EDIT_DISTANCE_THRESHOLD; lia.
Defined.

(** The claim C3 as stated fails on its middle case: after the swap of
    two adjacent lines one edit apart, the residues are not empty. *)
Lemma strict_check_swap_counterexample :
  levenshtein "aaa a" "aaa b" = Ok 1
  ∧ levenshtein "aaa b" "aaa a" = Ok 1
  ∧ line_strict_check ["aaa a"; "aaa b"] ["aaa b"; "aaa a"]
    = Ok (["aaa a"; "aaa b"], ["aaa b"; "aaa a"])
  ∧ line_strict_check ["aaa a"; "aaa b"] ["aaa b"; "aaa a"] ≠ Ok ([], [])
  ∧ block_strict_check ["aaa a"; "aaa b"] ["aaa b"; "aaa a"] ≠ Ok ([], []).
Proof. repeat split; try reflexivity; by vm_compute. Qed.

(** C4. Lists of different lengths come back whole and unchanged. *)
Theorem strict_check_length_mismatch (lines template_lines : list string) :
  length lines ≠ length template_lines →
  line_strict_check lines template_lines = Ok (lines, template_lines)
  ∧ block_strict_check lines template_lines = Ok (lines, template_lines).
Proof.
  intros H. unfold block_strict_check, line_strict_check.
  by rewrite decide_False by done.
Qed.

Lemma strict_check_length_mismatch_witness :
  line_strict_check ["aaa new-model"; "aaa session-id common"]
                    ["aaa new-model"]
  = Ok (["aaa new-model"; "aaa session-id common"], ["aaa new-model"])
  ∧ block_strict_check ["aaa new-model"; "aaa session-id common"]
                       ["aaa new-model"]
    = Ok (["aaa new-model"; "aaa session-id common"], ["aaa new-model"]).
Proof.
  apply (strict_check_length_mismatch
           ["aaa new-model"; "aaa session-id common"] ["aaa new-model"]).
  simpl. lia.
Defined.

(** The residues of either comparison are drawn from its two inputs. *)
Lemma strict_loop_subseteq (L T : list string) (todo : list nat) :
  ∀ rl rt e m : list string,
  strict_loop L T todo rl rt = Ok (e, m) →
  rl ⊆ L → rt ⊆ T → e ⊆ L ∧ m ⊆ T.
Proof.
  induction todo as [|i todo IH]; intros rl rt e m; simpl.
  - by intros [= -> ->].
  - intros (x & _ & (y & _ & H)%res_bind_ok)%res_bind_ok Hrl Hrt.
    destruct (String.eqb x y).
    + apply res_bind_ok in H as (rl' & Hrl' & (rt' & Hrt' & H)%res_bind_ok).
      apply (IH _ _ _ _ H).
      * etrans; [|done]. by apply sublist_subseteq, (list_remove_sublist x).
      * etrans; [|done]. by apply sublist_subseteq, (list_remove_sublist x).
    + apply res_bind_ok in H as (d & _ & H).
      case_decide; [by injection H as <- <-|]. by apply (IH _ _ _ _ H).
Qed.

Lemma strict_check_subseteq (L T e m : list string) :
  line_strict_check L T = Ok (e, m) → e ⊆ L ∧ m ⊆ T.
Proof.
  unfold line_strict_check. case_decide as Hlen.
  - intros H. by apply strict_loop_subseteq in H.
  - by intros [= <- <-].
Qed.

Lemma normal_check_subseteq (L T e m : list string) :
  line_normal_check L T = Ok (e, m) → e ⊆ L ∧ m ⊆ T.
Proof.
  intros [H1 H2]%line_normal_check_ok.
  split; intros x Hx; [rewrite H1 | rewrite H2]; apply elem_of_app; by left.
Qed.

(** ** The store *)

Lemma run_bind {A B : Type} (m : M A) (f : A → M B) (σ : store) :
  (m ≫= f) σ
  = match m σ with Ok (a, σ') => f a σ' | Raise e => Raise e end.
Proof. reflexivity. Qed.

Lemma run_ret {A : Type} (a : A) (σ : store) : (mret a : M A) σ = Ok (a, σ).
Proof. reflexivity. Qed.

Lemma load_run (σ : store) (r : loc) (l : list string) :
  σ !! r = Some l → load r σ = Ok (l, σ).
Proof.
  intros H. unfold load. by rewrite (list_lookup_total_correct _ _ _ H).
Qed.

Lemma setitem_run (σ : store) (r : loc) (l : list string) (i : nat)
    (v : string) :
  σ !! r = Some l → i < length l →
  setitem r i v σ = Ok ((), <[r := <[i := v]> l]> σ).
Proof.
  intros H Hi. unfold setitem.
  rewrite (list_lookup_total_correct _ _ _ H). by rewrite decide_True.
Qed.

Lemma new_list_run (σ : store) (l : list string) :
  new_list l σ = Ok (length σ, σ ++ [l]).
Proof. reflexivity. Qed.

Lemma store_lookup_new (σ : store) (l : list string) :
  (σ ++ [l]) !! length σ = Some l.
Proof. by rewrite lookup_app_r, Nat.sub_diag by lia. Qed.

Lemma store_lookup_old (σ : store) (l l' : list string) (r : loc) :
  σ !! r = Some l → (σ ++ [l']) !! r = Some l.
Proof. intros H. by apply lookup_app_l_Some. Qed.

Lemma tagged_step (start : string) (l : list string) (i : nat) (v : string) :
  l !! i = Some v →
  <[i := tag start v]> ((tag start <$> take i l) ++ drop i l)
  = (tag start <$> take (S i) l) ++ drop (S i) l.
Proof.
  intros Hv. pose proof (lookup_lt_Some _ _ _ Hv) as Hi.
  rewrite insert_app_r_alt; rewrite length_fmap, length_take; [|lia].
  replace (i - i `min` length l) with 0 by lia.
  rewrite (drop_lookup_cons l i v Hv). simpl.
  rewrite (take_S_r l i v Hv), fmap_app. by rewrite <-app_assoc.
Qed.

Lemma tag_loop_run (start : string) (r : loc) (l : list string) (k : nat) :
  ∀ (i : nat) (σ : store),
  i + k = length l →
  σ !! r = Some ((tag start <$> take i l) ++ drop i l) →
  for_each_M (seq i k)
    (λ i, l ← load r; v ← lift (getitem l i); setitem r i (tag start v)) σ
  = Ok ((), <[r := tag start <$> l]> σ).
Proof.
  induction k as [|k IH]; intros i σ Hik Hσ.
  - simpl. rewrite run_ret. f_equal. f_equal.
    rewrite take_ge, drop_ge, app_nil_r in Hσ by lia.
    by rewrite list_insert_id.
  - simpl. rewrite !run_bind, (load_run _ _ _ Hσ).
    destruct (lookup_lt_is_Some_2 l i) as [v Hv]; [lia|].
    assert (((tag start <$> take i l) ++ drop i l) !! i = Some v) as Hv'.
    { rewrite lookup_app_r; rewrite length_fmap, length_take; [|lia].
      replace (i - i `min` length l) with 0 by lia.
      by rewrite (drop_lookup_cons l i v Hv). }
    rewrite run_bind. unfold lift at 1.
    apply getitem_ok in Hv' as Hget. rewrite Hget.
    rewrite (setitem_run _ _ _ _ _ Hσ)
      by (apply lookup_lt_Some in Hv'; lia).
    rewrite (IH (S i)); [|lia|].
    + by rewrite list_insert_insert_eq.
    + rewrite list_lookup_insert_eq by (by apply lookup_lt_Some in Hσ).
      by rewrite tagged_step.
Qed.

(** Tagging in place overwrites every entry of the list object with
    its tagged form. *)
Lemma tag_in_place_run (start : string) (r : loc) (l : list string)
    (σ : store) :
  σ !! r = Some l →
  tag_in_place start r σ = Ok ((), <[r := tag start <$> l]> σ).
Proof.
  intros H. unfold tag_in_place. rewrite run_bind, (load_run _ _ _ H).
  unfold range. rewrite Nat.sub_0_r. apply tag_loop_run; [lia|done].
Qed.

Lemma Block_get_content_run (block : Block) (B : list string)
    (add_start add_end : bool) (σ : store) :
  σ !! b_content block = Some B →
  ∃ r σ', Block_get_content block add_start add_end σ = Ok (r, σ')
          ∧ σ' !! r = Some (fragment_lines block B add_start add_end)
          ∧ σ `prefix_of` σ'.
Proof.
  intros HB. unfold Block_get_content, fragment_lines.
  rewrite run_bind.
  destruct add_start.
  - rewrite run_bind, (load_run _ _ _ HB), new_list_run.
    destruct add_end, (b_end block) as [e|];
      try (eexists _, _; split; [done|]; split;
           [apply store_lookup_new | by apply prefix_app_r]).
    destruct (String.eqb e "").
    + eexists _, _; split; [done|]; split;
        [apply store_lookup_new | by apply prefix_app_r].
    + rewrite run_bind, (load_run _ _ _ (store_lookup_new _ _)), new_list_run.
      eexists _, _; split; [done|]; split; [apply store_lookup_new|].
      rewrite <-app_assoc. by apply prefix_app_r.
  - rewrite run_ret.
    destruct add_end, (b_end block) as [e|];
      try (eexists _, _; split; [done|]; by split).
    destruct (String.eqb e "").
    + eexists _, _; split; [done|]; by split.
    + rewrite run_bind, (load_run _ _ _ HB), new_list_run.
      eexists _, _; split; [done|]; split;
        [apply store_lookup_new | by apply prefix_app_r].
Qed.

Lemma string_length_app (s t : string) :
  String.length (s +:+ t) = String.length s + String.length t.
Proof. induction s as [|c s IH]; simpl; [done|]. by rewrite IH. Qed.

Lemma tag_neq (start line : string) : tag start line ≠ line.
Proof.
  intros H. apply (f_equal String.length) in H. unfold tag in H.
  rewrite !string_length_app in H. simpl in H. lia.
Qed.

#[global] Instance tag_inj (start : string) : Inj (=) (=) (tag start).
Proof.
  intros x y. unfold tag. induction start as [|c s IH]; simpl.
  - by intros [= H].
  - intros [= H]. by apply IH.
Qed.

(** ** The claims on block-mode comparison *)

Section EngineProperties.

Context {regex : Type}.
Context (re_compile : string → res regex).
Context (re_match re_search : regex → string → bool).
Context (py_hash : string → Z).

Lemma block_check_equal_absent_run (block : Block) (template : Template)
    (compare_args ignore_lines : list string) (σ : store)
    (T : list string) :
  σ !! b_content block = Some [] →
  σ !! t_content template = Some T →
  block_check_equal re_compile re_search py_hash
    block template compare_args ignore_lines σ
  = Ok ((length σ, t_content template),
        <[t_content template := tag (b_start block) <$> T]> σ ++ [[]]).
Proof.
  intros HB HT. unfold block_check_equal.
  rewrite run_bind. unfold Block_get_content at 1; simpl.
  rewrite run_bind, (load_run _ _ _ HB).
  rewrite bool_decide_true by done.
  rewrite run_bind. unfold Template_get_content. rewrite run_ret.
  rewrite run_bind, (tag_in_place_run _ _ _ _ HT).
  rewrite run_bind, new_list_run, run_ret. by rewrite length_insert.
Qed.

(** On a block that has content, the comparison allocates its two
    residue lists and writes to nothing else. *)
Lemma block_check_equal_present_run (block : Block) (template : Template)
    (compare_args ignore_lines : list string) (σ : store)
    (B T : list string) :
  σ !! b_content block = Some B → B ≠ [] →
  σ !! t_content template = Some T →
  ∃ σ1, σ `prefix_of` σ1 ∧
    block_check_equal re_compile re_search py_hash
      block template compare_args ignore_lines σ
    = match
        present_block_residues re_compile re_search py_hash
          (b_start block)
          (fragment_lines block B
             (bool_decide (COMPARE_ARG_KEEP_START ∈ compare_args))
             (bool_decide (COMPARE_ARG_KEEP_END ∈ compare_args)))
          T (bool_decide (COMPARE_ARG_STRICT ∈ compare_args)) ignore_lines
      with
      | Ok (extra, missing) =>
          Ok ((length σ1, S (length σ1)), σ1 ++ [extra; missing])
      | Raise e => Raise e
      end.
Proof.
  intros HB Hne HT. unfold block_check_equal.
  rewrite run_bind. unfold Block_get_content at 1; simpl.
  rewrite run_bind, (load_run _ _ _ HB).
  rewrite bool_decide_false by done.
  destruct (Block_get_content_run block B
              (bool_decide (COMPARE_ARG_KEEP_START ∈ compare_args))
              (bool_decide (COMPARE_ARG_KEEP_END ∈ compare_args)) σ HB)
    as (r & σ1 & Hrun & Hr & Hpre).
  exists σ1. split; [done|].
  rewrite run_bind, Hrun.
  rewrite run_bind. unfold Template_get_content. rewrite run_ret.
  rewrite run_bind, (load_run _ _ _ Hr).
  assert (σ1 !! t_content template = Some T) as HT1.
  { by eapply prefix_lookup_Some. }
  rewrite run_bind, (load_run _ _ _ HT1).
  unfold present_block_residues.
  destruct (is_hash_equal _ _ _ _).
  { rewrite run_bind, new_list_run, run_bind, new_list_run, run_ret.
    rewrite length_app, <-app_assoc. simpl.
    by replace (length σ1 + 1) with (S (length σ1)) by lia. }
  rewrite run_bind. unfold lift at 1.
  destruct (filter_ignore_lines _ _ _ _ _) as [[bl tl]|e]; [|done].
  simpl. rewrite run_bind. unfold lift at 1.
  destruct (if bool_decide (COMPARE_ARG_STRICT ∈ compare_args)
            then block_strict_check bl tl else block_normal_check bl tl)
    as [[rb rt]|e]; [|done].
  simpl.
  rewrite run_bind, new_list_run, run_bind, new_list_run.
  rewrite length_app, <-app_assoc. simpl.
  replace (length σ1 + 1) with (S (length σ1)) by lia.
  rewrite run_bind.
  rewrite (tag_in_place_run _ _ rb).
  2:{ by rewrite lookup_app_r, Nat.sub_diag by lia. }
  rewrite insert_app_r_alt, Nat.sub_diag by lia. simpl.
  rewrite run_bind.
  rewrite (tag_in_place_run _ _ rt).
  2:{ rewrite lookup_app_r by lia.
      by replace (S (length σ1) - length σ1) with 1 by lia. }
  rewrite insert_app_r_alt by lia.
  by replace (S (length σ1) - length σ1) with 1 by lia.
Qed.

(** *** Ignore patterns *)

Lemma ignore_loop_ok (bl tl ignore_lines : list string) :
  ∀ fb ft fb' ft' : list string,
  for_each ignore_lines
    (λ ignore_line '(fb, ft),
       r ← re_compile ignore_line;
       Ok (fb ++ filter (λ x, re_search r x) bl,
           ft ++ filter (λ x, re_search r x) tl))
    (fb, ft) = Ok (fb', ft') →
  (fb ⊆ fb' ∧ ft ⊆ ft')
  ∧ ∀ pattern r line,
      pattern ∈ ignore_lines → re_compile pattern = Ok r →
      re_search r line = true →
      (line ∈ bl → line ∈ fb') ∧ (line ∈ tl → line ∈ ft').
Proof.
  induction ignore_lines as [|p ps IH]; intros fb ft fb' ft'; simpl.
  - intros [= -> ->]. split; [done|]. by intros ??? ?%elem_of_nil.
  - destruct (re_compile p) as [rp|] eqn:Hp; [|done]. simpl.
    intros [[Hfb Hft] Hmatch]%IH. split.
    + split; intros x Hx; [apply Hfb | apply Hft];
        apply elem_of_app; by left.
    + intros pattern r line [->|Hin]%elem_of_cons Hr Hs.
      * rewrite Hp in Hr. injection Hr as ->.
        split; intros Hl; [apply Hfb | apply Hft];
          apply elem_of_app; right; apply list_elem_of_filter;
          by rewrite Hs.
      * by apply (Hmatch pattern r).
Qed.

(** The lists that reach the line-level diff hold no line that an
    ignore pattern finds. *)
Lemma filter_ignore_lines_ok (bl tl ignore_lines bl' tl' : list string) :
  filter_ignore_lines re_compile re_search bl tl ignore_lines
  = Ok (bl', tl') →
  (bl' ⊆ bl ∧ tl' ⊆ tl)
  ∧ ∀ pattern r line,
      pattern ∈ ignore_lines → re_compile pattern = Ok r →
      re_search r line = true → (line ∉ bl') ∧ (line ∉ tl').
Proof.
  unfold filter_ignore_lines.
  intros ([fb ft] & Hloop & [= <- <-])%res_bind_ok.
  apply ignore_loop_ok in Hloop as [_ Hmatch]. split.
  - split; intros x [_ Hx]%list_elem_of_filter; done.
  - intros pattern r line Hin Hr Hs.
    destruct (Hmatch pattern r line Hin Hr Hs) as [H1 H2].
    split; intros [Hnot Hx]%list_elem_of_filter; auto.
Qed.

(** C5. A block without content: nothing is compared, [extra] is
    empty and [missing] is every template line behind the block's
    start marker and the delimiter, that is the string made of the
    start marker, the four characters [@!!@] and the line. *)
Theorem block_check_equal_absent (block : Block) (template : Template)
    (compare_args ignore_lines : list string) (σ : store)
    (T : list string) :
  σ !! b_content block = Some [] →
  σ !! t_content template = Some T →
  T ≠ [] →
  ∃ extra missing σ',
    block_check_equal re_compile re_search py_hash
      block template compare_args ignore_lines σ
    = Ok ((extra, missing), σ')
    ∧ σ' !! extra = Some []
    ∧ σ' !! missing
      = Some ((λ line, b_start block +:+ "@!!@" +:+ line) <$> T).
Proof.
  intros HB HT _.
  change (λ line, b_start block +:+ "@!!@" +:+ line)
    with (tag (b_start block)).
  eexists _, _, _. split; [by apply block_check_equal_absent_run|].
  pose proof (lookup_lt_Some _ _ _ HT) as Hlt.
  split.
  - rewrite lookup_app_r; rewrite length_insert; [|lia].
    by rewrite Nat.sub_diag.
  - apply lookup_app_l_Some. by rewrite list_lookup_insert_eq.
Qed.

(** C8. The template does not stay as built: the comparison of a
    block without content writes the tagged lines into the list that
    [Template.get_content] hands out, so the template's content after
    the comparison is the tagged sequence, not the rendered one. *)
Theorem absent_block_overwrites_template (block : Block)
    (template : Template) (compare_args ignore_lines : list string)
    (σ : store) (T : list string) :
  σ !! b_content block = Some [] →
  σ !! t_content template = Some T →
  T ≠ [] →
  ∃ result σ',
    block_check_equal re_compile re_search py_hash
      block template compare_args ignore_lines σ
    = Ok (result, σ')
    ∧ Template_get_content template σ' = Ok (t_content template, σ')
    ∧ σ' !! t_content template = Some (tag (b_start block) <$> T)
    ∧ σ' !! t_content template ≠ Some T.
Proof.
  intros HB HT HT0.
  eexists _, _. split; [by apply block_check_equal_absent_run|].
  pose proof (lookup_lt_Some _ _ _ HT) as Hlt.
  assert ((<[t_content template:=tag (b_start block) <$> T]> σ ++ [[]])
            !! t_content template
          = Some (tag (b_start block) <$> T)) as Hnew.
  { apply lookup_app_l_Some. by rewrite list_lookup_insert_eq. }
  split; [done|]. split; [done|].
  rewrite Hnew. intros [= H]. destruct T as [|x T]; [done|].
  injection H as H _. by apply tag_neq in H.
Qed.

(** With content in the block, the template's list is only read. *)
Lemma present_block_keeps_template (block : Block) (template : Template)
    (compare_args ignore_lines : list string) (σ σ' : store)
    (B T : list string) (result : loc * loc) :
  σ !! b_content block = Some B → B ≠ [] →
  σ !! t_content template = Some T →
  block_check_equal re_compile re_search py_hash
    block template compare_args ignore_lines σ = Ok (result, σ') →
  σ' !! t_content template = Some T.
Proof.
  intros HB Hne HT.
  destruct (block_check_equal_present_run block template compare_args
              ignore_lines σ B T HB Hne HT) as (σ1 & Hpre & ->).
  destruct (present_block_residues _ _ _ _ _ _ _ _) as [[e m]|]; [|done].
  intros [= _ <-]. apply lookup_app_l_Some. by eapply prefix_lookup_Some.
Qed.

(** C10. The fast path looks at the concatenation only: when the
    joined fragment lines and the joined template lines (both sorted
    first unless [strict_order] is given) are the same string, both
    residues are empty, whatever the hash function. *)
Theorem digest_fast_path_on_join (block : Block) (template : Template)
    (compare_args ignore_lines : list string) (σ : store)
    (B T : list string) :
  let strict_mode := bool_decide (COMPARE_ARG_STRICT ∈ compare_args) in
  let F := fragment_lines block B
             (bool_decide (COMPARE_ARG_KEEP_START ∈ compare_args))
             (bool_decide (COMPARE_ARG_KEEP_END ∈ compare_args)) in
  σ !! b_content block = Some B → B ≠ [] →
  σ !! t_content template = Some T → T ≠ [] →
  join (if strict_mode then F else sorted_str F)
  = join (if strict_mode then T else sorted_str T) →
  ∃ extra missing σ',
    block_check_equal re_compile re_search py_hash
      block template compare_args ignore_lines σ
    = Ok ((extra, missing), σ')
    ∧ σ' !! extra = Some [] ∧ σ' !! missing = Some [].
Proof.
  intros strict_mode F HB Hne HT _ Hjoin.
  destruct (block_check_equal_present_run block template compare_args
              ignore_lines σ B T HB Hne HT) as (σ1 & Hpre & ->).
  unfold present_block_residues, is_hash_equal.
  fold strict_mode. fold F. rewrite Hjoin.
  rewrite bool_decide_true by done.
  eexists _, _, _. split; [done|]. split.
  - by rewrite lookup_app_r, Nat.sub_diag by lia.
  - rewrite lookup_app_r by lia.
    by replace (S (length σ1) - length σ1) with 1 by lia.
Qed.

(** C6, as amended. With content in the block, a line that one of
    the ignore patterns finds is in neither list handed to the
    line-level diff, and its tagged form is in neither residue. *)
Theorem ignored_lines_not_in_residues (block : Block)
    (template : Template) (compare_args ignore_lines : list string)
    (σ σ' : store) (B T : list string) (extra missing : loc) :
  let F := fragment_lines block B
             (bool_decide (COMPARE_ARG_KEEP_START ∈ compare_args))
             (bool_decide (COMPARE_ARG_KEEP_END ∈ compare_args)) in
  σ !! b_content block = Some B → B ≠ [] →
  σ !! t_content template = Some T →
  block_check_equal re_compile re_search py_hash
    block template compare_args ignore_lines σ
  = Ok ((extra, missing), σ') →
  ∀ pattern r line,
    pattern ∈ ignore_lines → re_compile pattern = Ok r →
    re_search r line = true →
    (∀ bl tl,
       filter_ignore_lines re_compile re_search F T ignore_lines
       = Ok (bl, tl) →
       (line ∉ bl) ∧ (line ∉ tl))
    ∧ ∃ E Mi,
        σ' !! extra = Some E ∧ σ' !! missing = Some Mi
        ∧ (tag (b_start block) line ∉ E)
        ∧ (tag (b_start block) line ∉ Mi).
Proof.
  intros F HB Hne HT Hrun pattern r line Hin Hr Hs. split.
  { intros bl tl Hf.
    by apply (filter_ignore_lines_ok _ _ _ _ _ Hf) with pattern r. }
  destruct (block_check_equal_present_run block template compare_args
              ignore_lines σ B T HB Hne HT) as (σ1 & Hpre & Heq).
  rewrite Heq in Hrun. clear Heq. fold F in Hrun.
  unfold present_block_residues in Hrun.
  assert (∀ E Mi,
            Ok (length σ1, S (length σ1), σ1 ++ [E; Mi])
            = Ok (extra, missing, σ') →
            σ' !! extra = Some E ∧ σ' !! missing = Some Mi) as Hlook.
  { intros E Mi [= <- <- <-]. split.
    - by rewrite lookup_app_r, Nat.sub_diag by lia.
    - rewrite lookup_app_r by lia.
      by replace (S (length σ1) - length σ1) with 1 by lia. }
  destruct (is_hash_equal _ _ _ _).
  { apply Hlook in Hrun as [He Hm]. exists [], [].
    repeat split; try done; by intros ?%elem_of_nil. }
  destruct (filter_ignore_lines _ _ _ _ _) as [[bl tl]|] eqn:Hf; [|done].
  apply filter_ignore_lines_ok in Hf as [_ Hf].
  destruct (Hf pattern r line Hin Hr Hs) as [Hbl Htl].
  assert (∃ rb rt, (rb ⊆ bl ∧ rt ⊆ tl)
                   ∧ Ok (length σ1, S (length σ1),
                         σ1 ++ [tag (b_start block) <$> rb;
                                tag (b_start block) <$> rt])
                     = Ok (extra, missing, σ')) as (rb & rt & Hsub & Hres).
  { destruct (bool_decide (COMPARE_ARG_STRICT ∈ compare_args)).
    - destruct (block_strict_check bl tl) as [[rb rt]|] eqn:Hc; [|done].
      exists rb, rt. split; [|done].
      rewrite block_strict_check_eq in Hc. by apply strict_check_subseteq.
    - destruct (block_normal_check bl tl) as [[rb rt]|] eqn:Hc; [|done].
      exists rb, rt. split; [|done].
      rewrite block_normal_check_eq in Hc. by apply normal_check_subseteq. }
  apply Hlook in Hres as [He Hm]. destruct Hsub as [Hrb Hrt].
  eexists _, _. split; [done|]. split; [done|].
  split; intros (y & Hy%(inj (tag _)) & Hy')%list_elem_of_fmap; subst y;
    auto.
Qed.

End EngineProperties.

(** *** The block-mode claims on concrete configurations *)

Lemma block_check_equal_absent_witness :
  ∃ extra missing σ',
    block_check_equal lit_compile lit_search digits_hash
      (mkBlock "interface FastEthernet1/0/2" None 0)
      (mkTemplate "access_r1.j2" 1)
      [] ["description"]
      [[]; ["switchport mode access"; "no shutdown"]]
    = Ok ((extra, missing), σ')
    ∧ σ' !! extra = Some []
    ∧ σ' !! missing
      = Some ["interface FastEthernet1/0/2@!!@switchport mode access";
              "interface FastEthernet1/0/2@!!@no shutdown"].
Proof.
  change ["interface FastEthernet1/0/2@!!@switchport mode access";
          "interface FastEthernet1/0/2@!!@no shutdown"]
    with ((λ line,
             b_start (mkBlock "interface FastEthernet1/0/2" None 0)
             +:+ "@!!@" +:+ line)
            <$> ["switchport mode access"; "no shutdown"]).
  apply (block_check_equal_absent lit_compile lit_search digits_hash
           (mkBlock "interface FastEthernet1/0/2" None 0)
           (mkTemplate "access_r1.j2" 1)).
  - reflexivity.
  - reflexivity.
  - discriminate.
Defined.

Lemma absent_block_overwrites_template_witness :
  ∃ result σ',
    block_check_equal lit_compile lit_search digits_hash
      (mkBlock "interface FastEthernet1/0/2" None 0)
      (mkTemplate "access_r1.j2" 1)
      [] []
      [[]; ["switchport mode access"; "no shutdown"]]
    = Ok (result, σ')
    ∧ Template_get_content (mkTemplate "access_r1.j2" 1) σ' = Ok (1, σ')
    ∧ σ' !! 1
      = Some (tag "interface FastEthernet1/0/2"
                <$> ["switchport mode access"; "no shutdown"])
    ∧ σ' !! 1 ≠ Some ["switchport mode access"; "no shutdown"].
Proof.
  apply (absent_block_overwrites_template lit_compile lit_search digits_hash
           (mkBlock "interface FastEthernet1/0/2" None 0)
           (mkTemplate "access_r1.j2" 1)).
  - reflexivity.
  - reflexivity.
  - discriminate.
Defined.

Lemma digest_fast_path_on_join_witness :
  ∃ extra missing σ',
    block_check_equal lit_compile lit_search digits_hash
      (mkBlock "interface FastEthernet1/0/2" None 0)
      (mkTemplate "access_r1.j2" 1)
      [] []
      [["ab"; "c"]; ["a"; "bc"]]
    = Ok ((extra, missing), σ')
    ∧ σ' !! extra = Some [] ∧ σ' !! missing = Some [].
Proof.
  apply (digest_fast_path_on_join lit_compile lit_search digits_hash
           (mkBlock "interface FastEthernet1/0/2" None 0)
           (mkTemplate "access_r1.j2" 1) [] []
           [["ab"; "c"]; ["a"; "bc"]] ["ab"; "c"] ["a"; "bc"]).
  - reflexivity.
  - discriminate.
  - reflexivity.
  - discriminate.
  - vm_compute. reflexivity.
Defined.

Lemma ignored_lines_not_in_residues_witness :
  (∀ bl tl,
     filter_ignore_lines lit_compile lit_search
       ["switchport mode access"; "description uplink";
        "spanning-tree portfast"]
       ["switchport mode access"; "description access port"; "no shutdown"]
       ["description"]
     = Ok (bl, tl) →
     ("description uplink" ∉ bl) ∧ ("description uplink" ∉ tl))
  ∧ ∃ E Mi,
      [["switchport mode access"; "description uplink";
        "spanning-tree portfast"];
       ["switchport mode access"; "description access port"; "no shutdown"];
       ["interface FastEthernet1/0/2@!!@spanning-tree portfast"];
       ["interface FastEthernet1/0/2@!!@no shutdown"]] !! 2 = Some E
      ∧ [["switchport mode access"; "description uplink";
          "spanning-tree portfast"];
         ["switchport mode access"; "description access port"; "no shutdown"];
         ["interface FastEthernet1/0/2@!!@spanning-tree portfast"];
         ["interface FastEthernet1/0/2@!!@no shutdown"]] !! 3 = Some Mi
      ∧ (tag "interface FastEthernet1/0/2" "description uplink" ∉ E)
      ∧ (tag "interface FastEthernet1/0/2" "description uplink" ∉ Mi).
Proof.
  apply (ignored_lines_not_in_residues lit_compile lit_search digits_hash
           (mkBlock "interface FastEthernet1/0/2" None 0)
           (mkTemplate "access_r1.j2" 1) [] ["description"]
           [["switchport mode access"; "description uplink";
             "spanning-tree portfast"];
            ["switchport mode access"; "description access port";
             "no shutdown"]]
           _
           ["switchport mode access"; "description uplink";
            "spanning-tree portfast"]
           ["switchport mode access"; "description access port";
            "no shutdown"]
           2 3
           ltac:(reflexivity) ltac:(discriminate) ltac:(reflexivity)
           ltac:(vm_compute; reflexivity)
           "description" "description" "description uplink").
  - apply elem_of_cons. by left.
  - reflexivity.
  - reflexivity.
Defined.

(** The claim C6 as stated fails on a block without content: the
    template line that the ignore pattern finds is reported missing. *)
Lemma ignored_line_in_residue_counterexample :
  lit_search "description" "description access port" = true
  ∧ block_check_equal lit_compile lit_search digits_hash
      (mkBlock "interface FastEthernet1/0/2" None 0)
      (mkTemplate "access_r1.j2" 1)
      [] ["description"]
      [[]; ["switchport mode access"; "description access port"]]
    = Ok ((2, 1),
          [[];
           ["interface FastEthernet1/0/2@!!@switchport mode access";
            "interface FastEthernet1/0/2@!!@description access port"];
           []])
  ∧ tag "interface FastEthernet1/0/2" "description access port"
    ∈ ["interface FastEthernet1/0/2@!!@switchport mode access";
       "interface FastEthernet1/0/2@!!@description access port"].
Proof.
  split; [reflexivity|]. split; [reflexivity|].
  apply elem_of_cons. right. apply elem_of_cons. by left.
Qed.

(** ** Block extraction *)

Lemma list_index_app (x : string) (pre rest : list string) :
  x ∉ pre → list_index x (pre ++ x :: rest) = Ok (length pre).
Proof.
  induction pre as [|y pre IH]; simpl.
  - by rewrite String.eqb_refl.
  - intros [Hne Hpre]%not_elem_of_cons.
    assert (y ≠ x) as ->%string_eqb_false by done.
    by rewrite IH.
Qed.

Section BlockExtraction.

Context {regex : Type}.
Context (re_compile : string → res regex).
Context (re_match : regex → string → bool).

Lemma Block_add_content_line_run (block : Block) (line : string)
    (σ : store) :
  ∃ σ', Block_add_content_line block line σ = Ok ((), σ').
Proof.
  unfold Block_add_content_line. destruct (String.eqb line "").
  - by eexists.
  - unfold append. by eexists.
Qed.

(** While no line ends the block, the scan runs to the end of the
    configuration: it stops with [index = len(config_lines)]. *)
Lemma block_scan_to_the_end (block : Block) (search_end : string)
    (rest : list string) :
  Forall (λ line, is_end_of_block re_compile re_match line search_end
                  = Ok false) rest →
  ∀ (index : nat) (delete_indices : list nat) (σ : store),
  ∃ delete_indices' σ',
    block_scan re_compile re_match block search_end rest index
      delete_indices σ
    = Ok ((index + length rest, delete_indices'), σ').
Proof.
  induction 1 as [|line rest Hline Hrest IH]; intros index del σ; simpl.
  - rewrite Nat.add_0_r. by eexists _, _.
  - rewrite run_bind. unfold lift at 1. rewrite Hline.
    rewrite run_bind.
    destruct (Block_add_content_line_run block line σ) as [σ1 ->].
    destruct (IH (index + 1) (del ++ [index]) σ1) as (del' & σ' & ->).
    exists del', σ'. do 3 f_equal. lia.
Qed.

(** C9. [extract_block] is not total: when the start marker is
    found and every line after it belongs to the block, the scan
    leaves [index] one past the last line and the test
    [config_lines[index] == search_end] raises IndexError. *)
Theorem extract_block_overrun (pre body : list string)
    (search_start search_end : string) (σ : store) :
  search_start ∉ pre →
  Forall (λ line, is_end_of_block re_compile re_match line search_end
                  = Ok false) body →
  extract_block re_compile re_match (pre ++ search_start :: body)
    search_start search_end σ
  = Raise IndexError.
Proof.
  intros Hpre Hbody. unfold extract_block.
  rewrite run_bind. unfold Block_init.
  rewrite run_bind, new_list_run, run_ret.
  rewrite (list_index_app _ _ _ Hpre).
  rewrite run_bind.
  replace (drop (length pre + 1) (pre ++ search_start :: body)) with body.
  2:{ rewrite cons_middle, app_assoc.
      rewrite drop_app_length'; [done|]. rewrite length_app. simpl. lia. }
  destruct (block_scan_to_the_end
              (mkBlock search_start None (length σ)) search_end body Hbody
              (length pre + 1) [length pre] (σ ++ [[]]))
    as (del & σ' & ->).
  rewrite run_bind. unfold lift at 1.
  rewrite getitem_ge; [done|]. rewrite length_app. simpl. lia.
Qed.

End BlockExtraction.

Lemma extract_block_overrun_witness :
  extract_block lit_compile lit_match
    (["hostname r1"]
     ++ "interface FastEthernet1/0/2"
        :: [" switchport mode access"; " no shutdown"])
    "interface FastEthernet1/0/2" "!" []
  = Raise IndexError.
Proof.
  apply (extract_block_overrun lit_compile lit_match).
  - intros [[=]|[]%elem_of_nil]%elem_of_cons.
  - repeat constructor.
Defined.

(** ** Deleting recorded positions *)

Lemma keep_from_below {A : Type} (k : nat) (positions : list nat)
    (l : list A) :
  Forall (λ j, j < k) positions → keep_from k positions l = l.
Proof.
  revert k. induction l as [|x l IH]; intros k Hlt; simpl; [done|].
  rewrite decide_False.
  - f_equal. apply IH. eapply Forall_impl; [done|]. simpl. lia.
  - intros Hk. rewrite Forall_forall in Hlt. apply Hlt in Hk. lia.
Qed.

Lemma keep_from_ext {A : Type} (k : nat) (p1 p2 : list nat) (l : list A) :
  (∀ j, j ∈ p1 ↔ j ∈ p2) → keep_from k p1 l = keep_from k p2 l.
Proof.
  intros Hiff. revert k. induction l as [|x l IH]; intros k; simpl; [done|].
  rewrite IH. destruct (decide (k ∈ p1)) as [H1|H1].
  - by rewrite decide_True by (by apply Hiff).
  - by rewrite decide_False by (by rewrite <-Hiff).
Qed.

(** Deleting position [k + j] first and then positions below it is
    deleting them all. *)
Lemma keep_from_delete {A : Type} (positions : list nat) (l : list A) :
  ∀ j k,
  Forall (λ i, i < k + j) positions →
  keep_from k positions (delete j l) = keep_from k ((k + j) :: positions) l.
Proof.
  induction l as [|x l IH]; intros j k Hlt; [by destruct j|].
  destruct j as [|j]; simpl.
  - rewrite Nat.add_0_r in *.
    rewrite decide_True by (apply elem_of_cons; by left).
    rewrite !keep_from_below; [done| |done].
    constructor; [lia|]. eapply Forall_impl; [done|]. simpl. lia.
  - rewrite IH by (eapply Forall_impl; [done|]; simpl; lia).
    replace (S k + j) with (k + S j) by lia.
    destruct (decide (k ∈ positions)) as [Hk|Hk].
    + by rewrite decide_True by (apply elem_of_cons; by right).
    + rewrite decide_False; [done|].
      intros [?|?]%elem_of_cons; [lia|done].
Qed.

Lemma delitem_lt {A : Type} (l : list A) (i : nat) :
  i < length l → delitem l i = Ok (delete i l).
Proof. intros H. unfold delitem. by rewrite decide_True. Qed.

Lemma delete_descending (config_lines : list string) (desc : list nat) :
  StronglySorted (flip Nat.le) desc → NoDup desc →
  Forall (λ i, i < length config_lines) desc →
  for_each desc (λ index config_lines, delitem config_lines index)
    config_lines
  = Ok (remove_positions desc config_lines).
Proof.
  unfold remove_positions. revert config_lines.
  induction desc as [|j desc IH]; intros config_lines Hsorted Hnodup Hlt.
  - simpl. by rewrite keep_from_below.
  - apply StronglySorted_cons in Hsorted as [Hle Hsorted].
    apply NoDup_cons in Hnodup as [Hj Hnodup].
    apply Forall_cons in Hlt as [Hjlt Hlt].
    assert (Forall (λ i, i < j) desc) as Hbelow.
    { rewrite Forall_forall in Hle |- *. intros i Hi.
      specialize (Hle i Hi). unfold flip in Hle.
      assert (i ≠ j) by (by intros ->). lia. }
    cbn [for_each]. rewrite delitem_lt by done. cbn [mbind res_bind].
    rewrite IH; [|done|done|].
    + f_equal. by rewrite (keep_from_delete desc config_lines j 0).
    + rewrite length_delete by (by apply lookup_lt_is_Some_2).
      eapply Forall_impl; [done|]. simpl. lia.
Qed.

(** [delete_all] takes exactly the recorded positions out when none is
    recorded twice. *)
Lemma delete_all_NoDup (delete_indices : list nat)
    (config_lines : list string) :
  NoDup delete_indices →
  Forall (λ i, i < length config_lines) delete_indices →
  delete_all delete_indices config_lines
  = Ok (remove_positions delete_indices config_lines).
Proof.
  intros Hnodup Hlt. unfold delete_all.
  assert (reverse (sorted_nat delete_indices) ≡ₚ delete_indices) as Hperm.
  { unfold sorted_nat. by rewrite reverse_Permutation, merge_sort_Permutation. }
  rewrite delete_descending.
  - f_equal. unfold remove_positions. apply keep_from_ext.
    intros j. by rewrite Hperm.
  - apply Sorted_StronglySorted; [apply _|].
    apply Sorted_reverse, Sorted_merge_sort. apply _.
  - by rewrite Hperm.
  - by rewrite Hperm.
Qed.

(** ** Line extraction *)

Lemma for_each_app {A S : Type} (xs ys : list A) (body : A → S → res S)
    (s : S) :
  for_each (xs ++ ys) body s = for_each xs body s ≫= for_each ys body.
Proof.
  revert s. induction xs as [|x xs IH]; intros s; simpl; [done|].
  destruct (body x s) as [s'|]; simpl; [apply IH | done].
Qed.

Lemma continuation_length (search_until : string) (rest : list string) :
  length (continuation search_until rest) ≤ length rest.
Proof.
  induction rest as [|line rest IH]; simpl; [done|].
  destruct (endswith _ _); simpl; lia.
Qed.

Lemma additional_loop_spec (start_index : nat) (search_until : string)
    (rest : list string) :
  ∀ (k : nat) (extra_indices : list nat) (extra_lines : list string),
  additional_loop start_index search_until (zip (seq k (length rest)) rest)
    extra_indices extra_lines
  = (extra_indices
       ++ seq (k + start_index) (length (continuation search_until rest)),
     extra_lines ++ continuation search_until rest).
Proof.
  induction rest as [|line rest IH]; intros k ei el; simpl.
  - by rewrite !app_nil_r.
  - destruct (endswith (strip line) search_until); [done|].
    rewrite IH. simpl. by rewrite <-!app_assoc.
Qed.

(** [extract_additional_lines] returns the stripped continuation and
    the positions it stands at. *)
Lemma extract_additional_lines_spec (config_lines : list string)
    (start_index : nat) (search_until : string) :
  extract_additional_lines config_lines start_index search_until
  = (seq start_index
       (length (continuation search_until (drop start_index config_lines))),
     continuation search_until (drop start_index config_lines)).
Proof.
  unfold extract_additional_lines, enumerate.
  by rewrite additional_loop_spec.
Qed.

Lemma enumerate_lookup {A : Type} (l : list A) (i : nat) (x : A) :
  l !! i = Some x → enumerate l !! i = Some (i, x).
Proof.
  intros H. unfold enumerate. apply lookup_zip_with_Some.
  exists i, x. split; [done|]. split; [|done].
  apply lookup_seq. split; [done|]. by apply lookup_lt_Some in H.
Qed.

Lemma elem_of_enumerate {A : Type} (l : list A) (i : nat) (x : A) :
  (i, x) ∈ enumerate l → l !! i = Some x.
Proof.
  intros [j Hj]%list_elem_of_lookup. unfold enumerate in Hj.
  apply lookup_zip_with_Some in Hj as (i' & x' & [= <- <-] & Hseq & Hx).
  apply lookup_seq in Hseq as [-> _]. done.
Qed.

Section LineExtraction.

Context {regex : Type}.
Context (re_compile : string → res regex).
Context (re_match : regex → string → bool).

(** One round of the scan appends to [found_lines] and to
    [delete_indices]; at a qualifying sentinel line it appends the
    stripped line with its continuation, and their positions. *)
Lemma extract_lines_body_run (config_lines : list string) (r : regex)
    (i : nat) (line : string) (found_lines : list string)
    (delete_indices : list nat) :
  config_lines !! i = Some line →
  ∃ f d,
    extract_lines_body re_match config_lines r (i, line)
      (found_lines, delete_indices)
    = Ok (found_lines ++ f, delete_indices ++ d)
    ∧ Forall (λ j, j < length config_lines) d
    ∧ (re_match r line = true →
       is_block_start line (config_lines !! (i + 1)) = false →
       endswith (strip line) "@" = true →
       f = strip line :: continuation "@" (drop (i + 1) config_lines)
       ∧ d = i :: seq (i + 1)
                    (length (continuation "@"
                               (drop (i + 1) config_lines)))).
Proof.
  intros Hi. pose proof (lookup_lt_Some _ _ _ Hi) as Hlt.
  unfold extract_lines_body.
  apply getitem_ok in Hi as ->. cbn [mbind res_bind].
  destruct (re_match r line) eqn:Hm; cbn [andb].
  2:{ exists [], []. rewrite !app_nil_r. by repeat split. }
  destruct (is_block_start line (config_lines !! (i + 1))) eqn:Hb;
    cbn [negb].
  { exists [], []. rewrite !app_nil_r. by repeat split. }
  destruct (endswith (strip line) "@") eqn:He.
  - rewrite extract_additional_lines_spec.
    set (c := continuation "@" (drop (i + 1) config_lines)).
    exists (strip line :: c), (i :: seq (i + 1) (length c)).
    split; [by rewrite <-!app_assoc|]. split; [|done].
    constructor; [done|]. apply Forall_forall. intros j Hj%elem_of_seq.
    pose proof (continuation_length "@" (drop (i + 1) config_lines)) as Hc.
    fold c in Hc. rewrite length_drop in Hc. lia.
  - exists [strip line], [i]. split; [done|]. split; [|done].
    by repeat constructor.
Qed.

Lemma extract_lines_scan_run (config_lines : list string) (r : regex)
    (todo : list (nat * string)) :
  (∀ i line, (i, line) ∈ todo → config_lines !! i = Some line) →
  ∀ (found_lines : list string) (delete_indices : list nat),
  ∃ f d,
    for_each todo (extract_lines_body re_match config_lines r)
      (found_lines, delete_indices)
    = Ok (found_lines ++ f, delete_indices ++ d)
    ∧ Forall (λ j, j < length config_lines) d.
Proof.
  induction todo as [|[i line] todo IH]; intros Htodo found del.
  - exists [], []. by rewrite !app_nil_r.
  - destruct (extract_lines_body_run config_lines r i line found del)
      as (f1 & d1 & Hrun & Hd1 & _).
    { apply Htodo. by left. }
    destruct (IH (λ i line H, Htodo i line (list_elem_of_further _ _ _ H))
                (found ++ f1) (del ++ d1)) as (f2 & d2 & Hrest & Hd2).
    exists (f1 ++ f2), (d1 ++ d2).
    cbn [for_each]. rewrite Hrun. cbn [mbind res_bind]. rewrite Hrest.
    split; [by rewrite !app_assoc|]. by apply Forall_app.
Qed.

(** C7, as amended. In line-mode extraction, after a qualifying line
    whose stripped form ends with the sentinel, the following
    configuration lines are collected stripped of their surrounding
    whitespace, up to and including the first whose stripped form ends
    with the sentinel (all of them when there is none), and the
    positions of the line and of its continuation are recorded; when
    no position has been recorded twice, the configuration returned
    is the original one without the recorded positions. *)
Theorem extract_lines_sentinel (config_lines : list string)
    (search_start search_end : string) (r : regex) :
  re_compile search_start = Ok r →
  ∃ found_lines delete_indices,
    for_each (enumerate config_lines)
      (extract_lines_body re_match config_lines r) ([], [])
    = Ok (found_lines, delete_indices)
    ∧ (∀ i line,
         config_lines !! i = Some line →
         re_match r line = true →
         is_block_start line (config_lines !! (i + 1)) = false →
         endswith (strip line) "@" = true →
         ∃ f1 f2 d1 d2,
           found_lines
           = f1 ++ strip line
                   :: continuation "@" (drop (i + 1) config_lines) ++ f2
           ∧ delete_indices
             = d1 ++ i :: seq (i + 1)
                             (length (continuation "@"
                                        (drop (i + 1) config_lines)))
                       ++ d2)
    ∧ (NoDup delete_indices →
       extract_lines re_compile re_match config_lines
         search_start search_end
       = Ok (found_lines, remove_positions delete_indices config_lines)).
Proof.
  intros Hr.
  destruct (extract_lines_scan_run config_lines r (enumerate config_lines)
              (elem_of_enumerate config_lines) [] [])
    as (found & del & Hscan & Hdel).
  simpl in Hscan. exists found, del. split; [done|]. split.
  - intros i line Hi Hm Hb He.
    pose proof (take_drop_middle _ _ _ (enumerate_lookup _ _ _ Hi)) as Hsplit.
    rewrite <-Hsplit in Hscan.
    rewrite for_each_app in Hscan.
    destruct (extract_lines_scan_run config_lines r
                (take i (enumerate config_lines))) with ([] : list string)
                ([] : list nat) as (f1 & d1 & Hpre & _).
    { intros j l Hj. apply elem_of_enumerate.
      by apply (subseteq_take i). }
    rewrite Hpre in Hscan. cbn [mbind res_bind for_each] in Hscan.
    destruct (extract_lines_body_run config_lines r i line
                ([] ++ f1) ([] ++ d1) Hi)
      as (fi & di & Hbody & _ & Hform).
    destruct (Hform Hm Hb He) as [-> ->].
    rewrite Hbody in Hscan. cbn [mbind res_bind] in Hscan.
    destruct (extract_lines_scan_run config_lines r
                (drop (S i) (enumerate config_lines))) with
      (([] ++ f1) ++ strip line
         :: continuation "@" (drop (i + 1) config_lines))
      (([] ++ d1) ++ i
         :: seq (i + 1)
              (length (continuation "@" (drop (i + 1) config_lines))))
      as (f2 & d2 & Hpost & _).
    { intros j l Hj. apply elem_of_enumerate.
      by apply (subseteq_drop (S i)). }
    rewrite Hpost in Hscan. injection Hscan as <- <-.
    exists f1, f2, d1, d2. simpl. by rewrite <-!app_assoc.
  - intros Hnodup. unfold extract_lines. rewrite Hr. cbn [mbind res_bind].
    rewrite Hscan. cbn [mbind res_bind].
    by rewrite delete_all_NoDup.
Qed.

End LineExtraction.

Lemma extract_lines_sentinel_witness :
  (∃ f1 f2 d1 d2,
     ["banner motd @"; "Authorized access only"; "end @"]
     = f1 ++ strip "banner motd @"
             :: continuation "@"
                  (drop (0 + 1)
                     ["banner motd @"; "Authorized access only  "; "end @ ";
                      "hostname r1"]) ++ f2
     ∧ [0; 1; 2]
       = d1 ++ 0 :: seq (0 + 1)
                      (length
                         (continuation "@"
                            (drop (0 + 1)
                               ["banner motd @"; "Authorized access only  ";
                                "end @ "; "hostname r1"]))) ++ d2)
  ∧ extract_lines lit_compile lit_match
      ["banner motd @"; "Authorized access only  "; "end @ "; "hostname r1"]
      "banner" "!"
    = Ok (["banner motd @"; "Authorized access only"; "end @"],
          ["hostname r1"]).
Proof.
  destruct (extract_lines_sentinel lit_compile lit_match
              ["banner motd @"; "Authorized access only  "; "end @ ";
               "hostname r1"]
              "banner" "!" "banner" eq_refl)
    as (found & del & Hscan & Hseg & Hdel).
  vm_compute in Hscan. injection Hscan as <- <-. split.
  - apply (Hseg 0 "banner motd @"); reflexivity.
  - rewrite Hdel; [reflexivity|].
    apply (bool_decide_unpack _). vm_compute. exact I.
Defined.

(** The claim C7 as stated fails on a continuation line with trailing
    blanks: the line collected is the stripped one, the raw line is not
    among the extracted lines, and the continuation stops at a line
    that ends with the sentinel only once stripped. *)
Lemma extract_lines_verbatim_counterexample :
  extract_lines lit_compile lit_match
    ["banner motd @"; "Authorized access only  "; "end @ "; "hostname r1"]
    "banner" "!"
  = Ok (["banner motd @"; "Authorized access only"; "end @"],
        ["hostname r1"])
  ∧ ("Authorized access only  "
     ∉ ["banner motd @"; "Authorized access only"; "end @"])
  ∧ endswith "end @ " "@" = false.
Proof.
  split; [reflexivity|]. split; [|reflexivity].
  apply (bool_decide_unpack _). vm_compute. exact I.
Qed.

(** ** Global comparison *)

(** The guarded removal of [check_global] never raises. *)
Lemma check_global_body_run (template_lines : list string) (i : nat)
    (line : string) (delete_indices : list nat) (remaining : list string) :
  ∃ delete_indices' remaining',
    check_global_body template_lines (i, line) (delete_indices, remaining)
    = Ok (delete_indices', remaining')
    ∧ (delete_indices' = delete_indices
       ∨ delete_indices' = delete_indices ++ [i]).
Proof.
  unfold check_global_body. cbv zeta.
  destruct (decide (strip line ∈ template_lines)); [|by eauto].
  destruct (decide (strip line ∈ remaining)) as [Hin|Hin]; [|by eauto].
  destruct (list_remove_elem_of _ _ Hin) as [rem' ->].
  cbn [mbind res_bind]. by eauto.
Qed.

(** No position is recorded twice. *)
Lemma check_global_scan (template_lines rest : list string) :
  ∀ (k : nat) (delete_indices : list nat) (remaining : list string),
  Forall (λ j, j < k) delete_indices → NoDup delete_indices →
  ∃ delete_indices' remaining',
    for_each (zip (seq k (length rest)) rest)
      (check_global_body template_lines) (delete_indices, remaining)
    = Ok (delete_indices', remaining')
    ∧ Forall (λ j, j < k + length rest) delete_indices'
    ∧ NoDup delete_indices'.
Proof.
  induction rest as [|line rest IH]; intros k del rem Hlt Hnodup.
  - simpl. exists del, rem. rewrite Nat.add_0_r. done.
  - assert (Forall (λ j, j < S k) (del ++ [k])) as Hlt'.
    { apply Forall_app. split; [|by repeat constructor].
      eapply Forall_impl; [done|]. simpl. lia. }
    assert (NoDup (del ++ [k])) as Hnodup'.
    { apply NoDup_app. split; [done|]. split; [|apply NoDup_singleton].
      intros j Hj ->%list_elem_of_singleton.
      rewrite Forall_forall in Hlt. apply Hlt in Hj. lia. }
    assert (Forall (λ j, j < S k) del) as Hlt''.
    { eapply Forall_impl; [done|]. simpl. lia. }
    cbn [length seq zip zip_with for_each].
    replace (k + S (length rest)) with (S k + length rest) by lia.
    destruct (check_global_body_run template_lines k line del rem)
      as (del' & rem' & -> & [->| ->]); cbn [mbind res_bind]; by apply IH.
Qed.

Lemma check_global_returns (config_lines : list string)
    (template : Template) (compare_method : string)
    (compare_args : list string) (σ : store) :
  ∃ missing remaining_config,
    check_global config_lines template compare_method compare_args σ
    = Ok (([], missing, remaining_config), σ).
Proof.
  unfold check_global.
  rewrite run_bind. unfold Template_get_content. rewrite run_ret.
  rewrite run_bind. unfold load at 1.
  destruct (check_global_scan (σ !!! t_content template) config_lines 0 []
              (σ !!! t_content template)) as (del & rem & Hscan & Hlt & Hnodup);
    [constructor..|].
  rewrite run_bind. unfold lift at 1, enumerate. rewrite Hscan.
  rewrite run_bind. unfold lift at 1.
  rewrite delete_all_NoDup by done. by eexists _, _.
Qed.

(** * Further properties *)

(** ** levenshtein *)

Lemma lev_prefix_sym (s t : string) (i : nat) :
  ∀ j, lev_prefix s t i j = lev_prefix t s j i.
Proof.
  induction i as [|i IHi]; intros j.
  - by rewrite lev_prefix_0_r.
  - induction j as [|j IHj]; [done|].
    rewrite !lev_prefix_S, IHj, !IHi.
    destruct (decide (String.get i s = String.get j t)) as [E|E].
    + rewrite decide_True by done. lia.
    + rewrite decide_False by done. lia.
Qed.

Lemma lev_prefix_bound (s t : string) (i : nat) :
  ∀ j, lev_prefix s t i j ≤ Nat.max i j.
Proof.
  induction i as [|i IH]; intros j; [simpl; lia|].
  destruct j as [|j]; [rewrite lev_prefix_0_r; lia|].
  rewrite lev_prefix_S. specialize (IH j).
  destruct (decide (String.get i s = String.get j t)); lia.
Qed.

Lemma str_length_0 (s : string) : String.length s = 0 ↔ s = "".
Proof. destruct s; simpl; split; (done || lia). Qed.

Lemma str_tail_length (s : string) :
  String.length (str_tail s) = String.length s - 1.
Proof. destruct s; simpl; lia. Qed.

(** X1. What [levenshtein] returns, for every pair of strings: 0 on
    equal strings, the length of the other string when one is empty,
    and otherwise the edit distance of the two strings without their
    first characters. *)
Theorem levenshtein_value (s t : string) :
  levenshtein s t
  = Ok (if decide (s = t) then 0
        else if decide (s = "") then String.length t
        else if decide (t = "") then String.length s
        else edit_distance (str_tail s) (str_tail t)).
Proof.
  destruct (decide (s = t)) as [->|Hst]; [apply levenshtein_refl|].
  destruct (decide (s = "")) as [->|Hs].
  { unfold levenshtein. apply String.eqb_neq in Hst as ->. done. }
  destruct (decide (t = "")) as [->|Ht].
  { unfold levenshtein. apply String.eqb_neq in Hst as ->.
    destruct s; done. }
  by apply levenshtein_drops_first_chars.
Qed.

(** X2. [levenshtein] does not depend on the order of its arguments. *)
Theorem levenshtein_sym (s t : string) : levenshtein s t = levenshtein t s.
Proof.
  destruct (decide (s = t)) as [->|Hst]; [done|].
  assert (String.eqb s t = false) as E1 by (by apply String.eqb_neq).
  assert (String.eqb t s = false) as E2 by (by apply String.eqb_neq).
  destruct (decide (s = "")) as [->|Hs].
  { unfold levenshtein. rewrite E1, E2. by destruct t. }
  destruct (decide (t = "")) as [->|Ht].
  { unfold levenshtein. rewrite E1, E2. by destruct s. }
  rewrite !levenshtein_drops_first_chars by done.
  unfold edit_distance. by rewrite lev_prefix_sym.
Qed.

(** X3. [levenshtein] always returns, never more than the length of
    the longer string, and on two non-empty strings at least one less:
    two non-empty lines of at most seven characters are always within
    the threshold. *)
Theorem levenshtein_bounded (s t : string) :
  ∃ d, levenshtein s t = Ok d
       ∧ d ≤ Nat.max (String.length s) (String.length t)
       ∧ (s ≠ "" → t ≠ "" →
          d ≤ Nat.max (String.length s) (String.length t) - 1)
       ∧ (s ≠ "" → t ≠ "" →
          String.length s ≤ 7 → String.length t ≤ 7 →
          d ≤ EDIT_DISTANCE_THRESHOLD).
Proof.
  assert (∃ d, levenshtein s t = Ok d
               ∧ d ≤ Nat.max (String.length s) (String.length t)
               ∧ (s ≠ "" → t ≠ "" →
                  d ≤ Nat.max (String.length s) (String.length t) - 1))
    as (d & Hd & Hmax & Hless).
  { destruct (decide (s = t)) as [->|Hst].
    { exists 0. rewrite levenshtein_refl. repeat split; lia. }
    destruct (decide (s = "")) as [->|Hs].
    { exists (String.length t). unfold levenshtein.
      apply String.eqb_neq in Hst as ->. simpl. repeat split; [lia|done]. }
    destruct (decide (t = "")) as [->|Ht].
    { exists (String.length s). unfold levenshtein.
      apply String.eqb_neq in Hst as ->.
      destruct s; [done|]. simpl. repeat split; [lia|done]. }
    exists (edit_distance (str_tail s) (str_tail t)).
    rewrite levenshtein_drops_first_chars by done.
    unfold edit_distance.
    pose proof (lev_prefix_bound (str_tail s) (str_tail t)
                  (String.length (str_tail s))
                  (String.length (str_tail t))) as Hb.
    rewrite !str_tail_length in *.
    repeat split; lia. }
  exists d. repeat split; try done.
  intros Hs Ht Hls Hlt. specialize (Hless Hs Ht).
  unfold EDIT_DISTANCE_THRESHOLD. lia.
Qed.

(** ** Strict-order comparison *)

Lemma strict_pairs_returns (L T : list string)
    (todo : list (string * string)) :
  ∀ rl rt u v : list string,
  rl ≡ₚ u ++ todo.*1 → rt ≡ₚ v ++ todo.*2 →
  ∃ e m, strict_pairs L T todo rl rt = Ok (e, m)
         ∧ ((e = L ∧ m = T)
            ∨ (e `sublist_of` rl ∧ m `sublist_of` rt
               ∧ length e + length rt = length m + length rl)).
Proof.
  induction todo as [|[x y] todo IH]; intros rl rt u v Hrl Hrt.
  { exists rl, rt. split; [done|]. right.
    split; [reflexivity|]. split; [reflexivity|lia]. }
  simpl in *. destruct (String.eqb x y) eqn:E.
  - apply string_eqb_true in E as <-.
    destruct (list_remove_elem_of x rl) as [rl' Hrl'].
    { rewrite Hrl, elem_of_app, elem_of_cons. auto. }
    destruct (list_remove_elem_of x rt) as [rt' Hrt'].
    { rewrite Hrt, elem_of_app, elem_of_cons. auto. }
    rewrite Hrl', Hrt'. simpl.
    pose proof (list_remove_sublist _ _ _ Hrl') as Hsl.
    pose proof (list_remove_sublist _ _ _ Hrt') as Hst.
    apply list_remove_ok in Hrl', Hrt'.
    destruct (IH rl' rt' u v) as (e & m & -> & Hres).
    + rewrite Hrl' in Hrl. rewrite <-Permutation_middle in Hrl.
      by apply Permutation_cons_inv in Hrl.
    + rewrite Hrt' in Hrt. rewrite <-Permutation_middle in Hrt.
      by apply Permutation_cons_inv in Hrt.
    + exists e, m. split; [done|].
      destruct Hres as [?|(He & Hm & Hlen)]; [by left|right].
      split; [by etrans|]. split; [by etrans|].
      apply Permutation_length in Hrl', Hrt'. simpl in *. lia.
  - destruct (levenshtein_total x y) as [d' ->]. simpl.
    case_decide; [exists L, T; split; [done|by left]|].
    apply (IH rl rt (u ++ [x]) (v ++ [y])); by rewrite <-app_assoc.
Qed.

(** X4. The strict comparison never raises, whatever the two lists: it
    returns two residues that are sub-sequences of the fragment and of
    the template, in their order, and of one length when the inputs
    are. *)
Theorem strict_check_returns (lines template_lines : list string) :
  ∃ extra missing,
    line_strict_check lines template_lines = Ok (extra, missing)
    ∧ block_strict_check lines template_lines = Ok (extra, missing)
    ∧ extra `sublist_of` lines
    ∧ missing `sublist_of` template_lines
    ∧ (length lines = length template_lines →
       length extra = length missing).
Proof.
  rewrite block_strict_check_eq.
  destruct (decide (length lines = length template_lines)) as [Hlen|Hlen].
  - rewrite line_strict_check_pairs by done.
    destruct (strict_pairs_returns lines template_lines
                (zip lines template_lines) lines template_lines [] [])
      as (e & m & Hrun & Hres); simpl.
    { by rewrite fst_zip by lia. }
    { by rewrite snd_zip by lia. }
    exists e, m. split; [done|]. split; [done|].
    destruct Hres as [[-> ->]|(He & Hm & Hl)]; repeat split; try done; lia.
  - exists lines, template_lines.
    unfold line_strict_check. rewrite decide_False by done.
    repeat split; done.
Qed.

Lemma strict_pairs_quiet (L T : list string)
    (todo : list (string * string)) :
  ∀ rl rt u v : list string,
  rl ≡ₚ u ++ todo.*1 → rt ≡ₚ v ++ todo.*2 →
  (∀ a b, (a, b) ∈ todo → a ≠ b →
          ∃ d, levenshtein a b = Ok d ∧ d ≤ EDIT_DISTANCE_THRESHOLD) →
  ∃ e m, strict_pairs L T todo rl rt = Ok (e, m)
         ∧ e ≡ₚ u ++ (filter (λ p, p.1 ≠ p.2) todo).*1
         ∧ m ≡ₚ v ++ (filter (λ p, p.1 ≠ p.2) todo).*2.
Proof.
  induction todo as [|[x y] todo IH]; intros rl rt u v Hrl Hrt Hquiet.
  { exists rl, rt. by rewrite !app_nil_r in *. }
  assert (∀ a b, (a, b) ∈ todo → a ≠ b →
                 ∃ d, levenshtein a b = Ok d ∧ d ≤ EDIT_DISTANCE_THRESHOLD)
    as Hquiet'.
  { intros a b Hab. apply Hquiet. by right. }
  simpl in Hrl, Hrt. cbn [strict_pairs].
  destruct (String.eqb x y) eqn:E.
  - apply string_eqb_true in E as <-.
    rewrite filter_cons_False by (simpl; by intros ?).
    destruct (list_remove_elem_of x rl) as [rl' Hrl'].
    { rewrite Hrl, elem_of_app, elem_of_cons. auto. }
    destruct (list_remove_elem_of x rt) as [rt' Hrt'].
    { rewrite Hrt, elem_of_app, elem_of_cons. auto. }
    rewrite Hrl', Hrt'. simpl.
    apply list_remove_ok in Hrl', Hrt'.
    apply IH; [| |done].
    + rewrite Hrl' in Hrl. rewrite <-Permutation_middle in Hrl.
      by apply Permutation_cons_inv in Hrl.
    + rewrite Hrt' in Hrt. rewrite <-Permutation_middle in Hrt.
      by apply Permutation_cons_inv in Hrt.
  - apply string_eqb_false in E.
    rewrite filter_cons_True by done.
    destruct (Hquiet x y) as (d & -> & Hd); [by left|done|].
    simpl. rewrite decide_False by lia.
    destruct (IH rl rt (u ++ [x]) (v ++ [y])) as (e & m & -> & He & Hm);
      [by rewrite <-app_assoc..|done|].
    exists e, m. split; [done|]. simpl.
    rewrite He, Hm. by rewrite <-!app_assoc.
Qed.

(** X5. When no pair of lines at one position is beyond the threshold,
    the strict comparison removes the identical pairs and nothing else:
    the residues are, up to order, the fragment lines and the template
    lines of the positions where the two lists differ. *)
Theorem strict_check_keeps_differing_pairs
    (lines template_lines : list string) :
  length lines = length template_lines →
  (∀ a b, (a, b) ∈ zip lines template_lines → a ≠ b →
          ∃ d, levenshtein a b = Ok d ∧ d ≤ EDIT_DISTANCE_THRESHOLD) →
  ∃ extra missing,
    line_strict_check lines template_lines = Ok (extra, missing)
    ∧ block_strict_check lines template_lines = Ok (extra, missing)
    ∧ extra
      ≡ₚ (filter (λ p, p.1 ≠ p.2) (zip lines template_lines)).*1
    ∧ missing
      ≡ₚ (filter (λ p, p.1 ≠ p.2) (zip lines template_lines)).*2.
Proof.
  intros Hlen Hquiet. rewrite block_strict_check_eq.
  rewrite line_strict_check_pairs by done.
  destruct (strict_pairs_quiet lines template_lines
              (zip lines template_lines) lines template_lines [] [])
    as (e & m & Hrun & He & Hm); simpl; [| |done|].
  { by rewrite fst_zip by lia. }
  { by rewrite snd_zip by lia. }
  by exists e, m.
Qed.

Lemma strict_check_keeps_differing_pairs_witness :
  ∃ extra missing,
    line_strict_check
      ["aaa new-model"; "aaa session-id common"; "aaa accounting"]
      ["aaa new-model"; "aaa session-id unique"; "aaa accounting"]
    = Ok (extra, missing)
    ∧ block_strict_check
        ["aaa new-model"; "aaa session-id common"; "aaa accounting"]
        ["aaa new-model"; "aaa session-id unique"; "aaa accounting"]
      = Ok (extra, missing)
    ∧ extra
      ≡ₚ (filter (λ p, p.1 ≠ p.2)
            (zip ["aaa new-model"; "aaa session-id common"; "aaa accounting"]
                 ["aaa new-model"; "aaa session-id unique";
                  "aaa accounting"])).*1
    ∧ missing
      ≡ₚ (filter (λ p, p.1 ≠ p.2)
            (zip ["aaa new-model"; "aaa session-id common"; "aaa accounting"]
                 ["aaa new-model"; "aaa session-id unique";
                  "aaa accounting"])).*2.
Proof.
  apply strict_check_keeps_differing_pairs.
  - reflexivity.
  - intros a b Hab Hne. simpl in Hab.
    apply elem_of_cons in Hab as [[= -> ->]|Hab]; [done|].
    apply elem_of_cons in Hab as [[= -> ->]|Hab].
    { exists 6. split; [reflexivity|]. unfold EDIT_DISTANCE_THRESHOLD. lia. }
    apply elem_of_cons in Hab as [[= -> ->]|Hab]; [done|].
    by apply elem_of_nil in Hab.
Defined.

(** ** Order-insensitive comparison *)

Lemma occurrences_elem_of (x : string) (l : list string) :
  0 < occurrences x l → x ∈ l.
Proof.
  induction l as [|y l IH]; [unfold occurrences; simpl; lia|].
  rewrite occurrences_cons. destruct (decide (x = y)) as [->|Hne].
  - intros _. by left.
  - intros H. right. apply IH. lia.
Qed.

Lemma list_remove_middle (y : string) (kept l : list string) :
  y ∉ kept → list_remove y (kept ++ y :: l) = Ok (kept ++ l).
Proof.
  induction kept as [|z kept IH]; simpl.
  - intros _. by rewrite String.eqb_refl.
  - intros [Hne Hy]%not_elem_of_cons.
    assert (z ≠ y) as ->%string_eqb_false by done.
    by rewrite IH.
Qed.

Lemma normal_loop_returns (T : list string) :
  ∀ todo rl rt u : list string,
  rl ≡ₚ u ++ todo →
  (∀ x, x ∈ T → occurrences x todo ≤ occurrences x rt) →
  ∃ e m, normal_loop T todo rl rt = Ok (e, m).
Proof.
  induction todo as [|y todo IH]; intros rl rt u Hrl Hcount; simpl.
  { by eexists _, _. }
  destruct (decide (y ∈ T)) as [Hy|Hy].
  - destruct (list_remove_elem_of y rl) as [rl' Hrl'].
    { rewrite Hrl, elem_of_app, elem_of_cons. auto. }
    destruct (list_remove_elem_of y rt) as [rt' Hrt'].
    { apply occurrences_elem_of. specialize (Hcount y Hy).
      rewrite occurrences_cons, decide_True in Hcount by done. lia. }
    rewrite Hrl', Hrt'. cbn [mbind res_bind].
    apply list_remove_ok in Hrl', Hrt'.
    apply (IH rl' rt' u).
    + rewrite Hrl' in Hrl. rewrite <-Permutation_middle in Hrl.
      by apply Permutation_cons_inv in Hrl.
    + intros x Hx. specialize (Hcount x Hx).
      rewrite (occurrences_perm x _ _ Hrt'), !occurrences_cons in Hcount.
      lia.
  - apply (IH rl rt (u ++ [y])); [by rewrite <-app_assoc|].
    intros x Hx. specialize (Hcount x Hx).
    rewrite occurrences_cons, decide_False in Hcount by (by intros ->).
    done.
Qed.

(** X6. The order-insensitive comparison returns exactly when no
    template line stands more often in the fragment than in the
    template; otherwise it raises ValueError. *)
Theorem normal_check_returns_iff (F T : list string) :
  ((∃ extra missing, line_normal_check F T = Ok (extra, missing))
   ↔ ∀ x, x ∈ T → occurrences x F ≤ occurrences x T)
  ∧ ((¬ ∀ x, x ∈ T → occurrences x F ≤ occurrences x T) →
     line_normal_check F T = Raise ValueError)
  ∧ block_normal_check F T = line_normal_check F T.
Proof.
  assert (∀ x, x ∈ T → ¬ occurrences x F ≤ occurrences x T →
               line_normal_check F T = Raise ValueError) as Hraise.
  { intros x Hx Hgt.
    apply (normal_loop_raises T x Hx F F T []); [done|lia]. }
  split; [split|split; [|done]].
  - intros (e & m & Hok) x Hx.
    destruct (decide (occurrences x F ≤ occurrences x T)) as [|Hgt]; [done|].
    by rewrite (Hraise x Hx Hgt) in Hok.
  - intros Hcount. by apply (normal_loop_returns T F F T []).
  - intros Hnot.
    destruct (decide (Forall (λ x, occurrences x F ≤ occurrences x T) T))
      as [Hall|Hnall].
    + destruct Hnot. intros x Hx. rewrite Forall_forall in Hall. by apply Hall.
    + apply not_Forall_Exists in Hnall; [|apply _].
      apply Exists_exists in Hnall as (x & Hx & Hgt). by apply (Hraise x).
Qed.

Lemma normal_loop_exact (T : list string) :
  ∀ todo kept rt e m : list string,
  Forall (.∉ T) kept →
  normal_loop T todo (kept ++ todo) rt = Ok (e, m) →
  e = kept ++ filter (.∉ T) todo ∧ m `sublist_of` rt.
Proof.
  induction todo as [|y todo IH]; intros kept rt e m Hkept; simpl.
  { intros [= <- <-]. done. }
  destruct (decide (y ∈ T)) as [Hy|Hy].
  - rewrite list_remove_middle.
    2:{ intros Hin. rewrite Forall_forall in Hkept. by apply (Hkept y). }
    cbn [mbind res_bind].
    destruct (list_remove y rt) as [rt'|] eqn:Hrt; [|done].
    cbn [mbind res_bind]. intros [-> Hm]%IH; [|done].
    rewrite filter_cons_False by (by intros ?). split; [done|].
    etrans; [done|]. by apply (list_remove_sublist y).
  - rewrite cons_middle, app_assoc. intros [-> Hm]%IH.
    + rewrite filter_cons_True by done. by rewrite <-app_assoc.
    + apply Forall_app. split; [done|]. by repeat constructor.
Qed.

(** X7. When the order-insensitive comparison returns, [extra] is
    exactly the fragment lines that are nowhere in the template, in
    their order, and [missing] is a sub-sequence of the template that,
    together with the matched fragment lines, makes up the template. *)
Theorem normal_check_result (F T extra missing : list string) :
  line_normal_check F T = Ok (extra, missing) →
  block_normal_check F T = Ok (extra, missing)
  ∧ extra = filter (.∉ T) F
  ∧ missing `sublist_of` T
  ∧ T ≡ₚ missing ++ filter (.∈ T) F.
Proof.
  intros Hok. split; [by rewrite block_normal_check_eq|].
  destruct (normal_loop_exact T F [] T extra missing) as [He Hm]; [done..|].
  destruct (normal_loop_ok T F F T extra missing Hok) as [_ HT].
  done.
Qed.

Lemma normal_check_result_witness :
  block_normal_check
    ["no ip http server"; "ip ssh version 2"; "logging buffered 4096"]
    ["ip ssh version 2"; "no ip http server"; "service timestamps";
     "ip ssh version 2"]
  = Ok (["logging buffered 4096"], ["service timestamps"; "ip ssh version 2"])
  ∧ ["logging buffered 4096"]
    = filter (.∉ ["ip ssh version 2"; "no ip http server";
                  "service timestamps"; "ip ssh version 2"])
        ["no ip http server"; "ip ssh version 2"; "logging buffered 4096"]
  ∧ ["service timestamps"; "ip ssh version 2"]
    `sublist_of` ["ip ssh version 2"; "no ip http server";
                  "service timestamps"; "ip ssh version 2"]
  ∧ ["ip ssh version 2"; "no ip http server"; "service timestamps";
     "ip ssh version 2"]
    ≡ₚ ["service timestamps"; "ip ssh version 2"]
       ++ filter (.∈ ["ip ssh version 2"; "no ip http server";
                      "service timestamps"; "ip ssh version 2"])
            ["no ip http server"; "ip ssh version 2";
             "logging buffered 4096"].
Proof.
  apply normal_check_result. reflexivity.
Defined.

Lemma filter_all {A : Type} (P : A → Prop) `{∀ x, Decision (P x)}
    (l : list A) :
  (∀ x, x ∈ l → P x) → filter P l = l.
Proof.
  induction l as [|x l IH]; intros Hall; [done|].
  rewrite filter_cons_True by (apply Hall; by left).
  f_equal. apply IH. intros y Hy. apply Hall. by right.
Qed.

Lemma filter_none {A : Type} (P : A → Prop) `{∀ x, Decision (P x)}
    (l : list A) :
  (∀ x, x ∈ l → ¬ P x) → filter P l = [].
Proof.
  induction l as [|x l IH]; intros Hnone; [done|].
  rewrite filter_cons_False by (apply Hnone; by left).
  apply IH. intros y Hy. apply Hnone. by right.
Qed.

Lemma normal_check_perm (bl tl : list string) :
  bl ≡ₚ tl → line_normal_check bl tl = Ok ([], []).
Proof.
  intros Hperm.
  destruct (normal_loop_returns tl bl bl tl []) as (e & m & Hok); [done| |].
  { intros x _. by rewrite (occurrences_perm x _ _ Hperm). }
  unfold line_normal_check. rewrite Hok.
  destruct (normal_loop_exact tl bl [] tl e m) as [He _]; [done..|].
  destruct (normal_loop_ok tl bl bl tl e m Hok) as [_ Hm].
  assert (filter (.∈ tl) bl = bl) as Hall.
  { apply filter_all. intros x Hx. by rewrite <-Hperm. }
  assert (filter (.∉ tl) bl = []) as Hnone.
  { apply filter_none. intros x Hx Hnot. apply Hnot. by rewrite <-Hperm. }
  rewrite Hall in Hm. simpl in He. rewrite Hnone in He. subst e.
  apply Permutation_length in Hm, Hperm. rewrite length_app in Hm.
  destruct m; [done|]. simpl in Hm. lia.
Qed.

(** ** Block-mode comparison *)

Section BlockComparison.

Context {regex : Type}.
Context (re_compile : string → res regex).
Context (re_match re_search : regex → string → bool).
Context (py_hash : string → Z).

(** X8. With content in the block, the comparison writes to no list
    that existed before it: the template's lines, the block's content
    and every other list object are as they were, and the two residues
    are new, distinct list objects. *)
Theorem present_block_writes_nothing_old (block : Block)
    (template : Template) (compare_args ignore_lines : list string)
    (σ σ' : store) (B T : list string) (extra missing : loc) :
  σ !! b_content block = Some B → B ≠ [] →
  σ !! t_content template = Some T →
  block_check_equal re_compile re_search py_hash
    block template compare_args ignore_lines σ
  = Ok ((extra, missing), σ') →
  (∀ r, r < length σ → σ' !! r = σ !! r)
  ∧ σ' !! b_content block = Some B
  ∧ σ' !! t_content template = Some T
  ∧ length σ ≤ extra ∧ length σ ≤ missing ∧ extra ≠ missing.
Proof.
  intros HB Hne HT.
  destruct (block_check_equal_present_run re_compile re_search py_hash
              block template compare_args ignore_lines σ B T HB Hne HT)
    as (σ1 & Hpre & ->).
  destruct (present_block_residues _ _ _ _ _ _ _ _) as [[e m]|]; [|done].
  intros [= <- <- <-].
  assert (∀ r, r < length σ → (σ1 ++ [e; m]) !! r = σ !! r) as Hold.
  { intros r Hr. destruct (lookup_lt_is_Some_2 σ r Hr) as [l Hl].
    rewrite Hl. apply lookup_app_l_Some. by eapply prefix_lookup_Some. }
  pose proof (prefix_length _ _ Hpre) as Hlen.
  split; [done|]. split.
  { rewrite Hold; [done|]. by eapply lookup_lt_Some. }
  split.
  { rewrite Hold; [done|]. by eapply lookup_lt_Some. }
  repeat split; lia.
Qed.

(** X9. A block that differs from the template only in lines the
    ignore patterns take out leaves both residues empty: after the
    filtering, equal lists under [strict_order], or lists equal up to
    order without it, compare as equal. *)
Theorem ignored_differences_leave_no_residue (block : Block)
    (template : Template) (compare_args ignore_lines : list string)
    (σ : store) (B T bl tl : list string) :
  let strict_mode := bool_decide (COMPARE_ARG_STRICT ∈ compare_args) in
  let F := fragment_lines block B
             (bool_decide (COMPARE_ARG_KEEP_START ∈ compare_args))
             (bool_decide (COMPARE_ARG_KEEP_END ∈ compare_args)) in
  σ !! b_content block = Some B → B ≠ [] →
  σ !! t_content template = Some T →
  filter_ignore_lines re_compile re_search F T ignore_lines = Ok (bl, tl) →
  (if strict_mode then bl = tl else bl ≡ₚ tl) →
  ∃ extra missing σ',
    block_check_equal re_compile re_search py_hash
      block template compare_args ignore_lines σ
    = Ok ((extra, missing), σ')
    ∧ σ' !! extra = Some [] ∧ σ' !! missing = Some [].
Proof.
  intros strict_mode F HB Hne HT Hfilter Hsame.
  destruct (block_check_equal_present_run re_compile re_search py_hash
              block template compare_args ignore_lines σ B T HB Hne HT)
    as (σ1 & Hpre & ->).
  assert (present_block_residues re_compile re_search py_hash
            (b_start block) F T strict_mode ignore_lines = Ok ([], []))
    as Hres.
  { unfold present_block_residues.
    destruct (is_hash_equal _ _ _ _); [done|].
    rewrite Hfilter. destruct strict_mode.
    - subst tl. rewrite block_strict_check_eq.
      by rewrite strict_check_identical.
    - rewrite block_normal_check_eq.
      by rewrite normal_check_perm. }
  fold F strict_mode. rewrite Hres.
  eexists _, _, _. split; [done|]. split.
  - by rewrite lookup_app_r, Nat.sub_diag by lia.
  - rewrite lookup_app_r by lia.
    by replace (S (length σ1) - length σ1) with 1 by lia.
Qed.

End BlockComparison.

Lemma present_block_writes_nothing_old_witness :
  (∀ r, r < 2 →
        [["switchport mode access"; "description uplink";
          "spanning-tree portfast"];
         ["switchport mode access"; "description access port"; "no shutdown"];
         ["interface FastEthernet1/0/2@!!@spanning-tree portfast"];
         ["interface FastEthernet1/0/2@!!@no shutdown"]] !! r
        = [["switchport mode access"; "description uplink";
            "spanning-tree portfast"];
           ["switchport mode access"; "description access port";
            "no shutdown"]] !! r)
  ∧ [["switchport mode access"; "description uplink";
      "spanning-tree portfast"];
     ["switchport mode access"; "description access port"; "no shutdown"];
     ["interface FastEthernet1/0/2@!!@spanning-tree portfast"];
     ["interface FastEthernet1/0/2@!!@no shutdown"]] !! 0
    = Some ["switchport mode access"; "description uplink";
            "spanning-tree portfast"]
  ∧ [["switchport mode access"; "description uplink";
      "spanning-tree portfast"];
     ["switchport mode access"; "description access port"; "no shutdown"];
     ["interface FastEthernet1/0/2@!!@spanning-tree portfast"];
     ["interface FastEthernet1/0/2@!!@no shutdown"]] !! 1
    = Some ["switchport mode access"; "description access port";
            "no shutdown"]
  ∧ 2 ≤ 2 ∧ 2 ≤ 3 ∧ 2 ≠ 3.
Proof.
  apply (present_block_writes_nothing_old lit_compile lit_search digits_hash
           (mkBlock "interface FastEthernet1/0/2" None 0)
           (mkTemplate "access_r1.j2" 1) [] ["description"]
           [["switchport mode access"; "description uplink";
             "spanning-tree portfast"];
            ["switchport mode access"; "description access port";
             "no shutdown"]]
           _
           ["switchport mode access"; "description uplink";
            "spanning-tree portfast"]
           ["switchport mode access"; "description access port";
            "no shutdown"]
           2 3
           ltac:(reflexivity) ltac:(discriminate) ltac:(reflexivity)
           ltac:(vm_compute; reflexivity)).
Defined.

Lemma ignored_differences_leave_no_residue_witness :
  ∃ extra missing σ',
    block_check_equal lit_compile lit_search digits_hash
      (mkBlock "interface FastEthernet1/0/2" None 0)
      (mkTemplate "access_r1.j2" 1)
      [] ["switchport access vlan"; "switchport voice vlan"; "description"]
      [["description uplink to core"; "switchport access vlan 10";
        "spanning-tree portfast"; "switchport mode access"];
       ["switchport mode access"; "switchport access vlan 20";
        "switchport voice vlan 30"; "spanning-tree portfast"]]
    = Ok ((extra, missing), σ')
    ∧ σ' !! extra = Some [] ∧ σ' !! missing = Some [].
Proof.
  apply (ignored_differences_leave_no_residue lit_compile lit_search
           digits_hash
           (mkBlock "interface FastEthernet1/0/2" None 0)
           (mkTemplate "access_r1.j2" 1)
           [] ["switchport access vlan"; "switchport voice vlan"; "description"]
           _
           ["description uplink to core"; "switchport access vlan 10";
            "spanning-tree portfast"; "switchport mode access"]
           ["switchport mode access"; "switchport access vlan 20";
            "switchport voice vlan 30"; "spanning-tree portfast"]
           ["spanning-tree portfast"; "switchport mode access"]
           ["switchport mode access"; "spanning-tree portfast"]).
  - reflexivity.
  - discriminate.
  - reflexivity.
  - vm_compute. reflexivity.
  - simpl. apply Permutation_swap.
Defined.

(** ** Block extraction, found and not found *)

Lemma list_index_not_elem_of (x : string) (l : list string) :
  x ∉ l → list_index x l = Raise ValueError.
Proof.
  induction l as [|y l IH]; [done|]. simpl.
  intros [Hne Hx]%not_elem_of_cons.
  assert (y ≠ x) as ->%string_eqb_false by done.
  by rewrite IH.
Qed.

Lemma keep_from_ext_ge {A : Type} (p1 p2 : list nat) (l : list A) :
  ∀ k, (∀ j, k ≤ j → j ∈ p1 ↔ j ∈ p2) →
       keep_from k p1 l = keep_from k p2 l.
Proof.
  induction l as [|x l IH]; intros k Hiff; simpl; [done|].
  rewrite (IH (S k)) by (intros j Hj; apply Hiff; lia).
  destruct (decide (k ∈ p1)) as [H1|H1].
  - by rewrite decide_True by (by apply Hiff).
  - by rewrite decide_False by (by rewrite <-Hiff).
Qed.

Lemma keep_from_seq_here {A : Type} (mid post : list A) :
  ∀ k, keep_from k (seq k (length mid)) (mid ++ post) = post.
Proof.
  induction mid as [|y mid IH]; intros k; simpl.
  - apply keep_from_below. constructor.
  - rewrite decide_True by (by left).
    etrans; [|apply (IH (S k))]. apply keep_from_ext_ge.
    intros j Hj. rewrite elem_of_cons. split; [|by right].
    intros [->|?]; [lia|done].
Qed.

(** Taking a run of consecutive positions out of a list. *)
Lemma remove_positions_seq {A : Type} (pre mid post : list A) :
  remove_positions (seq (length pre) (length mid)) (pre ++ mid ++ post)
  = pre ++ post.
Proof.
  unfold remove_positions.
  assert (∀ k, keep_from k (seq (k + length pre) (length mid))
                 (pre ++ mid ++ post) = pre ++ post) as H.
  { induction pre as [|x pre IH]; intros k; simpl.
    - rewrite Nat.add_0_r. apply keep_from_seq_here.
    - rewrite decide_False by (rewrite elem_of_seq; lia).
      f_equal. replace (k + S (length pre)) with (S k + length pre) by lia.
      apply IH. }
  apply (H 0).
Qed.

Section BlockExtractionResults.

Context {regex : Type}.
Context (re_compile : string → res regex).
Context (re_match re_search : regex → string → bool).
Context (py_hash : string → Z).

(** A line that does not end the block starts with white space. *)
Lemma not_end_of_block_line (line search_end : string) :
  is_end_of_block re_compile re_match line search_end = Ok false →
  whitespace_start line = true ∧ line ≠ "".
Proof.
  unfold is_end_of_block. intros H.
  assert (whitespace_start line = true) as Hw.
  { destruct (String.eqb search_end "").
    - injection H as H. by destruct (whitespace_start line).
    - destruct (re_compile search_end); [|done]. simpl in H.
      injection H as H. by destruct (whitespace_start line). }
  split; [done|]. by intros ->.
Qed.

(** The scan up to the first line that ends the block. *)
Lemma block_scan_stops (block : Block) (search_end : string)
    (body : list string) (stop : string) (post : list string) :
  Forall (λ line, is_end_of_block re_compile re_match line search_end
                  = Ok false) body →
  is_end_of_block re_compile re_match stop search_end = Ok true →
  ∀ (index : nat) (delete_indices : list nat) (σ : store)
    (content : list string),
  σ !! b_content block = Some content →
  block_scan re_compile re_match block search_end (body ++ stop :: post)
    index delete_indices σ
  = Ok ((index + length body,
         delete_indices ++ seq index (length body)),
        <[b_content block := content ++ (strip <$> body)]> σ).
Proof.
  intros Hbody Hstop.
  induction Hbody as [|line body Hline Hbody IH];
    intros index del σ content Hc; simpl.
  - rewrite run_bind. unfold lift at 1. rewrite Hstop, run_ret.
    rewrite !app_nil_r, Nat.add_0_r. by rewrite list_insert_id.
  - rewrite run_bind. unfold lift at 1. rewrite Hline, run_bind.
    destruct (not_end_of_block_line _ _ Hline) as [_ Hne].
    unfold Block_add_content_line.
    apply string_eqb_false in Hne as ->. unfold append.
    rewrite (list_lookup_total_correct _ _ _ Hc).
    rewrite (IH (index + 1) (del ++ [index]) _ (content ++ [strip line])).
    2:{ apply list_lookup_insert_eq. by apply lookup_lt_Some in Hc. }
    rewrite list_insert_insert_eq, <-!app_assoc. simpl.
    do 3 f_equal; [lia|]. by replace (index + 1) with (S index) by lia.
Qed.

(** X10. A start marker that is nowhere in the configuration: the
    extraction returns the configuration as it was and a block without
    content, and the comparison of that block reports every template
    line as missing, tagged, with nothing extra. *)
Theorem absent_block_reported_missing (config_lines : list string)
    (search_start search_end : string) (template : Template)
    (compare_args ignore_lines : list string) (σ : store)
    (T : list string) :
  search_start ∉ config_lines →
  σ !! t_content template = Some T →
  ∃ block σ1 extra missing σ2,
    extract_block re_compile re_match config_lines search_start search_end σ
    = Ok ((block, config_lines), σ1)
    ∧ b_start block = search_start ∧ b_end block = None
    ∧ σ1 !! b_content block = Some []
    ∧ block_check_equal re_compile re_search py_hash
        block template compare_args ignore_lines σ1
      = Ok ((extra, missing), σ2)
    ∧ σ2 !! extra = Some []
    ∧ σ2 !! missing
      = Some ((λ line, search_start +:+ "@!!@" +:+ line) <$> T).
Proof.
  intros Hstart HT.
  change (λ line, search_start +:+ "@!!@" +:+ line)
    with (tag search_start).
  exists (mkBlock search_start None (length σ)), (σ ++ [[]]).
  pose proof (lookup_lt_Some _ _ _ HT) as Hlt.
  assert ((σ ++ [[]]) !! length σ = Some []) as HB
    by apply store_lookup_new.
  assert ((σ ++ [[]]) !! t_content template = Some T) as HT1
    by (by apply lookup_app_l_Some).
  eexists _, _, _. split; [|split; [done|split; [done|split; [done|]]]].
  - unfold extract_block. rewrite run_bind. unfold Block_init.
    rewrite run_bind, new_list_run, run_ret.
    by rewrite list_index_not_elem_of.
  - split.
    { by apply (block_check_equal_absent_run re_compile re_search py_hash
                  (mkBlock search_start None (length σ)) template). }
    simpl. split.
    + rewrite lookup_app_r; rewrite length_insert; [|lia].
      by rewrite Nat.sub_diag.
    + apply lookup_app_l_Some. rewrite list_lookup_insert_eq; [done|].
      rewrite length_app. simpl. lia.
Qed.

(** X11. A block that is found and ended by a line of the
    configuration: the block's content is the stripped lines between
    the start marker and the ending line; the configuration returned is
    the original one without the start marker and those lines, and
    without the ending line too when it is the end token, which is then
    the block's end marker. *)
Theorem extract_block_found (pre body post : list string)
    (search_start search_end stop : string) (σ : store) :
  search_start ∉ pre →
  Forall (λ line, is_end_of_block re_compile re_match line search_end
                  = Ok false) body →
  is_end_of_block re_compile re_match stop search_end = Ok true →
  extract_block re_compile re_match
    (pre ++ search_start :: body ++ stop :: post)
    search_start search_end σ
  = Ok ((mkBlock search_start
           (if String.eqb stop search_end && negb (String.eqb search_end "")
            then Some search_end else None)
           (length σ),
         pre ++ (if String.eqb stop search_end then post else stop :: post)),
        σ ++ [strip <$> body]).
Proof.
  intros Hpre Hbody Hstop. unfold extract_block.
  rewrite run_bind. unfold Block_init.
  rewrite run_bind, new_list_run, run_ret.
  rewrite (list_index_app _ _ _ Hpre).
  replace (drop (length pre + 1) (pre ++ search_start :: body ++ stop :: post))
    with (body ++ stop :: post).
  2:{ rewrite (cons_middle search_start pre), app_assoc.
      rewrite drop_app_length'; [done|]. rewrite length_app. simpl. lia. }
  rewrite run_bind.
  rewrite (block_scan_stops (mkBlock search_start None (length σ))
             search_end body stop post Hbody Hstop _ _ _ []
             (store_lookup_new σ [])).
  simpl b_content.
  rewrite insert_app_r_alt, Nat.sub_diag by lia. simpl.
  rewrite run_bind. unfold lift at 1.
  assert ((pre ++ search_start :: body ++ stop :: post)
            !! (length pre + 1 + length body) = Some stop) as Hget.
  { rewrite (cons_middle search_start pre), !app_assoc.
    rewrite lookup_app_r; rewrite !length_app; simpl; [|lia].
    by replace (length pre + 1 + length body - (length pre + 1 + length body))
      with 0 by lia. }
  apply getitem_ok in Hget as ->.
  assert (∀ n, length pre :: seq (length pre + 1) n = seq (length pre) (S n))
    as Hseq.
  { intros n. simpl. by replace (length pre + 1) with (S (length pre)) by lia. }
  destruct (String.eqb stop search_end) eqn:E.
  - apply string_eqb_true in E as ->.
    rewrite run_bind. unfold lift at 1.
    assert (length pre
            :: seq (length pre + 1) (length body)
               ++ [length pre + 1 + length body]
            = seq (length pre) (length (search_start :: body ++ [search_end])))
      as ->.
    { simpl. rewrite length_app. simpl.
      replace (length body + 1) with (S (length body)) by lia.
      rewrite (seq_S (length body)).
      by replace (S (length pre)) with (length pre + 1) by lia. }
    rewrite delete_all_NoDup.
    + replace (pre ++ search_start :: body ++ search_end :: post)
        with (pre ++ (search_start :: body ++ [search_end]) ++ post).
      2:{ simpl. by rewrite <-app_assoc. }
      rewrite remove_positions_seq, run_ret.
      unfold Block_set_end. simpl.
      by destruct (String.eqb search_end "").
    + apply NoDup_seq.
    + apply Forall_forall. intros j Hj%elem_of_seq.
      rewrite !length_app in *. simpl in *. rewrite !length_app in *.
      simpl in *. lia.
  - rewrite run_bind. unfold lift at 1. simpl.
    assert (length pre :: seq (length pre + 1) (length body)
            = seq (length pre) (length (search_start :: body))) as ->.
    { by rewrite Hseq. }
    rewrite delete_all_NoDup.
    + replace (pre ++ search_start :: body ++ stop :: post)
        with (pre ++ (search_start :: body) ++ stop :: post) by done.
      by rewrite remove_positions_seq, run_ret.
    + apply NoDup_seq.
    + apply Forall_forall. intros j Hj%elem_of_seq.
      rewrite !length_app in *. simpl in *. rewrite !length_app in *.
      simpl in *. lia.
Qed.

End BlockExtractionResults.

Lemma absent_block_reported_missing_witness :
  ∃ block σ1 extra missing σ2,
    extract_block lit_compile lit_match
      ["hostname r1"; "line vty 0 4"] "interface FastEthernet1/0/2" "!"
      [["switchport mode access"; "no shutdown"]]
    = Ok ((block, ["hostname r1"; "line vty 0 4"]), σ1)
    ∧ b_start block = "interface FastEthernet1/0/2" ∧ b_end block = None
    ∧ σ1 !! b_content block = Some []
    ∧ block_check_equal lit_compile lit_search digits_hash
        block (mkTemplate "access_r1.j2" 0) [] ["description"] σ1
      = Ok ((extra, missing), σ2)
    ∧ σ2 !! extra = Some []
    ∧ σ2 !! missing
      = Some ["interface FastEthernet1/0/2@!!@switchport mode access";
              "interface FastEthernet1/0/2@!!@no shutdown"].
Proof.
  change ["interface FastEthernet1/0/2@!!@switchport mode access";
          "interface FastEthernet1/0/2@!!@no shutdown"]
    with ((λ line, "interface FastEthernet1/0/2" +:+ "@!!@" +:+ line)
            <$> ["switchport mode access"; "no shutdown"]).
  apply (absent_block_reported_missing lit_compile lit_match lit_search
           digits_hash ["hostname r1"; "line vty 0 4"]
           "interface FastEthernet1/0/2" "!" (mkTemplate "access_r1.j2" 0)).
  - apply (bool_decide_unpack _). vm_compute. exact I.
  - reflexivity.
Defined.

Lemma extract_block_found_witness :
  extract_block lit_compile lit_match
    (["hostname r1"]
     ++ "interface FastEthernet1/0/2"
        :: [" switchport mode access"; " no shutdown "]
        ++ "!" :: ["line vty 0 4"])
    "interface FastEthernet1/0/2" "!" []
  = Ok ((mkBlock "interface FastEthernet1/0/2"
           (if String.eqb "!" "!" && negb (String.eqb "!" "")
            then Some "!" else None)
           (length ([] : store)),
         ["hostname r1"]
         ++ (if String.eqb "!" "!" then ["line vty 0 4"]
             else "!" :: ["line vty 0 4"])),
        [] ++ [strip <$> [" switchport mode access"; " no shutdown "]]).
Proof.
  apply (extract_block_found lit_compile lit_match).
  - apply (bool_decide_unpack _). vm_compute. exact I.
  - repeat constructor.
  - reflexivity.
Defined.

(** ** Line extraction keeps count *)

Lemma delete_loop_length (indices : list nat) :
  ∀ config_lines remaining : list string,
  for_each indices (λ index config_lines, delitem config_lines index)
    config_lines = Ok remaining →
  length remaining + length indices = length config_lines.
Proof.
  induction indices as [|i indices IH]; intros config_lines remaining;
    cbn [for_each].
  - intros [= ->]. simpl. lia.
  - destruct (delitem config_lines i) as [config_lines'|] eqn:Hdel; [|done].
    cbn [mbind res_bind]. intros H. apply IH in H.
    unfold delitem in Hdel. case_decide as Hi; [|done].
    injection Hdel as <-.
    rewrite length_delete in H by (by apply lookup_lt_is_Some_2).
    simpl. lia.
Qed.

(** Every deletion that succeeds takes one line out, also when a
    position was recorded twice. *)
Lemma delete_all_length (delete_indices : list nat)
    (config_lines remaining : list string) :
  delete_all delete_indices config_lines = Ok remaining →
  length remaining + length delete_indices = length config_lines.
Proof.
  unfold delete_all. intros H. apply delete_loop_length in H.
  rewrite length_reverse in H. unfold sorted_nat in H.
  by rewrite (Permutation_length (merge_sort_Permutation _ _)) in H.
Qed.

Section LineExtractionCount.

Context {regex : Type}.
Context (re_compile : string → res regex).
Context (re_match : regex → string → bool).

(** A round of the scan records as many positions as it collects
    lines. *)
Lemma extract_lines_body_lengths (config_lines : list string) (r : regex)
    (it : nat * string) (found_lines found_lines' : list string)
    (delete_indices delete_indices' : list nat) :
  extract_lines_body re_match config_lines r it
    (found_lines, delete_indices)
  = Ok (found_lines', delete_indices') →
  length found_lines = length delete_indices →
  length found_lines' = length delete_indices'.
Proof.
  destruct it as [i line]. unfold extract_lines_body.
  destruct (getitem config_lines i) as [current|]; [|done].
  cbn [mbind res_bind].
  destruct (re_match r line && negb _); [|by intros [= <- <-]].
  destruct (endswith (strip line) "@").
  - rewrite extract_additional_lines_spec. intros [= <- <-] Hlen.
    rewrite !length_app, length_seq. simpl. lia.
  - intros [= <- <-] Hlen. rewrite !length_app. simpl. lia.
Qed.

Lemma extract_lines_scan_lengths (config_lines : list string) (r : regex)
    (todo : list (nat * string)) :
  ∀ (found_lines found_lines' : list string)
    (delete_indices delete_indices' : list nat),
  for_each todo (extract_lines_body re_match config_lines r)
    (found_lines, delete_indices)
  = Ok (found_lines', delete_indices') →
  length found_lines = length delete_indices →
  length found_lines' = length delete_indices'.
Proof.
  induction todo as [|it todo IH]; intros found found' del del'; simpl.
  - by intros [= <- <-].
  - destruct (extract_lines_body _ _ _ _ _) as [[f1 d1]|] eqn:Hbody; [|done].
    cbn [mbind res_bind]. intros Hrest Hlen.
    apply (IH _ _ _ _ Hrest).
    by apply (extract_lines_body_lengths _ _ _ _ _ _ _ Hbody).
Qed.

(** X12. Whenever line-mode extraction returns, the lines it extracted
    and the lines it left make up the count of the configuration it was
    given: as many lines are removed as are returned in the fragment. *)
Theorem extract_lines_keeps_count (config_lines : list string)
    (search_start search_end : string)
    (found_lines remaining_config : list string) :
  extract_lines re_compile re_match config_lines search_start search_end
  = Ok (found_lines, remaining_config) →
  length found_lines + length remaining_config = length config_lines.
Proof.
  unfold extract_lines.
  destruct (re_compile search_start) as [r|]; [|done]. cbn [mbind res_bind].
  destruct (for_each _ _ _) as [[found del]|] eqn:Hscan; [|done].
  cbn [mbind res_bind].
  destruct (delete_all del config_lines) as [remaining|] eqn:Hdel; [|done].
  cbn [mbind res_bind]. intros [= <- <-].
  apply delete_all_length in Hdel.
  apply extract_lines_scan_lengths in Hscan; [|done]. lia.
Qed.

End LineExtractionCount.

Lemma extract_lines_keeps_count_witness :
  length ["aaa new-model"; "aaa session-id common"]
  + length ["hostname r1"; "interface Vlan1"; " no ip address"; "!"]
  = length ["hostname r1"; "aaa new-model"; "interface Vlan1";
            " no ip address"; "!"; "aaa session-id common"].
Proof.
  apply (extract_lines_keeps_count lit_compile lit_match
           ["hostname r1"; "aaa new-model"; "interface Vlan1";
            " no ip address"; "!"; "aaa session-id common"] "aaa" "!").
  vm_compute. reflexivity.
Defined.

(** ** Line extraction without sentinel lines *)

Lemma filter_ext_in {A : Type} (P Q : A → Prop)
    `{∀ x, Decision (P x)} `{∀ x, Decision (Q x)} (l : list A) :
  (∀ x, x ∈ l → P x ↔ Q x) → filter P l = filter Q l.
Proof.
  induction l as [|x l IH]; intros Hiff; [done|].
  rewrite !filter_cons, IH by (intros y Hy; apply Hiff; by right).
  destruct (decide (P x)) as [HP|HP].
  - by rewrite decide_True by (apply Hiff; [by left|done]).
  - rewrite decide_False; [done|]. intros HQ. apply HP, Hiff; [by left|done].
Qed.

Lemma keep_from_filter {A : Type} (positions : list nat) (rest : list A) :
  ∀ k, keep_from k positions rest
       = (filter (λ p, p.1 ∉ positions) (zip (seq k (length rest)) rest)).*2.
Proof.
  induction rest as [|x rest IH]; intros k; simpl; [done|].
  rewrite filter_cons. simpl. rewrite IH.
  destruct (decide (k ∈ positions)) as [Hk|Hk].
  - by rewrite decide_False by (by intros ?).
  - by rewrite decide_True.
Qed.

Section LineExtractionPartition.

Context {regex : Type}.
Context (re_compile : string → res regex).
Context (re_match : regex → string → bool).

Lemma extract_lines_scan_plain (config_lines : list string) (r : regex)
    (todo : list (nat * string)) :
  (∀ it, it ∈ todo → config_lines !! it.1 = Some it.2) →
  (∀ it, it ∈ todo → qualifies re_match config_lines r it = true →
         endswith (strip it.2) "@" = false) →
  ∀ (found_lines : list string) (delete_indices : list nat),
  for_each todo (extract_lines_body re_match config_lines r)
    (found_lines, delete_indices)
  = Ok (found_lines
          ++ ((λ it, strip it.2)
                <$> filter (λ it, qualifies re_match config_lines r it) todo),
        delete_indices
          ++ (filter (λ it, qualifies re_match config_lines r it) todo).*1).
Proof.
  induction todo as [|[i line] todo IH]; intros Hin Hplain found del.
  { simpl. by rewrite !app_nil_r. }
  assert (∀ it, it ∈ todo → config_lines !! it.1 = Some it.2) as Hin'.
  { intros it Hit. apply Hin. by right. }
  assert (∀ it, it ∈ todo → qualifies re_match config_lines r it = true →
                endswith (strip it.2) "@" = false) as Hplain'.
  { intros it Hit. apply Hplain. by right. }
  pose proof (Hin (i, line) ltac:(by left)) as Hi. simpl in Hi.
  apply getitem_ok in Hi.
  cbn [for_each]. rewrite filter_cons.
  destruct (qualifies re_match config_lines r (i, line)) eqn:Hq.
  - assert (extract_lines_body re_match config_lines r (i, line) (found, del)
            = Ok (found ++ [strip line], del ++ [i])) as ->.
    { pose proof (Hplain (i, line) ltac:(by left) Hq) as Hs. simpl in Hs.
      unfold qualifies in Hq. simpl in Hq.
      unfold extract_lines_body. rewrite Hi. cbn [mbind res_bind].
      by rewrite Hq, Hs. }
    cbn [mbind res_bind]. rewrite decide_True by done.
    rewrite IH by done. simpl. by rewrite <-!app_assoc.
  - assert (extract_lines_body re_match config_lines r (i, line) (found, del)
            = Ok (found, del)) as ->.
    { unfold qualifies in Hq. simpl in Hq.
      unfold extract_lines_body. rewrite Hi. cbn [mbind res_bind].
      by rewrite Hq. }
    cbn [mbind res_bind]. rewrite decide_False by (by intros ?).
    by rewrite IH.
Qed.

(** X13. When no qualifying line is a sentinel line, line-mode
    extraction splits the configuration in two, in order: the fragment
    is the stripped qualifying lines and the configuration returned is
    all the other lines, unchanged. *)
Theorem extract_lines_partition (config_lines : list string)
    (search_start search_end : string) (r : regex) :
  re_compile search_start = Ok r →
  (∀ it, it ∈ enumerate config_lines →
         qualifies re_match config_lines r it = true →
         endswith (strip it.2) "@" = false) →
  extract_lines re_compile re_match config_lines search_start search_end
  = Ok ((λ it, strip it.2)
          <$> filter (λ it, qualifies re_match config_lines r it)
                (enumerate config_lines),
        (filter (λ it, ¬ qualifies re_match config_lines r it)
           (enumerate config_lines)).*2).
Proof.
  intros Hr Hplain. unfold extract_lines. rewrite Hr. cbn [mbind res_bind].
  rewrite (extract_lines_scan_plain config_lines r (enumerate config_lines));
    [|by intros [i l] ?%elem_of_enumerate|done].
  cbn [mbind res_bind]. simpl.
  set (Q := λ it, qualifies re_match config_lines r it).
  assert (filter Q (enumerate config_lines)
          `sublist_of` enumerate config_lines) as Hsub
    by apply sublist_filter.
  rewrite delete_all_NoDup.
  - cbn [mbind res_bind]. do 2 f_equal.
    unfold remove_positions. rewrite keep_from_filter. f_equal.
    apply filter_ext_in. intros [i l] Hil. simpl. split.
    + intros Hnot HQ. apply Hnot. apply list_elem_of_fmap.
      exists (i, l). split; [done|]. by apply list_elem_of_filter.
    + intros HnQ ([i' l'] & Hi & [HQ' Hin']%list_elem_of_filter)%list_elem_of_fmap.
      simpl in Hi. subst i'.
      apply elem_of_enumerate in Hil, Hin'. by simplify_eq.
  - apply (sublist_NoDup _ (enumerate config_lines).*1);
      [|apply (fmap_sublist fst _ _ Hsub)].
    unfold enumerate. rewrite fst_zip by (by rewrite length_seq).
    apply NoDup_seq.
  - apply Forall_forall.
    intros i ([i' l] & -> & [_ Hin]%list_elem_of_filter)%list_elem_of_fmap.
    apply elem_of_enumerate in Hin. by apply lookup_lt_Some in Hin.
Qed.

End LineExtractionPartition.

Lemma extract_lines_partition_witness :
  extract_lines lit_compile lit_match
    ["hostname r1"; "aaa new-model "; "interface Vlan1"; " no ip address";
     "!"; "aaa session-id common"]
    "aaa" "!"
  = Ok ((λ it, strip it.2)
          <$> filter (λ it,
                        qualifies lit_match
                          ["hostname r1"; "aaa new-model "; "interface Vlan1";
                           " no ip address"; "!"; "aaa session-id common"]
                          "aaa" it)
                (enumerate
                   ["hostname r1"; "aaa new-model "; "interface Vlan1";
                    " no ip address"; "!"; "aaa session-id common"]),
        (filter (λ it,
                   ¬ qualifies lit_match
                       ["hostname r1"; "aaa new-model "; "interface Vlan1";
                        " no ip address"; "!"; "aaa session-id common"]
                       "aaa" it)
           (enumerate
              ["hostname r1"; "aaa new-model "; "interface Vlan1";
               " no ip address"; "!"; "aaa session-id common"])).*2).
Proof.
  apply (extract_lines_partition lit_compile lit_match).
  - reflexivity.
  - intros it Hit Hq. vm_compute in Hit.
    repeat (apply elem_of_cons in Hit as [->|Hit]; [by vm_compute|]).
    by apply elem_of_nil in Hit.
Defined.

(** ** Global comparison, what it returns *)

Lemma occurrences_not_elem_of (x : string) (l : list string) :
  x ∉ l → occurrences x l = 0.
Proof.
  intros Hx. destruct (occurrences x l) as [|n] eqn:E; [done|].
  destruct Hx. apply occurrences_elem_of. lia.
Qed.

Lemma filter_zip_snd {A : Type} (P : A → Prop) `{∀ x, Decision (P x)}
    (l : list A) :
  ∀ k, (filter (λ p, P p.2) (zip (seq k (length l)) l)).*2 = filter P l.
Proof.
  induction l as [|x l IH]; intros k; simpl; [done|].
  rewrite !filter_cons. simpl.
  destruct (decide (P x)); simpl; by rewrite IH.
Qed.

(** Deleting the positions a test selects leaves the entries the test
    rejects. *)
Lemma delete_all_selected (Q : nat * string → Prop)
    `{∀ it, Decision (Q it)} (config_lines : list string) :
  delete_all (filter Q (enumerate config_lines)).*1 config_lines
  = Ok (filter (λ it, ¬ Q it) (enumerate config_lines)).*2.
Proof.
  assert (filter Q (enumerate config_lines)
          `sublist_of` enumerate config_lines) as Hsub
    by apply sublist_filter.
  rewrite delete_all_NoDup.
  - f_equal. unfold remove_positions. rewrite keep_from_filter. f_equal.
    apply filter_ext_in. intros [i l] Hil. simpl. split.
    + intros Hnot HQ. apply Hnot. apply list_elem_of_fmap.
      exists (i, l). split; [done|]. by apply list_elem_of_filter.
    + intros HnQ ([i' l'] & Hi & [HQ' Hin']%list_elem_of_filter)%list_elem_of_fmap.
      simpl in Hi. subst i'.
      apply elem_of_enumerate in Hil, Hin'. by simplify_eq.
  - apply (sublist_NoDup _ (enumerate config_lines).*1);
      [|apply (fmap_sublist fst _ _ Hsub)].
    unfold enumerate. rewrite fst_zip by (by rewrite length_seq).
    apply NoDup_seq.
  - apply Forall_forall.
    intros i ([i' l] & -> & [_ Hin]%list_elem_of_filter)%list_elem_of_fmap.
    apply elem_of_enumerate in Hin. by apply lookup_lt_Some in Hin.
Qed.

Lemma check_global_body_spec (template_lines : list string) (i : nat)
    (line : string) (delete_indices : list nat) (remaining : list string) :
  remaining ⊆ template_lines →
  ∃ remaining',
    check_global_body template_lines (i, line) (delete_indices, remaining)
    = Ok (delete_indices
            ++ (if decide (strip line ∈ template_lines) then [i] else []),
          remaining')
    ∧ remaining' `sublist_of` remaining
    ∧ ∀ x, occurrences x remaining'
           = occurrences x remaining
             - (if decide (x = strip line) then 1 else 0).
Proof.
  intros Hsub. unfold check_global_body. cbv zeta.
  destruct (decide (strip line ∈ template_lines)) as [Hin|Hin].
  - destruct (decide (strip line ∈ remaining)) as [Hrem|Hrem].
    + destruct (list_remove_elem_of _ _ Hrem) as [rem' Hrem'].
      rewrite Hrem'. cbn [mbind res_bind]. exists rem'.
      split; [done|]. split; [by apply (list_remove_sublist (strip line))|].
      intros x. apply list_remove_ok in Hrem'.
      rewrite (occurrences_perm x _ _ Hrem'), occurrences_cons. lia.
    + exists remaining. split; [done|]. split; [done|]. intros x.
      destruct (decide (x = strip line)) as [->|]; [|lia].
      rewrite occurrences_not_elem_of by done. lia.
  - exists remaining. rewrite app_nil_r. split; [done|]. split; [done|].
    intros x. destruct (decide (x = strip line)) as [->|]; [|lia].
    rewrite occurrences_not_elem_of; [lia|]. intros Hrem. by apply Hin, Hsub.
Qed.

Lemma check_global_scan_spec (template_lines rest : list string) :
  ∀ (k : nat) (delete_indices : list nat) (remaining : list string),
  remaining ⊆ template_lines →
  ∃ remaining',
    for_each (zip (seq k (length rest)) rest)
      (check_global_body template_lines) (delete_indices, remaining)
    = Ok (delete_indices
            ++ (filter (λ it, strip it.2 ∈ template_lines)
                  (zip (seq k (length rest)) rest)).*1,
          remaining')
    ∧ remaining' `sublist_of` remaining
    ∧ ∀ x, occurrences x remaining'
           = occurrences x remaining - occurrences x (strip <$> rest).
Proof.
  induction rest as [|line rest IH]; intros k del rem Hsub.
  - simpl. exists rem. rewrite app_nil_r. split; [done|]. split; [done|].
    intros x. unfold occurrences. simpl. lia.
  - cbn [length seq zip zip_with for_each].
    destruct (check_global_body_spec template_lines k line del rem Hsub)
      as (rem1 & -> & Hsl1 & Hocc1).
    cbn [mbind res_bind].
    destruct (IH (S k) (del ++ (if decide (strip line ∈ template_lines)
                                then [k] else [])) rem1)
      as (rem2 & -> & Hsl2 & Hocc2).
    { etrans; [by apply sublist_subseteq|done]. }
    exists rem2. split.
    + f_equal. f_equal. rewrite filter_cons. simpl.
      destruct (decide (strip line ∈ template_lines)); simpl;
        by rewrite <-app_assoc.
    + split; [by etrans|]. intros x.
      rewrite Hocc2, Hocc1, fmap_cons, occurrences_cons. lia.
Qed.

(** X14. Global comparison never raises and never reports an extra
    line: it returns the configuration without the lines whose stripped
    form is a template line, in order, and leaves the template as it
    was. *)
Theorem check_global_result (config_lines : list string)
    (template : Template) (compare_method : string)
    (compare_args : list string) (σ : store) (T : list string) :
  σ !! t_content template = Some T →
  ∃ missing,
    check_global config_lines template compare_method compare_args σ
    = Ok (([], missing, filter (λ line, strip line ∉ T) config_lines), σ).
Proof.
  intros HT. unfold check_global.
  rewrite run_bind. unfold Template_get_content. rewrite run_ret.
  rewrite run_bind, (load_run _ _ _ HT).
  destruct (check_global_scan_spec T config_lines 0 [] T)
    as (rem & Hscan & _); [done|].
  pose proof (delete_all_selected (λ it, strip it.2 ∈ T) config_lines)
    as Hdel.
  unfold enumerate in Hdel.
  rewrite run_bind. unfold lift at 1, enumerate. rewrite Hscan.
  rewrite app_nil_l, run_bind. unfold lift at 1. rewrite Hdel.
  rewrite run_ret. exists rem. do 3 f_equal.
  rewrite <-(filter_zip_snd (λ line, strip line ∉ T) config_lines 0).
  done.
Qed.

(** X15. The lines global comparison reports missing are a
    sub-sequence of the template that holds each line as often as the
    template has it beyond the stripped configuration: a template line
    the configuration holds at least as often is not reported. *)
Theorem check_global_missing (config_lines : list string)
    (template : Template) (compare_method : string)
    (compare_args : list string) (σ : store) (T : list string) :
  σ !! t_content template = Some T →
  ∃ missing remaining_config,
    check_global config_lines template compare_method compare_args σ
    = Ok (([], missing, remaining_config), σ)
    ∧ missing `sublist_of` T
    ∧ ∀ x, occurrences x missing
           = occurrences x T - occurrences x (strip <$> config_lines).
Proof.
  intros HT. unfold check_global.
  rewrite run_bind. unfold Template_get_content. rewrite run_ret.
  rewrite run_bind, (load_run _ _ _ HT).
  destruct (check_global_scan_spec T config_lines 0 [] T)
    as (rem & Hscan & Hsub & Hocc); [done|].
  pose proof (delete_all_selected (λ it, strip it.2 ∈ T) config_lines)
    as Hdel.
  unfold enumerate in Hdel.
  rewrite run_bind. unfold lift at 1, enumerate. rewrite Hscan.
  rewrite app_nil_l, run_bind. unfold lift at 1. rewrite Hdel.
  rewrite run_ret. by eexists _, _.
Qed.

Lemma check_global_result_witness :
  ∃ missing,
    check_global
      ["hostname r1"; " no ip http server"; "!"; "ip ssh version 2"; "!"]
      (mkTemplate "global.j2" 0) "equals" []
      [["no ip http server"; "!"; "logging buffered 4096"]]
    = Ok (([], missing,
           filter (λ line,
                     strip line
                     ∉ ["no ip http server"; "!"; "logging buffered 4096"])
             ["hostname r1"; " no ip http server"; "!"; "ip ssh version 2";
              "!"]),
          [["no ip http server"; "!"; "logging buffered 4096"]]).
Proof.
  apply (check_global_result _ (mkTemplate "global.j2" 0)). reflexivity.
Defined.

Lemma check_global_missing_witness :
  ∃ missing remaining_config,
    check_global
      ["hostname r1"; " no ip http server"; "!"; "ip ssh version 2"; "!"]
      (mkTemplate "global.j2" 0) "equals" []
      [["no ip http server"; "!"; "logging buffered 4096"]]
    = Ok (([], missing, remaining_config),
          [["no ip http server"; "!"; "logging buffered 4096"]])
    ∧ missing
      `sublist_of` ["no ip http server"; "!"; "logging buffered 4096"]
    ∧ ∀ x, occurrences x missing
           = occurrences x ["no ip http server"; "!"; "logging buffered 4096"]
             - occurrences x
                 (strip <$> ["hostname r1"; " no ip http server"; "!";
                             "ip ssh version 2"; "!"]).
Proof.
  apply (check_global_missing _ (mkTemplate "global.j2" 0)). reflexivity.
Defined.

(** ** Block-line extraction *)

Lemma lstrip_head (s : string) :
  lstrip s = "" ∨ ∃ c s', lstrip s = String c s' ∧ is_space c = false.
Proof.
  induction s as [|c s IH]; simpl; [by left|].
  destruct (is_space c) eqn:Hc; [done|]. right. by exists c, s.
Qed.

Lemma rstrip_head (c : ascii) (s : string) :
  is_space c = false → ∃ r, rstrip (String c s) = String c r.
Proof.
  intros Hc. simpl. destruct (rstrip s) as [|c' r]; rewrite ?Hc; by eexists.
Qed.

(** A stripped line starts with no blank character, so the test
    [line.startswith("\n")] on a stripped line is never met. *)
Lemma strip_not_startswith_LF (line : string) :
  startswith (strip line) LF = false.
Proof.
  unfold strip. destruct (lstrip_head line) as [->|(c & s' & -> & Hc)];
    [done|].
  destruct (rstrip_head c s' Hc) as [r ->].
  unfold startswith, LF. cbn [String.prefix].
  destruct (ascii_dec _ c) as [<-|]; [|done]. by vm_compute in Hc.
Qed.

Lemma indented_body_cons (p line : string) (rest : list string) :
  indented_body p (line :: rest)
  = if startswith line p then line :: indented_body p rest
    else if startswith (strip line) "!" then [line] else [].
Proof.
  unfold indented_body. simpl. by destruct (startswith line p).
Qed.

Lemma indented_body_prefix (p : string) (rest : list string) :
  indented_body p rest `prefix_of` rest.
Proof.
  induction rest as [|line rest IH]; [done|].
  rewrite indented_body_cons. destruct (startswith line p).
  - by apply prefix_cons.
  - destruct (startswith _ _); [|apply prefix_nil].
    by apply prefix_cons, prefix_nil.
Qed.

Lemma additional_loop2_spec (start_index : nat) (p : string)
    (rest : list string) :
  ∀ (k : nat) (extra_indices : list nat) (extra_lines : list string),
  additional_loop2 start_index p (zip (seq k (length rest)) rest)
    extra_indices extra_lines
  = (extra_indices ++ seq (k + start_index) (length (indented_body p rest)),
     extra_lines ++ (strip <$> indented_body p rest)).
Proof.
  induction rest as [|line rest IH]; intros k idx lines.
  - simpl. by rewrite !app_nil_r.
  - cbn [length seq zip zip_with additional_loop2].
    rewrite indented_body_cons. destruct (startswith line p); cbn [negb].
    + rewrite IH. cbn [length seq fmap list_fmap].
      by rewrite <-!app_assoc.
    + rewrite strip_not_startswith_LF, orb_false_r.
      destruct (startswith (strip line) "!"); [done|].
      simpl. by rewrite !app_nil_r.
Qed.

Lemma extract_additional_lines2_run (before rest : list string)
    (p : string) (start_index : nat) :
  start_index = length before →
  extract_additional_lines2 (before ++ rest) start_index p
  = (seq start_index (length (indented_body p rest)),
     strip <$> indented_body p rest).
Proof.
  intros ->. unfold extract_additional_lines2, enumerate.
  rewrite drop_app_length. by rewrite additional_loop2_spec.
Qed.

(** X16. [extract_additional_lines2] takes a head segment of the lines
    from [start_index] on: the run of lines that start with
    [search_until] and, after the run, one more line when its stripped
    form starts with an exclamation mark (the line-feed alternative of
    that test is never met).  It returns these lines stripped and their
    positions, which are consecutive from [start_index]. *)
Theorem extract_additional_lines2_result (config_lines : list string)
    (start_index : nat) (search_until : string) :
  extract_additional_lines2 config_lines start_index search_until
  = (seq start_index
       (length (indented_body search_until (drop start_index config_lines))),
     strip <$> indented_body search_until (drop start_index config_lines))
  ∧ indented_body search_until (drop start_index config_lines)
    `prefix_of` drop start_index config_lines.
Proof.
  split; [|apply indented_body_prefix].
  unfold extract_additional_lines2, enumerate.
  by rewrite additional_loop2_spec.
Qed.

Section BlockLineExtraction.

Context {regex : Type}.
Context (re_compile : string → res regex).
Context (re_match : regex → string → bool).

(** The scan passes over lines the start pattern does not match. *)
Lemma extract_block_lines_scan_skip (config_lines : list string)
    (r : regex) (todo : list (nat * string))
    (acc : list string * list nat) :
  (∀ it, it ∈ todo → re_match r it.2 = false) →
  for_each todo (extract_block_lines_body re_match config_lines r) acc
  = Ok acc.
Proof.
  induction todo as [|[i line] todo IH]; intros Hno; [done|].
  cbn [for_each]. destruct acc as [found del].
  pose proof (Hno (i, line) ltac:(by left)) as Hline. simpl in Hline.
  assert (extract_block_lines_body re_match config_lines r (i, line)
            (found, del) = Ok (found, del)) as ->
    by (unfold extract_block_lines_body; by rewrite Hline).
  cbn [mbind res_bind].
  apply IH. intros it Hit. apply Hno. by right.
Qed.

Lemma extract_block_lines_header (pre rest : list string)
    (header : string) (r : regex) (found_lines : list string)
    (delete_indices : list nat) :
  re_match r header = true →
  endswith (strip header) "@" = false →
  extract_block_lines_body re_match (pre ++ header :: rest) r
    (length pre, header) (found_lines, delete_indices)
  = Ok (found_lines ++ strip header :: (strip <$> block_body rest),
        delete_indices ++ seq (length pre) (S (length (block_body rest)))).
Proof.
  intros Hm Hat. unfold extract_block_lines_body. rewrite Hm, Hat.
  rewrite length_app. cbn [length].
  destruct rest as [|next_line rest].
  - cbn [length]. rewrite (proj2 (Nat.leb_le _ _)) by lia. done.
  - cbn [length]. rewrite (proj2 (Nat.leb_gt _ _)) by lia. cbn [negb].
    unfold getitem. rewrite lookup_app_r by lia.
    replace (length pre + 1 - length pre) with 1 by lia.
    cbn [lookup list_lookup mbind res_bind]. unfold block_body.
    destruct (startswith next_line " ") eqn:Hsp.
    + rewrite (cons_middle header pre), app_assoc.
      rewrite (extract_additional_lines2_run (pre ++ [header]))
        by (rewrite length_app; simpl; lia).
      rewrite <-!app_assoc. cbn [seq app].
      by replace (length pre + 1) with (S (length pre)) by lia.
    + done.
Qed.

(** X17. Block-line extraction of a single block.  When the start
    pattern matches one line of the configuration and no other, and that
    header line does not end with the at-sign once stripped, the
    extraction returns the stripped header followed by the stripped body
    (the lines after the header taken by [block_body]) and leaves the
    lines before the header and the lines after the body, unchanged and
    in order. *)
Theorem extract_block_lines_single_block (pre rest : list string)
    (header search_start search_end : string) (r : regex) :
  re_compile search_start = Ok r →
  re_match r header = true →
  (∀ line, line ∈ pre ++ rest → re_match r line = false) →
  endswith (strip header) "@" = false →
  extract_block_lines re_compile re_match (pre ++ header :: rest)
    search_start search_end
  = Ok (strip header :: (strip <$> block_body rest),
        pre ++ drop (length (block_body rest)) rest).
Proof.
  intros Hr Hm Hno Hat. unfold extract_block_lines. rewrite Hr.
  cbn [mbind res_bind].
  assert (block_body rest `prefix_of` rest) as [post Hpost].
  { unfold block_body. destruct rest as [|next_line rest]; [done|].
    destruct (startswith next_line " ");
      [apply indented_body_prefix|apply prefix_nil]. }
  assert (enumerate (pre ++ header :: rest)
          = enumerate pre ++ (length pre, header)
              :: zip (seq (S (length pre)) (length rest)) rest) as ->.
  { unfold enumerate. rewrite length_app, seq_app. cbn [length seq].
    rewrite zip_with_app by (by rewrite length_seq). done. }
  rewrite for_each_app, extract_block_lines_scan_skip.
  2:{ intros [i line] Hit. apply Hno. rewrite elem_of_app. left.
      apply elem_of_enumerate in Hit. by eapply list_elem_of_lookup_2. }
  cbn [mbind res_bind for_each].
  rewrite (extract_block_lines_header pre rest header r [] [] Hm Hat).
  cbn [mbind res_bind]. rewrite extract_block_lines_scan_skip.
  2:{ intros [i line] Hit. apply Hno. rewrite elem_of_app. right.
      apply elem_of_zip_r in Hit. done. }
  cbn [mbind res_bind]. rewrite !app_nil_l.
  rewrite delete_all_NoDup.
  - cbn [mbind res_bind]. do 2 f_equal.
    generalize dependent (block_body rest). intros body ->.
    rewrite drop_app_length.
    apply (remove_positions_seq pre (header :: body) post).
  - apply NoDup_seq.
  - apply Forall_forall. intros i Hi%elem_of_seq.
    apply (f_equal length) in Hpost.
    rewrite length_app in Hpost. rewrite length_app. cbn [length]. lia.
Qed.

End BlockLineExtraction.

Lemma extract_block_lines_single_block_witness :
  extract_block_lines lit_compile lit_match
    (["hostname r1"]
     ++ "interface Vlan1"
        :: [" ip address 10.0.0.1 255.255.255.0"; " no shutdown"; "!";
            "line vty 0 4"])
    "interface" ""
  = Ok (strip "interface Vlan1"
          :: (strip <$> block_body
                [" ip address 10.0.0.1 255.255.255.0"; " no shutdown"; "!";
                 "line vty 0 4"]),
        ["hostname r1"]
        ++ drop (length (block_body
                   [" ip address 10.0.0.1 255.255.255.0"; " no shutdown";
                    "!"; "line vty 0 4"]))
             [" ip address 10.0.0.1 255.255.255.0"; " no shutdown"; "!";
              "line vty 0 4"]).
Proof.
  apply (extract_block_lines_single_block lit_compile lit_match)
    with (r := "interface").
  - reflexivity.
  - reflexivity.
  - intros line Hin. simpl in Hin.
    repeat (apply elem_of_cons in Hin as [->|Hin]; [reflexivity|]).
    by apply elem_of_nil in Hin.
  - reflexivity.
Defined.

Section BlockLineExtractionCount.

Context {regex : Type}.
Context (re_compile : string → res regex).
Context (re_match : regex → string → bool).

Lemma extract_block_lines_body_lengths (config_lines : list string)
    (r : regex) (it : nat * string) (found_lines found_lines' : list string)
    (delete_indices delete_indices' : list nat) :
  extract_block_lines_body re_match config_lines r it
    (found_lines, delete_indices)
  = Ok (found_lines', delete_indices') →
  length found_lines = length delete_indices →
  length found_lines' = length delete_indices'.
Proof.
  destruct it as [i line]. unfold extract_block_lines_body.
  destruct (re_match r line); [|by intros [= <- <-]].
  destruct (endswith (strip line) "@").
  { rewrite extract_additional_lines_spec. intros [= <- <-] Hlen.
    rewrite !length_app, length_seq. simpl. lia. }
  destruct (negb _).
  - destruct (getitem config_lines (i + 1)) as [next_line|]; [|done].
    cbn [mbind res_bind]. destruct (startswith next_line " ").
    + unfold extract_additional_lines2, enumerate.
      rewrite additional_loop2_spec. intros [= <- <-] Hlen.
      rewrite !length_app, length_seq, length_fmap. simpl. lia.
    + intros [= <- <-] Hlen. rewrite !length_app. simpl. lia.
  - intros [= <- <-] Hlen. rewrite !length_app. simpl. lia.
Qed.

Lemma extract_block_lines_scan_lengths (config_lines : list string)
    (r : regex) (todo : list (nat * string)) :
  ∀ (found_lines found_lines' : list string)
    (delete_indices delete_indices' : list nat),
  for_each todo (extract_block_lines_body re_match config_lines r)
    (found_lines, delete_indices)
  = Ok (found_lines', delete_indices') →
  length found_lines = length delete_indices →
  length found_lines' = length delete_indices'.
Proof.
  induction todo as [|it todo IH]; intros found found' del del';
    cbn [for_each].
  - by intros [= <- <-].
  - destruct (extract_block_lines_body _ _ _ _ _) as [[f1 d1]|] eqn:Hbody;
      [|done].
    cbn [mbind res_bind]. intros Hrest Hlen.
    apply (IH _ _ _ _ Hrest).
    by apply (extract_block_lines_body_lengths _ _ _ _ _ _ _ Hbody).
Qed.

(** X18. Whenever block-line extraction returns, the lines it
    extracted and the lines it left make up the count of the
    configuration it was given, also when the start pattern matches a
    line inside a body and that line is recorded twice. *)
Theorem extract_block_lines_keeps_count (config_lines : list string)
    (search_start search_end : string)
    (found_lines remaining_config : list string) :
  extract_block_lines re_compile re_match config_lines search_start
    search_end
  = Ok (found_lines, remaining_config) →
  length found_lines + length remaining_config = length config_lines.
Proof.
  unfold extract_block_lines.
  destruct (re_compile search_start) as [r|]; [|done]. cbn [mbind res_bind].
  destruct (for_each _ _ _) as [[found del]|] eqn:Hscan; [|done].
  cbn [mbind res_bind].
  destruct (delete_all del config_lines) as [remaining|] eqn:Hdel; [|done].
  cbn [mbind res_bind]. intros [= <- <-].
  apply delete_all_length in Hdel.
  apply extract_block_lines_scan_lengths in Hscan; [|done]. lia.
Qed.

End BlockLineExtractionCount.

Lemma extract_block_lines_keeps_count_witness :
  length ["no a"; "no b"; "no b"] + length ["interface Vlan1"; "y"]
  = length ["interface Vlan1"; " no a"; " no b"; "x"; "y"].
Proof.
  apply (extract_block_lines_keeps_count lit_compile lit_match _ " no" "").
  vm_compute. reflexivity.
Defined.

(** ** Command synthesis *)

Lemma after_last_None (d s : string) :
  occurs_in d s = false → after_last d s = None.
Proof.
  induction s as [|c s IH]; [done|].
  cbn [occurs_in after_last]. intros [Hp Hs]%orb_false_iff.
  by rewrite (IH Hs), Hp.
Qed.

Lemma substring_all (s : string) : substring 0 (String.length s) s = s.
Proof. induction s as [|c s IH]; simpl; [done|]. by rewrite IH. Qed.

Lemma prefix_empty (s : string) : String.prefix "" s = true.
Proof. by destruct s. Qed.

Lemma prefix_app_same (d s : string) : String.prefix d (d +:+ s) = true.
Proof.
  induction d as [|c d IH]; [apply prefix_empty|].
  change (String c d +:+ s) with (String c (d +:+ s)).
  cbn [String.prefix]. by destruct (ascii_dec c c).
Qed.

(** The delimiter a tag puts in front of a line is the last one of the
    tagged line when none starts later. *)
Lemma after_last_tag (start line : string) :
  occurs_in LINE_DELIMITER ("!!@" +:+ line) = false →
  after_last LINE_DELIMITER (tag start line) = Some line.
Proof.
  intros Hfree. unfold tag. induction start as [|c start IH].
  - change ("" +:+ LINE_DELIMITER +:+ line)
      with (String "@" ("!!@" +:+ line)).
    cbn [after_last]. rewrite (after_last_None _ _ Hfree).
    change (String "@" ("!!@" +:+ line)) with (LINE_DELIMITER +:+ line).
    rewrite prefix_app_same. unfold LINE_DELIMITER. simpl.
    rewrite Nat.sub_0_r. by rewrite substring_all.
  - change (String c start +:+ LINE_DELIMITER +:+ line)
      with (String c (start +:+ LINE_DELIMITER +:+ line)).
    cbn [after_last]. by rewrite IH.
Qed.

Lemma occurs_in_app_r (p s t : string) :
  occurs_in p (s +:+ t) = false → occurs_in p t = false.
Proof.
  induction s as [|c s IH]; [done|].
  change (String c s +:+ t) with (String c (s +:+ t)).
  cbn [occurs_in]. intros [_ H]%orb_false_iff. by apply IH.
Qed.

Lemma segments_LF_free (s : string) :
  occurs_in LF s = false → segments s = [s].
Proof.
  induction s as [|c s IH]; [done|].
  cbn [occurs_in segments]. intros [Hp Hs]%orb_false_iff.
  rewrite (IH Hs). unfold LF in Hp. cbn [String.prefix] in Hp.
  rewrite prefix_empty in Hp.
  destruct (Ascii.eqb_spec c (ascii_of_nat 10)) as [->|]; [|done].
  by destruct (ascii_dec _ _).
Qed.

Lemma occurs_in_LF_app (s t : string) :
  occurs_in LF s = false → occurs_in LF t = false →
  occurs_in LF (s +:+ t) = false.
Proof.
  intros Hs Ht. induction s as [|c s IH]; [done|].
  change (String c s +:+ t) with (String c (s +:+ t)).
  cbn [occurs_in] in *. apply orb_false_iff in Hs as [Hp Hs].
  rewrite (IH Hs), orb_false_r.
  unfold LF in *. cbn [String.prefix] in *.
  destruct (ascii_dec _ c); [|done]. by rewrite prefix_empty in Hp.
Qed.

Lemma remove_delimiter_tag (start line : string) :
  occurs_in LF start = false →
  occurs_in LF line = false →
  occurs_in LINE_DELIMITER ("!!@" +:+ line) = false →
  remove_delimiter (tag start line) = line.
Proof.
  intros Hstart Hline Hfree. unfold remove_delimiter.
  rewrite segments_LF_free.
  - cbn [fmap list_fmap join_lf]. unfold untagged.
    by rewrite after_last_tag.
  - unfold tag. apply occurs_in_LF_app; [done|].
    by apply occurs_in_LF_app.
Qed.

(** X19. Tagging and untagging.  A residue line that block comparison
    tagged with the block start and the delimiter comes back as it was
    in [expected_commands], provided the block start and the line hold
    no line feed and no delimiter starts inside the line or across its
    front. *)
Theorem expected_commands_untag (start : string) (lines : list string) :
  occurs_in LF start = false →
  Forall (λ line, occurs_in LF line = false
                  ∧ occurs_in LINE_DELIMITER ("!!@" +:+ line) = false)
    lines →
  expected_commands (tag start <$> lines) = lines.
Proof.
  intros Hstart Hlines. unfold expected_commands.
  induction Hlines as [|line lines [Hlf Hfree] _ IH]; [done|].
  cbn [fmap list_fmap] in *. rewrite IH.
  by rewrite remove_delimiter_tag.
Qed.

Lemma expected_commands_untag_witness :
  expected_commands
    (tag "interface Vlan1" <$> ["ip address 10.0.0.1 255.255.255.0";
                                "no shutdown"])
  = ["ip address 10.0.0.1 255.255.255.0"; "no shutdown"].
Proof.
  apply expected_commands_untag; [reflexivity|].
  repeat constructor.
Defined.

Lemma not_expected_loop_spec (parsed acc : list string) :
  foldl (λ not_expected_commands line,
           if negb (String.eqb line "") then
             if negb (startswith line "no ") then
               not_expected_commands ++ ["no " +:+ line]
             else not_expected_commands ++ [line]
           else not_expected_commands)
    acc parsed
  = acc ++ (negated <$> filter (λ line, line ≠ "") parsed).
Proof.
  revert acc. induction parsed as [|line parsed IH]; intros acc.
  - simpl. by rewrite app_nil_r.
  - cbn [foldl]. rewrite IH, filter_cons.
    destruct (String.eqb_spec line "") as [->|Hne]; cbn [negb].
    + by rewrite decide_False by (by intros []).
    + rewrite decide_True by done. cbn [fmap list_fmap].
      unfold negated at 2.
      destruct (startswith line "no "); cbn [negb];
        by rewrite <-app_assoc.
Qed.

Lemma negated_startswith (line : string) :
  startswith (negated line) "no " = true.
Proof.
  unfold negated. destruct (startswith line "no ") eqn:E; [done|].
  unfold startswith. simpl. apply prefix_empty.
Qed.

(** X20. Every command synthesised for a line that is not expected
    starts with ["no "], so none is empty, and there are no more
    commands than lines. *)
Theorem not_expected_commands_negations (too_much : list string) :
  Forall (λ command, startswith command "no " = true)
    (not_expected_commands too_much)
  ∧ length (not_expected_commands too_much) ≤ length too_much.
Proof.
  unfold not_expected_commands. cbv zeta.
  rewrite not_expected_loop_spec, app_nil_l. split.
  - apply Forall_fmap, Forall_forall. intros line _.
    apply negated_startswith.
  - rewrite length_fmap.
    etrans; [apply length_filter|]. by rewrite length_fmap.
Qed.

Lemma after_last_None_inv (a : ascii) (d s : string) :
  after_last (String a d) s = None → occurs_in (String a d) s = false.
Proof.
  induction s as [|c s IH]; [done|].
  cbn [after_last occurs_in].
  destruct (after_last (String a d) s); [done|].
  destruct (String.prefix (String a d) (String c s)); [done|].
  intros _. by rewrite IH.
Qed.

Lemma prefix_decompose (d s : string) :
  String.prefix d s = true →
  s = d +:+ substring (String.length d) (String.length s - String.length d) s.
Proof.
  revert s. induction d as [|a d IH]; intros s.
  - intros _. simpl. by rewrite Nat.sub_0_r, substring_all.
  - destruct s as [|c s]; [done|]. cbn [String.prefix].
    destruct (ascii_dec a c) as [->|]; [|done]. intros H.
    cbn [String.length Nat.sub substring].
    change (String c d +:+ ?t) with (String c (d +:+ t)).
    f_equal. by apply IH.
Qed.

(** What [after_last] returns follows the delimiter in the string and
    holds no delimiter. *)
Lemma after_last_Some (a : ascii) (d s r : string) :
  after_last (String a d) s = Some r →
  (∃ pre, s = pre +:+ String a d +:+ r)
  ∧ occurs_in (String a d) r = false.
Proof.
  revert r. induction s as [|c s IH]; intros r; [done|].
  cbn [after_last].
  destruct (after_last (String a d) s) as [r'|] eqn:Hlast.
  - intros [= <-]. destruct (IH r' eq_refl) as [[pre ->] Hfree].
    split; [by exists (String c pre)|done].
  - destruct (String.prefix (String a d) (String c s)) eqn:Hp; [|done].
    intros [= <-]. apply prefix_decompose in Hp.
    split; [by exists ""|].
    apply after_last_None_inv in Hlast.
    cbn [String.length Nat.sub substring] in Hp |- *.
    remember (substring _ _ s) as r eqn:Hr. clear Hr.
    change (String a d +:+ r) with (String a (d +:+ r)) in Hp.
    injection Hp as _ ->. by apply occurs_in_app_r in Hlast.
Qed.

Lemma untagged_fixed (seg : string) : untagged (untagged seg) = untagged seg.
Proof.
  unfold untagged at 2 3. unfold LINE_DELIMITER.
  destruct (after_last _ seg) as [r|] eqn:Hlast; simpl.
  - apply after_last_Some in Hlast as [_ Hfree].
    unfold untagged, LINE_DELIMITER. by rewrite (after_last_None _ _ Hfree).
  - unfold untagged, LINE_DELIMITER. by rewrite Hlast.
Qed.

Lemma untagged_LF_free (seg : string) :
  occurs_in LF seg = false → occurs_in LF (untagged seg) = false.
Proof.
  unfold untagged, LINE_DELIMITER.
  destruct (after_last _ seg) as [r|] eqn:Hlast; simpl; [|done].
  apply after_last_Some in Hlast as [[pre ->] _]. intros H.
  by apply occurs_in_app_r, occurs_in_app_r in H.
Qed.

Lemma segments_LF_char (s : string) :
  segments (String (ascii_of_nat 10) s) = "" :: segments s.
Proof. reflexivity. Qed.

Lemma LF_free_cons (c : ascii) (s : string) :
  occurs_in LF (String c s) = false
  ↔ c ≠ ascii_of_nat 10 ∧ occurs_in LF s = false.
Proof.
  cbn [occurs_in]. unfold LF at 1. cbn [String.prefix].
  rewrite prefix_empty, orb_false_iff.
  destruct (ascii_dec (ascii_of_nat 10) c) as [<-|Hne].
  - split; [by intros [? _]|by intros [? _]].
  - split; intros [_ ?]; (split; [congruence|done]).
Qed.

Lemma segments_cons (c : ascii) (s : string) :
  c ≠ ascii_of_nat 10 →
  ∃ seg segs, segments s = seg :: segs
              ∧ segments (String c s) = String c seg :: segs.
Proof.
  intros Hc. cbn [segments].
  destruct (Ascii.eqb_spec c (ascii_of_nat 10)); [done|].
  assert (segments s ≠ []) as Hne.
  { destruct s as [|c' s]; [done|]. cbn [segments].
    destruct (Ascii.eqb _ _); [done|]. by destruct (segments s). }
  destruct (segments s) as [|seg segs]; [done|]. by exists seg, segs.
Qed.

Lemma segments_LF_free_all (s : string) :
  Forall (λ seg, occurs_in LF seg = false) (segments s).
Proof.
  induction s as [|c s IH]; [by repeat constructor|].
  destruct (decide (c = ascii_of_nat 10)) as [->|Hc].
  - rewrite segments_LF_char. by constructor.
  - destruct (segments_cons c s Hc) as (seg & segs & Hs & ->).
    rewrite Hs in IH. apply Forall_cons in IH as [Hseg Hsegs].
    constructor; [|done]. by apply LF_free_cons.
Qed.

Lemma segments_app_LF (seg t : string) :
  occurs_in LF seg = false →
  segments (seg +:+ LF +:+ t) = seg :: segments t.
Proof.
  induction seg as [|c seg IH]; [done|].
  intros [Hc Hseg]%LF_free_cons.
  change (String c seg +:+ LF +:+ t) with (String c (seg +:+ LF +:+ t)).
  destruct (segments_cons c (seg +:+ LF +:+ t) Hc) as (s1 & ss & Hs & ->).
  rewrite (IH Hseg) in Hs. by injection Hs as <- <-.
Qed.

Lemma segments_join_lf (segs : list string) :
  segs ≠ [] →
  Forall (λ seg, occurs_in LF seg = false) segs →
  segments (join_lf segs) = segs.
Proof.
  intros Hne Hfree. induction Hfree as [|seg segs Hseg Hsegs IH]; [done|].
  destruct segs as [|seg2 segs].
  - by apply segments_LF_free.
  - cbn [join_lf]. rewrite segments_app_LF by done.
    f_equal. by apply IH.
Qed.

Lemma segments_nonempty (s : string) : segments s ≠ [].
Proof.
  destruct s as [|c s]; [done|]. cbn [segments].
  destruct (Ascii.eqb _ _); [done|]. by destruct (segments s).
Qed.

Lemma join_lf_segments (s : string) : join_lf (segments s) = s.
Proof.
  induction s as [|c s IH]; [done|].
  destruct (decide (c = ascii_of_nat 10)) as [->|Hc].
  - rewrite segments_LF_char. pose proof (segments_nonempty s) as Hne.
    destruct (segments s) as [|seg segs]; [done|].
    cbn [join_lf] in *. by rewrite IH.
  - destruct (segments_cons c s Hc) as (seg & segs & Hseg & ->).
    rewrite Hseg in IH. cbn [join_lf] in *.
    destruct segs as [|seg2 segs]; [by rewrite IH|].
    change (String c seg +:+ ?t) with (String c (seg +:+ t)).
    by rewrite IH.
Qed.

(** Untagging twice is untagging once. *)
Lemma remove_delimiter_fixed (x : string) :
  remove_delimiter (remove_delimiter x) = remove_delimiter x.
Proof.
  unfold remove_delimiter. rewrite segments_join_lf.
  - f_equal. rewrite <-list_fmap_compose. apply list_fmap_ext.
    intros _ seg _. apply untagged_fixed.
  - pose proof (segments_nonempty x). by destruct (segments x).
  - apply Forall_fmap. eapply Forall_impl; [apply segments_LF_free_all|].
    intros seg. apply untagged_LF_free.
Qed.

Lemma remove_delimiter_no (x : string) :
  remove_delimiter ("no " +:+ remove_delimiter x)
  = "no " +:+ remove_delimiter x.
Proof.
  assert (∀ c s, c ≠ ascii_of_nat 10 → c ≠ "@"%char →
                 Forall (λ seg, untagged seg = seg) (segments s) →
                 Forall (λ seg, untagged seg = seg)
                   (segments (String c s))) as Hcons.
  { intros c s Hc Hat Hs.
    destruct (segments_cons c s Hc) as (seg & segs & Hseg & ->).
    rewrite Hseg in Hs. apply Forall_cons in Hs as [Hfix Hsegs].
    constructor; [|done]. revert Hfix. unfold untagged, LINE_DELIMITER.
    cbn [after_last]. destruct (after_last "@!!@" seg) as [r|] eqn:Hlast.
    - simpl. intros ->.
      apply after_last_Some in Hlast as [[pre Hpre] _].
      apply (f_equal String.length) in Hpre.
      rewrite !string_length_app in Hpre. simpl in Hpre. lia.
    - intros _. cbn [String.prefix].
      by destruct (ascii_dec "@" c) as [<-|]. }
  assert (∀ s, Forall (λ seg, untagged seg = seg) (segments s) →
               remove_delimiter s = s) as Hid.
  { intros s Hs. unfold remove_delimiter.
    assert (untagged <$> segments s = segments s) as ->.
    { induction Hs as [|seg segs Hseg _ IH]; [done|].
      cbn [fmap list_fmap] in *. by rewrite Hseg, IH. }
    apply join_lf_segments. }
  apply Hid.
  change ("no " +:+ remove_delimiter x)
    with (String "n" (String "o" (String " " (remove_delimiter x)))).
  do 3 (apply Hcons; [done|done|]).
  unfold remove_delimiter. rewrite segments_join_lf.
  - apply Forall_fmap, Forall_forall. intros seg _. apply untagged_fixed.
  - pose proof (segments_nonempty x). by destruct (segments x).
  - apply Forall_fmap. eapply Forall_impl; [apply segments_LF_free_all|].
    intros seg. apply untagged_LF_free.
Qed.

(** X21. The commands synthesised for lines that are not expected are
    a fixed point of the synthesis: a line that is a negation already
    is issued as it is, not turned back, and a command holds no tag any
    more. *)
Theorem not_expected_commands_fixed (too_much : list string) :
  not_expected_commands (not_expected_commands too_much)
  = not_expected_commands too_much.
Proof.
  unfold not_expected_commands. cbv zeta.
  rewrite !not_expected_loop_spec, !app_nil_l.
  induction too_much as [|line too_much IH]; [done|].
  cbn [fmap list_fmap]. rewrite filter_cons.
  destruct (decide (remove_delimiter line ≠ "")) as [Hne|_]; [|done].
  cbn [fmap list_fmap]. rewrite filter_cons.
  assert (remove_delimiter (negated (remove_delimiter line))
          = negated (remove_delimiter line)) as ->.
  { unfold negated. destruct (startswith _ _).
    - apply remove_delimiter_fixed.
    - apply remove_delimiter_no. }
  assert (negated (negated (remove_delimiter line))
          = negated (remove_delimiter line)) as Hnn.
  { unfold negated at 1. by rewrite negated_startswith. }
  rewrite decide_True.
  - cbn [fmap list_fmap]. by rewrite Hnn, IH.
  - intros Heq. pose proof (negated_startswith (remove_delimiter line)) as H.
    by rewrite Heq in H.
Qed.

(** ** Validation of the module parameters *)

Lemma message_nonempty (a b : string) (c : ascii) :
  a +:+ String c b ≠ "".
Proof. by destruct a. Qed.

Lemma validate_compare_method_inv (p p' : Params) :
  validate_compare_method p = ("", p') →
  is_empty (p_compare_method p) = false
  ∧ lower (default "" (p_compare_method p)) = COMPARE_METHOD_EQUALS
  ∧ p' = set_compare_method (Some COMPARE_METHOD_EQUALS) p.
Proof.
  unfold validate_compare_method.
  destruct (is_empty (p_compare_method p)); [done|]. cbv zeta.
  case_bool_decide as Hin.
  - intros [= H _]. by apply message_nonempty in H.
  - intros [= <-]. apply list_elem_of_singleton in Hin. by rewrite Hin.
Qed.

Lemma validate_search_mode_inv (p p' : Params) :
  validate_search_mode p = ("", p') →
  is_empty (p_search_mode p) = false
  ∧ lower (default "" (p_search_mode p)) ∈ VALID_SEARCH_MODES
  ∧ (lower (default "" (p_search_mode p)) ≠ SEARCH_MODE_GLOBAL →
     is_empty (p_search_start p) = false)
  ∧ p' = set_search_mode (Some (lower (default "" (p_search_mode p)))) p.
Proof.
  unfold validate_search_mode.
  destruct (is_empty (p_search_mode p)); [done|]. cbv zeta.
  case_bool_decide as Hin.
  { intros [= H _]. by apply message_nonempty in H. }
  destruct (negb _ && _) eqn:Hstart; [done|]. intros [= <-].
  split; [done|]. split; [done|]. split; [|done].
  intros Hglobal. apply andb_false_iff in Hstart as [Hg|Hs].
  - apply negb_false_iff, String.eqb_eq in Hg. done.
  - simpl in Hs. destruct (is_empty (p_search_start p)) eqn:He; [|done].
    done.
Qed.

Lemma validate_compare_args_inv (p p' : Params) :
  validate_compare_args p = ("", p') →
  Forall (λ arg, arg ∈ VALID_COMPARE_ARGS)
    (lower <$> default [] (p_compare_args p))
  ∧ p' = set_compare_args (Some (lower <$> default [] (p_compare_args p))) p.
Proof.
  unfold validate_compare_args.
  destruct (p_compare_args p) as [compare_args|]; [|by intros [= <-]].
  cbv zeta. case_bool_decide as Hnil; cbn [negb].
  - intros [= <-]. split; [|done]. simpl.
    apply Forall_forall. intros arg Harg.
    destruct (decide (arg ∈ VALID_COMPARE_ARGS)) as [|Hno]; [done|].
    assert (arg ∈ filter (λ arg, arg ∉ VALID_COMPARE_ARGS)
                    (lower <$> compare_args)) as Hin
      by (by apply list_elem_of_filter).
    rewrite Hnil in Hin. by apply elem_of_nil in Hin.
  - intros [= H _]. by apply message_nonempty in H.
Qed.

(** What a successful validation leaves in the parameters. *)
Lemma validate_input_inv (p p' : Params) :
  validate_input p = ("", p') →
  is_empty (p_source p) = false
  ∧ is_empty (p_destination_expected p) = false
  ∧ is_empty (p_destination_not_expected p) = false
  ∧ is_empty (p_template p) = false
  ∧ is_empty (p_compare_method p) = false
  ∧ lower (default "" (p_compare_method p)) = COMPARE_METHOD_EQUALS
  ∧ is_empty (p_search_mode p) = false
  ∧ lower (default "" (p_search_mode p)) ∈ VALID_SEARCH_MODES
  ∧ (lower (default "" (p_search_mode p)) ≠ SEARCH_MODE_GLOBAL →
     is_empty (p_search_start p) = false)
  ∧ Forall (λ arg, arg ∈ VALID_COMPARE_ARGS)
      (lower <$> default [] (p_compare_args p))
  ∧ p' = mkParams (p_source p) (p_destination_expected p)
           (p_destination_not_expected p) (p_template p)
           (Some (default [] (p_template_args p)))
           (Some (lower (default "" (p_search_mode p))))
           (p_search_start p)
           (Some (default "" (p_search_end p)))
           (Some COMPARE_METHOD_EQUALS)
           (Some (lower <$> default [] (p_compare_args p)))
           (Some (default [] (p_ignore_lines p))).
Proof.
  unfold validate_input.
  destruct (is_empty (p_source p)); [done|].
  destruct (is_empty (p_destination_expected p)); [done|].
  destruct (is_empty (p_destination_not_expected p)); [done|].
  destruct (is_empty (p_template p)); [done|].
  destruct (validate_compare_method p) as [e1 p1] eqn:H1.
  destruct (String.eqb_spec e1 "") as [->|]; cbn [negb];
    [|by intros [= -> _]].
  apply validate_compare_method_inv in H1 as (Hm1 & Hm2 & ->).
  destruct (validate_search_mode _) as [e2 p2] eqn:H2.
  destruct (String.eqb_spec e2 "") as [->|]; cbn [negb];
    [|by intros [= -> _]].
  apply validate_search_mode_inv in H2 as (Hs1 & Hs2 & Hs3 & ->).
  destruct (validate_compare_args _) as [e3 p3] eqn:H3.
  destruct (String.eqb_spec e3 "") as [->|]; cbn [negb];
    [|by intros [= -> _]].
  apply validate_compare_args_inv in H3 as (Ha & ->).
  intros [= <-]. destruct p as [? ? ? ? ta ? ? se ? ? il].
  simpl in *. repeat (split; [done|]).
  by destruct ta, se, il.
Qed.

Lemma lower_valid_search_mode (search_mode : string) :
  search_mode ∈ VALID_SEARCH_MODES → lower search_mode = search_mode.
Proof.
  unfold VALID_SEARCH_MODES. rewrite !elem_of_cons, elem_of_nil.
  by intros [->|[->|[->|[->|[]]]]].
Qed.

Lemma lower_valid_compare_arg (arg : string) :
  arg ∈ VALID_COMPARE_ARGS → lower arg = arg.
Proof.
  unfold VALID_COMPARE_ARGS. rewrite !elem_of_cons, elem_of_nil.
  by intros [->|[->|[->|[]]]].
Qed.

(** X22. Parameters that pass validation are normalised: the compare
    method is ["equals"], the search mode is one of the four valid modes
    and comes with a non-empty start pattern unless it is ["global"],
    every compare argument is a valid one, the four mandatory
    parameters are non-empty, and the end pattern, the template
    arguments and the ignore list are not None. *)
Theorem validate_input_normalises (p p' : Params) :
  validate_input p = ("", p') →
  p_compare_method p' = Some COMPARE_METHOD_EQUALS
  ∧ (∃ search_mode,
       p_search_mode p' = Some search_mode
       ∧ search_mode ∈ VALID_SEARCH_MODES
       ∧ (search_mode ≠ SEARCH_MODE_GLOBAL →
          is_empty (p_search_start p') = false))
  ∧ (∃ compare_args,
       p_compare_args p' = Some compare_args
       ∧ Forall (λ arg, arg ∈ VALID_COMPARE_ARGS) compare_args)
  ∧ is_empty (p_source p') = false
  ∧ is_empty (p_destination_expected p') = false
  ∧ is_empty (p_destination_not_expected p') = false
  ∧ is_empty (p_template p') = false
  ∧ is_Some (p_search_end p')
  ∧ is_Some (p_template_args p')
  ∧ is_Some (p_ignore_lines p').
Proof.
  intros (H1 & H2 & H3 & H4 & _ & _ & _ & Hmode & Hstart & Hargs & ->)
    %validate_input_inv.
  simpl. split; [done|]. split; [by eexists|]. split; [by eexists|].
  by repeat split.
Qed.

Lemma validate_input_normalises_witness :
  p_compare_method
    (mkParams (Some "running.cfg") (Some "expected.txt")
       (Some "not_expected.txt") (Some "vlan.j2") (Some [])
       (Some "block") (Some "interface Vlan1") (Some "")
       (Some "equals") (Some ["strict_order"; "keep_block_start"])
       (Some []))
  = Some COMPARE_METHOD_EQUALS
  ∧ (∃ search_mode,
       p_search_mode
         (mkParams (Some "running.cfg") (Some "expected.txt")
            (Some "not_expected.txt") (Some "vlan.j2") (Some [])
            (Some "block") (Some "interface Vlan1") (Some "")
            (Some "equals") (Some ["strict_order"; "keep_block_start"])
            (Some []))
       = Some search_mode
       ∧ search_mode ∈ VALID_SEARCH_MODES
       ∧ (search_mode ≠ SEARCH_MODE_GLOBAL →
          is_empty
            (p_search_start
               (mkParams (Some "running.cfg") (Some "expected.txt")
                  (Some "not_expected.txt") (Some "vlan.j2") (Some [])
                  (Some "block") (Some "interface Vlan1") (Some "")
                  (Some "equals")
                  (Some ["strict_order"; "keep_block_start"]) (Some [])))
          = false))
  ∧ (∃ compare_args,
       p_compare_args
         (mkParams (Some "running.cfg") (Some "expected.txt")
            (Some "not_expected.txt") (Some "vlan.j2") (Some [])
            (Some "block") (Some "interface Vlan1") (Some "")
            (Some "equals") (Some ["strict_order"; "keep_block_start"])
            (Some []))
       = Some compare_args
       ∧ Forall (λ arg, arg ∈ VALID_COMPARE_ARGS) compare_args)
  ∧ is_empty (Some "running.cfg") = false
  ∧ is_empty (Some "expected.txt") = false
  ∧ is_empty (Some "not_expected.txt") = false
  ∧ is_empty (Some "vlan.j2") = false
  ∧ is_Some (Some "")
  ∧ is_Some (Some ([] : list (string * string)))
  ∧ is_Some (Some ([] : list string)).
Proof.
  apply (validate_input_normalises
           (mkParams (Some "running.cfg") (Some "expected.txt")
              (Some "not_expected.txt") (Some "vlan.j2") None
              (Some "Block") (Some "interface Vlan1") None
              (Some "EQUALS") (Some ["Strict_Order"; "keep_block_start"])
              None)).
  vm_compute. reflexivity.
Defined.

(** Validation accepts normalised parameters and leaves them alone. *)
Lemma validate_input_normal (src de dne tpl ss : option string)
    (ta : list (string * string)) (m se : string)
    (args il : list string) :
  is_empty src = false → is_empty de = false →
  is_empty dne = false → is_empty tpl = false →
  m ∈ VALID_SEARCH_MODES →
  (m ≠ SEARCH_MODE_GLOBAL → is_empty ss = false) →
  Forall (λ arg, arg ∈ VALID_COMPARE_ARGS) args →
  validate_input
    (mkParams src de dne tpl (Some ta) (Some m) ss (Some se)
       (Some COMPARE_METHOD_EQUALS) (Some args) (Some il))
  = ("", mkParams src de dne tpl (Some ta) (Some m) ss (Some se)
           (Some COMPARE_METHOD_EQUALS) (Some args) (Some il)).
Proof.
  intros H1 H2 H3 H4 Hmode Hstart Hargs.
  assert (validate_search_mode
            (mkParams src de dne tpl (Some ta) (Some m) ss (Some se)
               (Some COMPARE_METHOD_EQUALS) (Some args) (Some il))
          = ("", mkParams src de dne tpl (Some ta) (Some m) ss (Some se)
                   (Some COMPARE_METHOD_EQUALS) (Some args) (Some il)))
    as Hsm.
  { unfold VALID_SEARCH_MODES in Hmode.
    rewrite !elem_of_cons, elem_of_nil in Hmode.
    destruct Hmode as [->|[->|[->|[->|[]]]]]; [| | |done];
      specialize (Hstart ltac:(done));
      by destruct ss as [[|c start]|]. }
  assert (validate_compare_args
            (mkParams src de dne tpl (Some ta) (Some m) ss (Some se)
               (Some COMPARE_METHOD_EQUALS) (Some args) (Some il))
          = ("", mkParams src de dne tpl (Some ta) (Some m) ss (Some se)
                   (Some COMPARE_METHOD_EQUALS) (Some args) (Some il)))
    as Hca.
  { unfold validate_compare_args, set_compare_args.
    cbn [p_compare_args p_source p_destination_expected
         p_destination_not_expected p_template p_template_args
         p_search_mode p_search_start p_search_end p_compare_method
         p_ignore_lines]. cbv zeta.
    assert (lower <$> args = args) as ->.
    { clear -Hargs. induction Hargs as [|arg args' Harg _ IH]; [done|].
      cbn [fmap list_fmap].
      by rewrite IH, (lower_valid_compare_arg _ Harg). }
    assert (filter (λ arg, arg ∉ VALID_COMPARE_ARGS) args = []) as ->.
    { clear -Hargs. induction Hargs as [|arg args' Harg _ IH]; [done|].
      rewrite filter_cons, decide_False by (by intros Hno). done. }
    by rewrite bool_decide_true. }
  unfold validate_input.
  cbn [p_source p_destination_expected p_destination_not_expected
       p_template].
  rewrite H1, H2, H3, H4.
  change (validate_compare_method
            (mkParams src de dne tpl (Some ta) (Some m) ss (Some se)
               (Some COMPARE_METHOD_EQUALS) (Some args) (Some il)))
    with ("", mkParams src de dne tpl (Some ta) (Some m) ss (Some se)
                (Some COMPARE_METHOD_EQUALS) (Some args) (Some il)).
  cbv iota beta. change (negb (String.eqb "" "")) with false. cbv iota.
  rewrite Hsm. cbv iota beta.
  change (negb (String.eqb "" "")) with false. cbv iota.
  rewrite Hca. cbv iota beta.
  change (negb (String.eqb "" "")) with false. cbv iota.
  reflexivity.
Qed.

(** X23. Validation is idempotent on what it accepts: parameters that
    passed validation pass it again and are left as they are. *)
Theorem validate_input_fixed (p p' : Params) :
  validate_input p = ("", p') → validate_input p' = ("", p').
Proof.
  intros (H1 & H2 & H3 & H4 & _ & _ & _ & Hmode & Hstart & Hargs & ->)
    %validate_input_inv.
  by apply validate_input_normal.
Qed.

Lemma validate_input_fixed_witness :
  validate_input
    (mkParams (Some "running.cfg") (Some "expected.txt")
       (Some "not_expected.txt") (Some "vlan.j2") (Some [])
       (Some "block") (Some "interface Vlan1") (Some "")
       (Some "equals") (Some ["strict_order"; "keep_block_start"])
       (Some []))
  = ("",
     mkParams (Some "running.cfg") (Some "expected.txt")
       (Some "not_expected.txt") (Some "vlan.j2") (Some [])
       (Some "block") (Some "interface Vlan1") (Some "")
       (Some "equals") (Some ["strict_order"; "keep_block_start"])
       (Some [])).
Proof.
  apply (validate_input_fixed
           (mkParams (Some "running.cfg") (Some "expected.txt")
              (Some "not_expected.txt") (Some "vlan.j2") None
              (Some "Block") (Some "interface Vlan1") None
              (Some "EQUALS") (Some ["Strict_Order"; "keep_block_start"])
              None)).
  vm_compute. reflexivity.
Defined.

(** ** Writing the remaining configuration and loading it again *)

Lemma one_line_cons (c : ascii) (s : string) :
  one_line (String c s)
  ↔ c ≠ ascii_of_nat 10 ∧ c ≠ ascii_of_nat 13 ∧ one_line s.
Proof.
  unfold one_line. rewrite LF_free_cons.
  cbn [occurs_in]. unfold CR at 1. cbn [String.prefix].
  rewrite prefix_empty, orb_false_iff.
  destruct (ascii_dec (ascii_of_nat 13) c) as [<-|Hne].
  - split; [by intros [_ [? _]]|by intros (_ & ? & _)].
  - split; [intros [[? ?] [_ ?]]|intros (? & _ & ? & ?)];
      repeat split; try done; congruence.
Qed.

Lemma splitlines_regular (c : ascii) (s : string) :
  c ≠ ascii_of_nat 10 → c ≠ ascii_of_nat 13 →
  splitlines (String c s)
  = match splitlines s with
    | line :: lines => String c line :: lines
    | [] => [String c EmptyString]
    end.
Proof.
  intros H10 H13. cbn [splitlines].
  destruct (Ascii.eqb_spec c (ascii_of_nat 10)); [done|].
  by destruct (Ascii.eqb_spec c (ascii_of_nat 13)).
Qed.

Lemma splitlines_one_line (line : string) :
  line ≠ "" → one_line line → splitlines line = [line].
Proof.
  induction line as [|c line IH]; [done|].
  intros _ (H10 & H13 & Hline)%one_line_cons.
  rewrite splitlines_regular by done.
  destruct line as [|c' line]; [done|]. by rewrite IH.
Qed.

Lemma splitlines_line_LF (line rest : string) :
  one_line line →
  splitlines (line +:+ LF +:+ rest) = line :: splitlines rest.
Proof.
  induction line as [|c line IH]; [done|].
  intros (H10 & H13 & Hline)%one_line_cons.
  change (String c line +:+ LF +:+ rest)
    with (String c (line +:+ LF +:+ rest)).
  rewrite splitlines_regular by done. by rewrite IH.
Qed.

Lemma string_app_assoc (s t u : string) :
  (s +:+ t) +:+ u = s +:+ t +:+ u.
Proof.
  induction s as [|c s IH]; [done|].
  change (String c ((s +:+ t) +:+ u) = String c (s +:+ t +:+ u)).
  by f_equal.
Qed.

Lemma string_app_nil_r (s : string) : s +:+ "" = s.
Proof.
  induction s as [|c s IH]; [done|].
  change (String c (s +:+ "") = String c s). by f_equal.
Qed.

Lemma written_text (remaining_config : list string) (text : string) :
  foldl (λ text line, text +:+ (LF +:+ line)) text remaining_config
  = text +:+ foldr (λ line rest, LF +:+ line +:+ rest) "" remaining_config.
Proof.
  revert text.
  induction remaining_config as [|line lines IH]; intros text;
    cbn [foldl foldr].
  - by rewrite string_app_nil_r.
  - by rewrite IH, !string_app_assoc.
Qed.

Lemma splitlines_LF (rest : string) :
  splitlines (LF +:+ rest) = "" :: splitlines rest.
Proof. reflexivity. Qed.

Lemma splitlines_written (remaining_config : list string) :
  remaining_config ≠ [] →
  last remaining_config ≠ Some "" →
  Forall one_line remaining_config →
  splitlines (foldr (λ line rest, LF +:+ line +:+ rest) ""
                remaining_config)
  = "" :: remaining_config.
Proof.
  intros Hne. destruct remaining_config as [|line lines]; [done|].
  clear Hne. revert line.
  induction lines as [|line2 lines IH]; intros line Hlast Hlines;
    apply Forall_cons in Hlines as [Hline Hlines];
    cbn [foldr]; rewrite splitlines_LF; f_equal.
  - rewrite string_app_nil_r.
    apply splitlines_one_line; [|done]. intros ->. by apply Hlast.
  - rewrite last_cons_cons in Hlast. specialize (IH line2 Hlast Hlines).
    cbn [foldr] in IH. rewrite splitlines_LF in IH. injection IH as IH.
    rewrite splitlines_line_LF by done. by rewrite IH.
Qed.

(** X24. Writing the remaining configuration and loading it again
    does not give the lines back as they were: the file starts with the
    line feed written before the first line, so loading gives an empty
    line followed by the lines.  This is for a configuration that is
    not empty, whose lines hold no line end and whose last line is not
    empty. *)
Theorem remaining_config_reloaded (config_path : string)
    (remaining_config : list string) (fs : files) :
  remaining_config ≠ [] →
  last remaining_config ≠ Some "" →
  Forall one_line remaining_config →
  load_config config_path
    (write_remaining_config config_path remaining_config fs)
  = Some ("" :: remaining_config).
Proof.
  intros Hne Hlast Hlines. unfold load_config, write_remaining_config.
  destruct remaining_config as [|line lines] eqn:E; [done|].
  rewrite <-E in *. cbv zeta. rewrite String.eqb_refl.
  cbn [fmap option_fmap option_map]. f_equal.
  rewrite written_text. cbn [String.append].
  by apply splitlines_written.
Qed.

Lemma remaining_config_reloaded_witness :
  load_config "running.cfg"
    (write_remaining_config "running.cfg"
       ["hostname r1"; "!"; "line vty 0 4"] (λ _, None))
  = Some ("" :: ["hostname r1"; "!"; "line vty 0 4"]).
Proof.
  apply remaining_config_reloaded.
  - done.
  - done.
  - repeat constructor.
Defined.

(** ** The banner *)

Lemma bangs_length (width : nat) : String.length (bangs width) = width.
Proof. induction width as [|width IH]; simpl; [done|]. by rewrite IH. Qed.

Lemma bangs_one_line (width : nat) : one_line (bangs width).
Proof.
  induction width as [|width IH]; [done|].
  cbn [bangs]. by apply one_line_cons.
Qed.

Lemma one_line_app (s t : string) :
  one_line s → one_line t → one_line (s +:+ t).
Proof.
  intros Hs Ht. induction s as [|c s IH]; [done|].
  change (String c s +:+ t) with (String c (s +:+ t)).
  apply one_line_cons in Hs as (H10 & H13 & Hs).
  apply one_line_cons. auto.
Qed.

(** X25. The banner is a box: for a description without a line end,
    [bordered] gives three lines, each four characters longer than the
    description. *)
Theorem bordered_box (text : string) :
  one_line text →
  length (splitlines (bordered text)) = 3
  ∧ Forall (λ line, String.length line = String.length text + 4)
      (splitlines (bordered text)).
Proof.
  intros Htext. unfold bordered. cbv zeta. cbn [app join_lf].
  assert (one_line ("!" +:+ (" " +:+ text +:+ " ") +:+ "!")) as Hmid.
  { change ("!" +:+ (" " +:+ text +:+ " ") +:+ "!")
      with (String "!" (String " " ((text +:+ " ") +:+ "!"))).
    apply one_line_cons. split; [done|]. split; [done|].
    apply one_line_cons. split; [done|]. split; [done|].
    by repeat apply one_line_app. }
  rewrite splitlines_line_LF by apply bangs_one_line.
  rewrite splitlines_line_LF by done.
  rewrite splitlines_one_line; [| |apply bangs_one_line].
  - split; [done|].
    repeat constructor; rewrite ?bangs_length; [done| |done].
    change ("!" +:+ (" " +:+ text +:+ " ") +:+ "!")
      with (String "!" (String " " ((text +:+ " ") +:+ "!"))).
    cbn [String.length]. rewrite !string_length_app. simpl. lia.
  - replace (String.length text + 4) with (S (String.length text + 3))
      by lia. done.
Qed.

Lemma bordered_box_witness :
  length (splitlines (bordered "vlan interfaces")) = 3
  ∧ Forall (λ line, String.length line
                    = String.length "vlan interfaces" + 4)
      (splitlines (bordered "vlan interfaces")).
Proof. apply bordered_box. done. Defined.

(** ** The order of the lines in the comparison without strict order *)

Lemma string_leb_trans (s1 s2 s3 : string) :
  String.leb s1 s2 = true → String.leb s2 s3 = true →
  String.leb s1 s3 = true.
Proof.
  revert s2 s3. induction s1 as [|c1 s1 IH]; intros [|c2 s2] [|c3 s3];
    try done.
  specialize (IH s2 s3). unfold String.leb in *. cbn [String.compare].
  unfold Ascii.compare.
  destruct (N.compare_spec (N_of_ascii c1) (N_of_ascii c2)) as [H12|H12|H12],
    (N.compare_spec (N_of_ascii c2) (N_of_ascii c3)) as [H23|H23|H23],
    (N.compare_spec (N_of_ascii c1) (N_of_ascii c3)) as [H13|H13|H13];
    try done; try lia.
Qed.

#[global] Instance str_le_trans : Transitive str_le.
Proof. intros s1 s2 s3. apply string_leb_trans. Qed.

#[global] Instance str_le_antisymm : AntiSymm (=) str_le.
Proof. intros s1 s2. apply String.leb_antisym. Qed.

#[global] Instance str_le_total : Total str_le.
Proof. intros s1 s2. apply String.leb_total. Qed.

(** [sorted] gives the same list for every order of the same lines. *)
Lemma sorted_str_perm (l1 l2 : list string) :
  l1 ≡ₚ l2 → sorted_str l1 = sorted_str l2.
Proof.
  intros Hperm. unfold sorted_str.
  apply (Sorted_unique str_le); [apply Sorted_merge_sort; apply _..|].
  by rewrite !merge_sort_Permutation.
Qed.

Section OrderOfLines.

Context {regex : Type}.
Context (re_compile : string → res regex).
Context (re_search : regex → string → bool).
Context (py_hash : string → Z).

(** X26. Without [strict_order] the order of the lines does not count:
    a block with content whose fragment lines are the template lines in
    another order is compliant, both residues are empty, whatever the
    hash function and the ignore patterns are. *)
Theorem reordered_block_leaves_no_residue (block : Block)
    (template : Template) (compare_args ignore_lines : list string)
    (σ : store) (B T : list string) :
  COMPARE_ARG_STRICT ∉ compare_args →
  σ !! b_content block = Some B → B ≠ [] →
  σ !! t_content template = Some T →
  fragment_lines block B
    (bool_decide (COMPARE_ARG_KEEP_START ∈ compare_args))
    (bool_decide (COMPARE_ARG_KEEP_END ∈ compare_args)) ≡ₚ T →
  ∃ extra missing σ',
    block_check_equal re_compile re_search py_hash
      block template compare_args ignore_lines σ
    = Ok ((extra, missing), σ')
    ∧ σ' !! extra = Some [] ∧ σ' !! missing = Some [].
Proof.
  intros Hstrict HB Hne HT Hperm.
  destruct (block_check_equal_present_run re_compile re_search py_hash
              block template compare_args ignore_lines σ B T HB Hne HT)
    as (σ1 & Hpre & ->).
  unfold present_block_residues, is_hash_equal.
  rewrite (bool_decide_false _ Hstrict).
  rewrite (sorted_str_perm _ _ Hperm).
  rewrite bool_decide_true by done.
  eexists _, _, _. split; [done|]. split.
  - by rewrite lookup_app_r, Nat.sub_diag by lia.
  - rewrite lookup_app_r by lia.
    by replace (S (length σ1) - length σ1) with 1 by lia.
Qed.

End OrderOfLines.

Lemma reordered_block_leaves_no_residue_witness :
  ∃ extra missing σ',
    block_check_equal lit_compile lit_search digits_hash
      (mkBlock "interface Vlan1" None 0) (mkTemplate "vlan.j2" 1)
      ["keep_block_start"] []
      [["no shutdown"; "ip address 10.0.0.1 255.255.255.0"];
       ["interface Vlan1"; "ip address 10.0.0.1 255.255.255.0";
        "no shutdown"]]
    = Ok ((extra, missing), σ')
    ∧ σ' !! extra = Some [] ∧ σ' !! missing = Some [].
Proof.
  apply (reordered_block_leaves_no_residue lit_compile lit_search
           digits_hash (mkBlock "interface Vlan1" None 0)
           (mkTemplate "vlan.j2" 1) ["keep_block_start"] []
           [["no shutdown"; "ip address 10.0.0.1 255.255.255.0"];
            ["interface Vlan1"; "ip address 10.0.0.1 255.255.255.0";
             "no shutdown"]]
           ["no shutdown"; "ip address 10.0.0.1 255.255.255.0"]
           ["interface Vlan1"; "ip address 10.0.0.1 255.255.255.0";
            "no shutdown"]).
  - intros Hin. apply list_elem_of_singleton in Hin. discriminate Hin.
  - reflexivity.
  - discriminate.
  - reflexivity.
  - change (fragment_lines _ _ _ _)
      with ("interface Vlan1"
            :: ["no shutdown"; "ip address 10.0.0.1 255.255.255.0"]).
    apply Permutation_skip, perm_swap.
Defined.
